(** * influbot: the post-generation pipeline of [app/post_generator.py]

    A shallow embedding of the pure core of the pipeline (text utilities,
    URL deduplication, content-type normalisation, the news provider and
    the web search, selection repair, rendering under a character budget,
    used-source tracking and the verify/revise loop) together with the
    properties the design document states about them and further
    properties of the code.

    Conventions.
    - A Python [str] is a list of Unicode code points ([char := N]).
    - A Python [int] is a [Z]; a length or a count produced by the code
      itself is a [nat].
    - A call that may raise is a value of [exc A].
    - Library functions that live outside the repository ([json.loads],
      [str.lower], [str.isdigit], [int], [urlparse], the web-search client,
      the chat backend) are Section variables: every theorem holds for any
      behaviour of theirs. *)

From Stdlib Require Import ZArith NArith List Lia Bool Ascii String Sorted.
From stdpp Require Import base decidable list gmap sorting.
Import ListNotations.

#[local] Open Scope Z_scope.
#[local] Open Scope list_scope.

(** ** Strings *)

Definition char : Type := N.
Definition str : Type := list char.

(** A string literal of the source, as code points. *)
Definition lit (x : string) : str := map N_of_ascii (list_ascii_of_string x).

Definition NL : char := 10%N.
Definition DQ : char := 34%N.

Definition str_eqb (a b : str) : bool := bool_decide (a = b).

(** [len(s)] as a Python integer. *)
Definition len {A} (l : list A) : Z := Z.of_nat (length l).

(** Truthiness of an optional string: [None] and [""] are falsy. *)
Definition truthy (o : option str) : bool :=
  match o with
  | Some (_ :: _) => true
  | _ => false
  end.

(** The code points Python treats as whitespace ([str.isspace], the
    default of [str.strip], and [\s] in a [str] pattern). *)
Definition is_space (c : char) : bool :=
  ((9 <=? c) && (c <=? 13) || (28 <=? c) && (c <=? 32) ||
   (c =? 133) || (c =? 160) || (c =? 5760) ||
   (8192 <=? c) && (c <=? 8202) ||
   (c =? 8232) || (c =? 8233) || (c =? 8239) || (c =? 8287) ||
   (c =? 12288))%N.

Fixpoint lstrip (s : str) : str :=
  match s with
  | c :: s' => if is_space c then lstrip s' else s
  | [] => []
  end.

Definition rstrip (s : str) : str := rev (lstrip (rev s)).

Definition strip (s : str) : str := rstrip (lstrip s).

(** [prefix.startswith]: is [p] a prefix of [s]? *)
Fixpoint starts_with (p s : str) : bool :=
  match p, s with
  | [], _ => true
  | a :: p', b :: s' => (a =? b)%N && starts_with p' s'
  | _ :: _, [] => false
  end.

(** [needle in s] for strings. *)
Fixpoint contains (needle s : str) : bool :=
  starts_with needle s ||
  match s with
  | [] => false
  | _ :: s' => contains needle s'
  end.

(** [s.replace(old, new)] for a non-empty [old]: leftmost occurrences,
    not overlapping.  [skip] counts the characters of the occurrence
    being consumed. *)
Fixpoint replace_from (old new s : str) (skip : nat) : str :=
  match s with
  | [] => []
  | c :: s' =>
      match skip with
      | S k => replace_from old new s' k
      | O =>
          if starts_with old s
          then new ++ replace_from old new s' (Nat.pred (length old))
          else c :: replace_from old new s' 0
      end
  end.

Definition replace (old new s : str) : str := replace_from old new s 0.

(** [s.split(sep)] for a non-empty [sep]: the pieces between the
    occurrences of [sep], with the piece being built in [cur]. *)
Fixpoint split_from (sep s : str) (skip : nat) (cur : str) : list str :=
  match s with
  | [] => [rev cur]
  | c :: s' =>
      match skip with
      | S k => split_from sep s' k cur
      | O =>
          if starts_with sep s
          then rev cur :: split_from sep s' (Nat.pred (length sep)) []
          else split_from sep s' 0 (c :: cur)
      end
  end.

Definition split (sep s : str) : list str := split_from sep s 0 [].

(** [sep.join(parts)]. *)
Fixpoint join (sep : str) (parts : list str) : str :=
  match parts with
  | [] => []
  | [p] => p
  | p :: ps => p ++ sep ++ join sep ps
  end.

(** ** Regular expressions

    Every pattern of the program is a sequence of character classes, each
    under a greedy bounded repetition; none can match the empty string.
    [match_here] is the backtracking matcher of [re] on that fragment:
    each atom first takes as many characters as it may and gives them
    back one at a time while the rest of the pattern fails. *)

Record atom : Type := Atom {
  a_cls : char -> bool;
  a_min : nat;
  a_max : option nat
}.

Definition one (p : char -> bool) : atom := Atom p 1 (Some 1%nat).
Definition chr (c : char) : atom := one (N.eqb c).
Arguments chr c%_N.
Definition plus (p : char -> bool) : atom := Atom p 1 None.

Fixpoint run_len (p : char -> bool) (s : str) : nat :=
  match s with
  | c :: s' => if p c then S (run_len p s') else O
  | [] => O
  end.

Definition atom_hi (a : atom) (s : str) : nat :=
  match a_max a with
  | Some m => Nat.min m (run_len (a_cls a) s)
  | None => run_len (a_cls a) s
  end.

(** The pieces matched by each atom, at the start of [s]. *)
Fixpoint match_here (pat : list atom) (s : str) : option (list str) :=
  match pat with
  | [] => Some []
  | a :: pat' =>
      (fix give_back (c : nat) : option (list str) :=
         match (if (a_min a <=? c)%nat then match_here pat' (skipn c s) else None) with
         | Some ps => Some (firstn c s :: ps)
         | None =>
             match c with
             | O => None
             | S c' => give_back c'
             end
         end) (atom_hi a s)
  end.

Definition match_len (ps : list str) : nat := length (concat ps).

(** [re.finditer]: the (start, end) positions of the successive matches. *)
Fixpoint finditer_from (pat : list atom) (s : str) (pos skip : nat) : list (nat * nat) :=
  match s with
  | [] => []
  | _ :: s' =>
      match skip with
      | S k => finditer_from pat s' (S pos) k
      | O =>
          match match_here pat s with
          | Some ps =>
              match match_len ps with
              | S k => (pos, (pos + S k)%nat) :: finditer_from pat s' (S pos) k
              | O => finditer_from pat s' (S pos) 0
              end
          | None => finditer_from pat s' (S pos) 0
          end
      end
  end.

Definition finditer (pat : list atom) (s : str) : list (nat * nat) :=
  finditer_from pat s 0 0.

(** [re.findall] for a pattern without groups: the matched substrings. *)
Definition findall (pat : list atom) (s : str) : list str :=
  map (fun m => firstn (snd m - fst m) (skipn (fst m) s)) (finditer pat s).

(** [re.sub(pat, repl, s)], the replacement computed from the pieces. *)
Fixpoint sub_from (pat : list atom) (repl : list str -> str) (s : str) (skip : nat) : str :=
  match s with
  | [] => []
  | c :: s' =>
      match skip with
      | S k => sub_from pat repl s' k
      | O =>
          match match_here pat s with
          | Some ps =>
              match match_len ps with
              | S k => repl ps ++ sub_from pat repl s' k
              | O => c :: sub_from pat repl s' 0
              end
          | None => c :: sub_from pat repl s' 0
          end
      end
  end.

Definition re_sub (pat : list atom) (repl : list str -> str) (s : str) : str :=
  sub_from pat repl s 0.

(** [re.split(pat, s)] for a pattern without groups. *)
Fixpoint re_split_from (pat : list atom) (s : str) (skip : nat) (cur : str) : list str :=
  match s with
  | [] => [rev cur]
  | c :: s' =>
      match skip with
      | S k => re_split_from pat s' k cur
      | O =>
          match match_here pat s with
          | Some ps =>
              match match_len ps with
              | S k => rev cur :: re_split_from pat s' k []
              | O => re_split_from pat s' 0 (c :: cur)
              end
          | None => re_split_from pat s' 0 (c :: cur)
          end
      end
  end.

Definition re_split (pat : list atom) (s : str) : list str :=
  re_split_from pat s 0 [].

(** ** Utilities of the source *)

Definition is_sentence_end (c : char) : bool :=
  ((c =? 46) || (c =? 33) || (c =? 63))%N.

(** [r"[\.!?]"] *)
Definition SENTENCE_END_RE : list atom := [one is_sentence_end].

(** [last_end > max_chars * 0.6].  The product is a binary64 float and
    the comparison of an [int] with a [float] is exact; the rounded
    product equals [3 * max_chars / 5] when that is an integer and stays
    strictly between the same two integers otherwise (for every budget
    below 2^52), so the test is the exact one on integers. *)
Definition beyond_60_percent (last_end : nat) (max_chars : Z) : bool :=
  3 * max_chars <? 5 * Z.of_nat last_end.

Definition truncate_under (text : str) (max_chars : Z) : str :=
  if max_chars <=? 0 then text
  else if len text <=? max_chars then text
  else
    let trimmed := firstn (Z.to_nat (max_chars - 1)) text in
    let last_end :=
      fold_left (fun _ m => snd m) (finditer SENTENCE_END_RE trimmed) O in
    if (0 <? last_end)%nat && beyond_60_percent last_end max_chars
    then strip (firstn last_end trimmed)
    else strip trimmed.

(** [MD_LINK_RE]: [\[([^\]]+)\]\((https?://[^)\s]+)\)]. Group 2 is made of
    the pieces 4 to 12. *)
Definition MD_LINK_RE : list atom :=
  [ chr 91; plus (fun c => negb (c =? 93)%N); chr 93; chr 40;
    chr 104; chr 116; chr 116; chr 112; Atom (N.eqb 115) 0 (Some 1%nat);
    chr 58; chr 47; chr 47;
    plus (fun c => negb (c =? 41)%N && negb (is_space c)); chr 41 ].

Definition md_link_url (ps : list str) : str := concat (firstn 9 (skipn 4 ps)).

Definition is_emph (c : char) : bool := ((c =? 42) || (c =? 95))%N.

(** [[*_]{1,3}([^*_`]+)[*_]{1,3}] *)
Definition EMPHASIS_RE : list atom :=
  [ Atom is_emph 1 (Some 3%nat);
    plus (fun c => negb (is_emph c) && negb (c =? 96)%N);
    Atom is_emph 1 (Some 3%nat) ].

(** [`([^`]+)`] *)
Definition CODE_RE : list atom :=
  [ chr 96; plus (fun c => negb (c =? 96)%N); chr 96 ].

(** [\n{3,}] *)
Definition BLANK_LINES_RE : list atom := [ Atom (N.eqb NL) 3 None ].

(** [\n\n+] *)
Definition PARAGRAPH_RE : list atom := [ chr NL; plus (N.eqb NL) ].

Definition group1 (ps : list str) : str := nth 1 ps [].

Definition sanitize_plain (text : str) : str :=
  let text := re_sub MD_LINK_RE md_link_url text in
  let text := re_sub EMPHASIS_RE group1 text in
  let text := re_sub CODE_RE group1 text in
  strip (re_sub BLANK_LINES_RE (fun _ => [NL; NL]) text).

(** ** Documents *)

(** The dictionaries built by [search_articles] and
    [search_companies_web]: five keys that are always present (a value
    may be [None]) and the two tags the pipeline adds. *)
Record article : Type := Article {
  title : option str;
  url : option str;
  description : option str;
  published_at : option str;
  source : option str;
  company_related : option str;
  relevance_score : option str
}.

#[global] Instance article_eq_dec : EqDecision article.
Proof. solve_decision. Defined.

(** [[a.get("url") for a in docs if a.get("url")]] *)
Definition urls_of (docs : list article) : list str :=
  omap (fun a => if truthy (url a) then url a else None) docs.

(** ** Rendering under the character budget *)

Definition sources_text (urls : list str) : str :=
  [NL; NL] ++ lit "Sources:" ++ [NL] ++ join [NL] urls.

Definition sources_markdown (urls : list str) : str :=
  [NL; NL] ++ lit "**Sources:**" ++ [NL] ++
  join [NL] (map (fun u => lit "- " ++ u) urls).

Definition sources_html (urls : list str) : str :=
  lit "<h3>Sources</h3><ul>" ++
  concat (map (fun u => lit "<li><a href=" ++ [DQ] ++ u ++ [DQ] ++ lit ">" ++ u
                         ++ lit "</a></li>") urls) ++
  lit "</ul>".

Definition html_paragraphs (body : str) : str :=
  let parts := filter (fun p => p <> []) (map strip (re_split PARAGRAPH_RE (strip body))) in
  concat (map (fun p => lit "<p>" ++ replace [NL] (lit "<br/>") p ++ lit "</p>") parts).

(** The shared tail of the three formats: fit [body] next to the block
    [sources_section]; [finish] is what the format does to the body just
    before the block is appended. *)
Definition with_sources (body sources_section : str) (max_chars : Z)
    (links_in_char_limit : bool) (finish : str -> str) : str :=
  if links_in_char_limit then
    let available_for_body := max_chars - len sources_section in
    let body :=
      if available_for_body <? len body
      then truncate_under body available_for_body
      else body in
    finish body ++ sources_section
  else
    finish (truncate_under body max_chars) ++ sources_section.

Definition render_output (body : str) (used_sources : list article) (fmt : str)
    (max_chars : Z) (include_sources links_in_char_limit : bool) : str :=
  let urls := urls_of used_sources in
  let has_sources := include_sources && negb (bool_decide (urls = [])) in
  if str_eqb fmt (lit "text") then
    let body := sanitize_plain body in
    let body := fold_left (fun b u => replace u [] b) urls body in
    if has_sources
    then with_sources body (sources_text urls) max_chars links_in_char_limit id
    else truncate_under body max_chars
  else if str_eqb fmt (lit "markdown") then
    if has_sources
    then with_sources body (sources_markdown urls) max_chars links_in_char_limit rstrip
    else truncate_under body max_chars
  else if str_eqb fmt (lit "html") then
    let html := html_paragraphs body in
    if has_sources
    then with_sources html (sources_html urls) max_chars links_in_char_limit id
    else truncate_under html max_chars
  else truncate_under (strip body) max_chars.

(** The block of source links [render_output] appends for a format, and
    the body it is appended to when nothing is cut: names for the pieces
    of [render_output], used to state its properties. *)
Definition sources_section (fmt : str) (urls : list str) : str :=
  if str_eqb fmt (lit "text") then sources_text urls
  else if str_eqb fmt (lit "markdown") then sources_markdown urls
  else if str_eqb fmt (lit "html") then sources_html urls
  else [].

Definition prepared_body (fmt : str) (body : str) (urls : list str) : str :=
  if str_eqb fmt (lit "text")
  then fold_left (fun b u => replace u [] b) urls (sanitize_plain body)
  else if str_eqb fmt (lit "markdown") then rstrip body
  else if str_eqb fmt (lit "html") then html_paragraphs body
  else strip body.

Definition known_format (fmt : str) : bool :=
  str_eqb fmt (lit "text") || str_eqb fmt (lit "markdown") || str_eqb fmt (lit "html").

(** ** The truncation rule in the words of the design document *)

(** The position just after the last sentence-ending mark of [s], and 0
    when [s] has none. *)
Fixpoint last_mark_end (s : str) : nat :=
  match s with
  | [] => O
  | c :: s' =>
      match last_mark_end s' with
      | S e => S (S e)
      | O => if is_sentence_end c then 1%nat else O
      end
  end.

(** "If text already fits, return unchanged; otherwise cut at budget-1
    characters, then scan for the last sentence-ending punctuation mark
    within that prefix; if found and its position is beyond 60% of the
    budget, cut there; otherwise cut at the raw character boundary." *)
Definition truncate_as_documented (text : str) (max_chars : Z) : str :=
  if len text <=? max_chars then text
  else
    let prefix := firstn (Z.to_nat (max_chars - 1)) text in
    let e := last_mark_end prefix in
    if (0 <? e)%nat && (3 * max_chars <? 5 * Z.of_nat e)
    then firstn e prefix
    else prefix.

(** ** Exceptions *)

Inductive exception : Type :=
  | RuntimeError (msg : str)
  | AttributeError
  | ValueError
  | IndexError
  | TypeError
  | KeyError
  | ExternalError.

Inductive exc (A : Type) : Type :=
  | Ok (a : A)
  | Raise (e : exception).
Arguments Ok {A} a.
Arguments Raise {A} e.

#[global] Instance exc_ret : MRet exc := fun A a => Ok a.
#[global] Instance exc_bind : MBind exc := fun A B k m =>
  match m with
  | Ok a => k a
  | Raise e => Raise e
  end.

(** [try: body except Exception: handler], for a handler that does not
    raise. *)
Definition try_except {A} (body : exc A) (handler : exception -> A) : A :=
  match body with
  | Ok a => a
  | Raise e => handler e
  end.

(** A list comprehension whose element expression may raise. *)
Fixpoint map_exc {A B} (f : A -> exc B) (l : list A) : exc (list B) :=
  match l with
  | [] => Ok []
  | a :: l' => b ← f a; bs ← map_exc f l'; Ok (b :: bs)
  end.

(** [a.get("title", "")[:60]], as the log statements have it.  The key
    is always there, so the default is never used, and a title that is
    [None] cannot be sliced. *)
Definition log_title (a : article) : exc str :=
  match title a with
  | Some t => Ok (firstn 60 t)
  | None => Raise TypeError
  end.

(** ** Content types *)

Definition VALID_TYPES : gset str := {[ lit "news"; lit "blog"; lit "pr" ]}.

Section ContentTypes.
(** [str.lower] *)
Variable str_lower : str -> str.

Definition normalise_types (types : option (list (option str))) : list str :=
  match types with
  | None | Some [] => [lit "news"]
  | Some types =>
      let out :=
        fold_left
          (fun out t =>
             let t := str_lower (strip (default [] t)) in
             let t := if str_eqb t (lit "blogs") then lit "blog" else t in
             if bool_decide (t ∈ VALID_TYPES) then out ++ [t] else out)
          types [] in
      match out with
      | [] => [lit "news"]
      | _ => out
      end
  end.

(** The entry a content type stands for: trimmed, lowercased, the
    plural collapsed. *)
Definition canonical_type (t : option str) : str :=
  let t := str_lower (strip (default [] t)) in
  if str_eqb t (lit "blogs") then lit "blog" else t.
End ContentTypes.

(** ** URL deduplication *)

(** [unique_by_url]: the loop, with its two accumulators. *)
Fixpoint unique_by_url_loop (items : list article) (seen : gset str)
    (deduped : list article) : list article :=
  match items with
  | [] => deduped
  | it :: rest =>
      match url it with
      | Some u =>
          if negb (truthy (Some u)) || bool_decide (u ∈ seen)
          then unique_by_url_loop rest seen deduped
          else unique_by_url_loop rest ({[u]} ∪ seen) (deduped ++ [it])
      | None => unique_by_url_loop rest seen deduped
      end
  end.

Definition unique_by_url (items : list article) : list article :=
  unique_by_url_loop items ∅ [].

(** An item returned by the web-search client. *)
Record web_result : Type := WebResult {
  href : option str;
  w_title : option str;
  w_body : option str
}.

Section Aggregator.
Variable str_lower : str -> str.
(** [urlparse(u).netloc] and [urlparse(u).path], and whether
    [urlparse(u)] returns at all: it raises [ValueError] on some
    strings, a host with an unmatched bracket for one. *)
Variable netloc : str -> str.
Variable path : str -> str.
Variable url_ok : str -> bool.

(** [s.rstrip("/")] *)
Definition rstrip_slash (s : str) : str :=
  rev (drop (run_len (N.eqb 47) (rev s)) (rev s)).

(** [norm(u)], where [urlparse(u)] returns. *)
Definition norm (u : str) : str :=
  let host := str_lower (netloc u) in
  let host := if starts_with (lit "www.") host then drop 4 host else host in
  host ++ rstrip_slash (path u).

(** The loop of [fetch_block] over the items the client returned:
    [seen] is the set shared by the whole search, [block] the list
    being built; the loop stops once [block] holds [target] items.  A
    URL that [urlparse] rejects ends the loop with its [ValueError];
    the keys added to [seen] until then stay in it. *)
Fixpoint fetch_block_loop (now_iso : str) (target : Z) (rs : list web_result)
    (seen : gset str) (block : list article) : exc (list article) * gset str :=
  match rs with
  | [] => (Ok block, seen)
  | r :: rest =>
      match href r with
      | Some u =>
          if negb (truthy (Some u)) then fetch_block_loop now_iso target rest seen block
          else if negb (url_ok u) then (Raise ValueError, seen)
          else
            let key := norm u in
            if bool_decide (key ∈ seen) then fetch_block_loop now_iso target rest seen block
            else
              let seen := {[key]} ∪ seen in
              let block :=
                block ++ [Article (w_title r) (Some u) (w_body r) (Some now_iso)
                                  (Some (netloc u)) None None] in
              if target <=? len block then (Ok block, seen)
              else fetch_block_loop now_iso target rest seen block
      | None => fetch_block_loop now_iso target rest seen block
      end
  end.

(** A document of the aggregator seen again as a search result. *)
Definition as_web_result (a : article) : web_result :=
  WebResult (url a) (title a) (description a).

(** Names for the pieces of the loop: the deduplication key of a
    result, the document made of it, and the number of documents a call
    may still add to [block]. *)
Definition result_key (r : web_result) : option str :=
  if truthy (href r) then norm <$> href r else None.

Definition to_article (now_iso : str) (r : web_result) : article :=
  Article (w_title r) (href r) (w_body r) (Some now_iso) (netloc <$> href r) None None.

Definition room (target : Z) (block : list article) : nat :=
  Z.to_nat (Z.max 1 (target - len block)).
End Aggregator.

(** ** Deduplication in the words of the design document *)

(** Keep the first item of every key, ignoring the items without a key
    and the keys already in [seen]. *)
Fixpoint keep_first {A} (key : A -> option str) (seen : gset str) (l : list A) : list A :=
  match l with
  | [] => []
  | x :: l' =>
      match key x with
      | Some k =>
          if bool_decide (k ∈ seen) then keep_first key seen l'
          else x :: keep_first key ({[k]} ∪ seen) l'
      | None => keep_first key seen l'
      end
  end.

(** Every item has a key, new with respect to [seen] and to the items
    before it. *)
Fixpoint fresh_keys {A} (key : A -> option str) (seen : gset str) (l : list A) : Prop :=
  match l with
  | [] => True
  | x :: l' =>
      match key x with
      | Some k => (k ∉ seen) /\ fresh_keys key ({[k]} ∪ seen) l'
      | None => False
      end
  end.

(** The identity of a document: its URL when it has a non-empty one. *)
Definition url_key (a : article) : option str :=
  if truthy (url a) then url a else None.

(** ** Decoded JSON *)

(** The values [json.loads] returns.  The fields of an object are in the
    order of the dictionary, with distinct keys; a float keeps its
    literal. *)
#[warnings="-register-all"]
Inductive json : Type :=
  | JNull
  | JBool (b : bool)
  | JInt (n : Z)
  | JFloat (literal : str)
  | JStr (s : str)
  | JArr (items : list json)
  | JObj (fields : list (str * json)).

Fixpoint assoc {V} (k : str) (fields : list (str * V)) : option V :=
  match fields with
  | [] => None
  | (k', v) :: rest => if str_eqb k k' then Some v else assoc k rest
  end.

(** [data.get(key)]: only a dictionary has the method. *)
Definition py_get (data : json) (key : str) : exc (option json) :=
  match data with
  | JObj fields => Ok (assoc key fields)
  | _ => Raise AttributeError
  end.

(** [text.find(c)] and [text.rfind(c)] for a one-character [c]: -1 when
    absent. *)
Fixpoint find_char (c : char) (s : str) : Z :=
  match s with
  | [] => -1
  | a :: s' =>
      if (a =? c)%N then 0
      else match find_char c s' with
           | -1 => -1
           | i => i + 1
           end
  end.

Definition rfind_char (c : char) (s : str) : Z :=
  match find_char c (rev s) with
  | -1 => -1
  | i => len s - 1 - i
  end.

Arguments find_char c%_N s.
Arguments rfind_char c%_N s.

(** [s[a:b]] for [0 <= a]. *)
Definition slice {A} (s : list A) (a b : Z) : list A :=
  firstn (Z.to_nat (b - a)) (skipn (Z.to_nat a) s).

(** [l[:k]], where a negative [k] counts from the end. *)
Definition slice_to {A} (l : list A) (k : Z) : list A :=
  if 0 <=? k then firstn (Z.to_nat k) l else firstn (Z.to_nat (len l + k)) l.

(** [l[i]] *)
Definition py_index {A} (l : list A) (i : Z) : exc A :=
  let j := if 0 <=? i then i else len l + i in
  if j <? 0 then Raise IndexError
  else match nth_error l (Z.to_nat j) with
       | Some x => Ok x
       | None => Raise IndexError
       end.

Section Selector.
(** [json.loads]: [None] when it raises. *)
Variable json_loads : str -> option json.
(** [str.isdigit] and [int] on a string: [None] when it raises. *)
Variable str_isdigit : str -> bool.
Variable py_int : str -> option Z.

Definition extract_json (text : str) : json :=
  match json_loads text with
  | Some v => v
  | None =>
      let start := find_char 123 text in
      let end_ := rfind_char 125 text in
      if negb (start =? -1) && negb (end_ =? -1) && (start <? end_) then
        match json_loads (slice text start (end_ + 1)) with
        | Some v => v
        | None => JObj []
        end
      else JObj []
  end.

(** [isinstance(i, int) or (isinstance(i, str) and str(i).isdigit())];
    a JSON boolean is a Python [bool], which is an [int]. *)
Definition index_like (i : json) : bool :=
  match i with
  | JInt _ | JBool _ => true
  | JStr s => str_isdigit s
  | _ => false
  end.

(** [int(i)] on the values [index_like] lets through. *)
Definition to_int (i : json) : exc Z :=
  match i with
  | JInt n => Ok n
  | JBool b => Ok (if b then 1 else 0)
  | JStr s => match py_int s with
              | Some n => Ok n
              | None => Raise ValueError
              end
  | _ => Raise ValueError
  end.

(** The indices the reply names, in range for a pool of [n]
    candidates. *)
Definition picked_indices (n : nat) (raw : str) : exc (list Z) :=
  let data := extract_json raw in
  top ← py_get data (lit "top_indices");
  let idxs := match top with
              | Some (JArr items) => items
              | _ => []
              end in
  idxs ← map_exc to_int (filter (fun i => index_like i = true) idxs);
  Ok (filter (fun i => 0 <= i < Z.of_nat n) idxs).

(** Pad with the lowest indices not picked, or cut to [top_k]. *)
Definition repair_indices (n : nat) (top_k : Z) (idxs : list Z) : list Z :=
  if len idxs <? top_k then
    let pad :=
      firstn (Z.to_nat (top_k - len idxs))
        (filter (fun i => i ∉ idxs) (map Z.of_nat (seq 0 n))) in
    idxs ++ pad
  else slice_to idxs top_k.

Definition rank_indices (n : nat) (top_k : Z) (raw : str) : exc (list Z) :=
  idxs ← picked_indices n raw;
  Ok (repair_indices n top_k idxs).

(** The first two documents of a company join the pool when their URL
    is new to it, tagged with the company. *)
Fixpoint add_company_articles (company_name : str) (comp_arts all_articles : list article)
    : list article :=
  match comp_arts with
  | [] => all_articles
  | art :: rest =>
      if truthy (url art) && negb (bool_decide (url art ∈ map url all_articles))
      then add_company_articles company_name rest
             (all_articles ++
              [Article (title art) (url art) (description art) (published_at art)
                       (source art) (Some company_name) (relevance_score art)])
      else add_company_articles company_name rest all_articles
  end.

Definition candidate_pool (articles : list article)
    (company_articles : list (str * list article)) : list article :=
  fold_left
    (fun all_articles entry =>
       add_company_articles (fst entry) (firstn 2 (snd entry)) all_articles)
    company_articles articles.

(** [node_rank], from the reply [raw] of the chat backend to the
    selected documents.  The call of the backend itself is not part of
    it: when it fails, the node fails with the backend's
    [RuntimeError].  The last statement logs the titles of the
    selected documents. *)
Definition node_rank (articles : list article)
    (company_articles : list (str * list article)) (top_k : Z) (raw : str)
    : exc (list article) :=
  match articles with
  | [] => Raise (RuntimeError (lit "No articles found for the given filters."))
  | _ =>
      let all_articles := candidate_pool articles company_articles in
      idxs ← rank_indices (length all_articles) top_k raw;
      selected ← map_exc (py_index all_articles) idxs;
      _ ← map_exc log_title selected;
      Ok selected
  end.
End Selector.

(** Names for the pieces of [repair_indices]: the indices of a pool of
    [n] candidates, and the padding added to a short selection. *)
Definition candidates (n : nat) : list Z := map Z.of_nat (seq 0 n).

Definition padding (n : nat) (top_k : Z) (idxs : list Z) : list Z :=
  if len idxs <? top_k
  then firstn (Z.to_nat (top_k - len idxs)) (filter (fun i => i ∉ idxs) (candidates n))
  else [].

(** ** Pipeline state *)

(** The entries of [GraphState] that the drafting, verifying and revising
    nodes read or write. *)
Record GraphState : Type := State {
  output_format : str;
  max_chars : Z;
  include_links : bool;
  links_in_char_limit : bool;
  selected : list article;
  used_sources : list article;
  post : str;
  critique : option str;
  iteration : Z;
  max_iterations : Z
}.

Definition USED_SOURCES_MARKER : str := lit "USED_SOURCES:".

(** [l.index(x)] *)
Fixpoint list_index {A} `{EqDecision A} (x : A) (l : list A) : option nat :=
  match l with
  | [] => None
  | y :: l' => if decide (x = y) then Some O else S <$> list_index x l'
  end.

(** [[selected.index(s) for s in used_sources if s in selected]] *)
Definition previous_indices (selected used_sources : list article) : list Z :=
  omap (fun s => Z.of_nat <$> list_index s selected) used_sources.

Section UsedSources.
(** [\d] on a character, and [int] on a run of such characters. *)
Variable is_decimal : char -> bool.
Variable py_int : str -> option Z.

Definition int_of (n : str) : exc Z :=
  match py_int n with
  | Some i => Ok i
  | None => Raise ValueError
  end.

(** [[int(n) - 1 for n in numbers if 0 <= int(n) - 1 < len(selected)]],
    with [numbers = re.findall(r'\d+', sources_str)]. *)
Definition marker_indices (n_selected : nat) (sources_str : str) : exc (list Z) :=
  let numbers := findall [plus is_decimal] sources_str in
  ints ← map_exc int_of numbers;
  Ok (filter (fun i => 0 <= i < Z.of_nat n_selected) (map (fun i => i - 1) ints)).

(** The text before the marker and the indices read after it;
    [fallback] is what the node uses when the marker is missing or
    cannot be read. *)
Definition parse_used_sources (fallback : list Z) (n_selected : nat) (response : str)
    : str * list Z :=
  if contains USED_SOURCES_MARKER response then
    let parts := split USED_SOURCES_MARKER response in
    let body := strip (nth 0 parts []) in
    let used_indices :=
      try_except (marker_indices n_selected (strip (nth 1 parts [])))
                 (fun _ => fallback) in
    (body, used_indices)
  else (response, fallback).

(** [[selected[i] for i in used_indices] if used_indices else default] *)
Definition pick_sources (selected : list article) (used_indices : list Z)
    (default : list article) : exc (list article) :=
  match used_indices with
  | [] => Ok default
  | _ => map_exc (py_index selected) used_indices
  end.

(** [node_draft], from the reply of the chat backend on.  The prompt
    is built before the backend is called, and it looks the format up
    in [format_constraints], a dictionary with the three keys ["text"],
    ["markdown"] and ["html"]: any other format is a [KeyError], and
    the backend is never asked. *)
Definition node_draft (st : GraphState) (reply : str) : exc GraphState :=
  if negb (known_format (output_format st)) then Raise KeyError
  else
    let response := strip reply in
    let sel := selected st in
    let '(body, used_indices) :=
      parse_used_sources (candidates (length sel)) (length sel) response in
    used ← pick_sources sel used_indices sel;
    let formatted := render_output body used (output_format st) (max_chars st)
                       (include_links st) (links_in_char_limit st) in
    Ok (State (output_format st) (max_chars st) (include_links st)
              (links_in_char_limit st) sel used formatted (critique st)
              (iteration st) (max_iterations st)).

Definition node_revise (st : GraphState) (reply : str) : exc GraphState :=
  let response := strip reply in
  let sel := selected st in
  let '(improved, used_indices) :=
    parse_used_sources (previous_indices sel (used_sources st)) (length sel) response in
  new_used_sources ← pick_sources sel used_indices (used_sources st);
  let formatted := render_output improved new_used_sources (output_format st)
                     (max_chars st) (include_links st) (links_in_char_limit st) in
  Ok (State (output_format st) (max_chars st) (include_links st)
            (links_in_char_limit st) sel new_used_sources formatted (critique st)
            (iteration st + 1) (max_iterations st)).

(** The in-range indices the marker of a response yields: none when
    the marker is absent or cannot be read. *)
Definition marker_yield (n_selected : nat) (response : str) : list Z :=
  if contains USED_SOURCES_MARKER response then
    match marker_indices n_selected
            (strip (nth 1 (split USED_SOURCES_MARKER response) [])) with
    | Ok l => l
    | Raise _ => []
    end
  else [].
End UsedSources.

(** *** The marker in the words of the design document *)

(** What the backend writes after the marker: the text between the
    first marker and the next one, or the end. *)
Definition marker_text (response : str) : str :=
  strip (nth 1 (split USED_SOURCES_MARKER response) []).

(** The article numbers written in a text: its runs of digits, read as
    integers.  It raises where [int] does. *)
Definition numbers_in (is_decimal : char -> bool) (py_int : str -> option Z) (text : str)
    : exc (list Z) :=
  map_exc (int_of py_int) (findall [plus is_decimal] text).

(** The documents that article numbers name.  The prompt numbers the
    selected documents from 1; a number that names no document is
    ignored. *)
Definition numbered_documents (sel : list article) (numbers : list Z) : list article :=
  omap (fun k => if (1 <=? k) && (k <=? len sel)
                 then nth_error sel (Z.to_nat (k - 1))
                 else None) numbers.

(** The documents the marker of a response names: [None] when the
    marker is absent or cannot be read. *)
Definition marker_documents (is_decimal : char -> bool) (py_int : str -> option Z)
    (sel : list article) (response : str) : option (list article) :=
  if contains USED_SOURCES_MARKER response then
    match numbers_in is_decimal py_int (marker_text response) with
    | Ok numbers => Some (numbered_documents sel numbers)
    | Raise _ => None
    end
  else None.

(** The previous used sources that are still among the selected
    documents; all of them when none is. *)
Definition previous_sources (sel used : list article) : list article :=
  match filter (fun s => s ∈ sel) used with
  | [] => used
  | kept => kept
  end.

(** ** Verification and the revision loop *)

Inductive route : Type := revise | finish.

Inductive node : Type := verify_node | revise_node.

#[global] Instance node_eq_dec : EqDecision node.
Proof. solve_decision. Defined.

Definition should_continue (st : GraphState) : route :=
  if truthy (critique st) && (iteration st <? max_iterations st) then revise else finish.

Section Orchestrator.
Variable json_loads : str -> option json.
Variable str_lower : str -> str.
Variable is_decimal : char -> bool.
Variable py_int : str -> option Z.
(** The reply of the chat backend to its [n]-th call of the run, or
    the error it raises. *)
Variable chat : nat -> exc str.

(** [node_verify]: the critique left in the state.  [str(...)] of a
    verdict that is not a string is never ["approve"]. *)
Definition node_verify (st : GraphState) (reply : str) : exc GraphState :=
  let data := extract_json json_loads reply in
  v ← py_get data (lit "verdict");
  let approve :=
    match v with
    | Some (JStr s) => str_eqb (str_lower (strip s)) (lit "approve")
    | _ => false
    end in
  c ← py_get data (lit "critique");
  let critique := match c with
                  | Some (JStr s) => Some s
                  | _ => None
                  end in
  let verdict :=
    if approve then None
    else if truthy critique then critique
    else Some (lit "Content needs revision for accuracy and compliance.") in
  Ok (State (output_format st) (max_chars st) (include_links st)
            (links_in_char_limit st) (selected st) (used_sources st) (post st)
            verdict (iteration st) (max_iterations st)).

(** The cycle of the graph from the node [verify]: the nodes run, in
    order, and the state the run finishes with, the exception that ends
    it, or [None] if [fuel] rounds do not reach the end.  [calls] counts
    the calls of the chat backend. *)
Fixpoint verify_loop (fuel : nat) (calls : nat) (st : GraphState)
    : list node * option (exc GraphState) :=
  match fuel with
  | O => ([], None)
  | S fuel' =>
      match (reply ← chat calls; node_verify st reply) with
      | Raise e => ([verify_node], Some (Raise e))
      | Ok st1 =>
          match should_continue st1 with
          | finish => ([verify_node], Some (Ok st1))
          | revise =>
              match (reply ← chat (S calls); node_revise is_decimal py_int st1 reply) with
              | Raise e => ([verify_node; revise_node], Some (Raise e))
              | Ok st2 =>
                  let '(nodes, result) := verify_loop fuel' (S (S calls)) st2 in
                  (verify_node :: revise_node :: nodes, result)
              end
          end
      end
  end.

Definition count_node (n : node) (nodes : list node) : nat :=
  length (filter (fun m => m = n) nodes).
End Orchestrator.

(** The revisions a state still allows. *)
Definition revisions_left (st : GraphState) : nat :=
  Z.to_nat (max_iterations st - iteration st).

(** ** The provider aggregator *)

(** [any(buckets)] *)
Definition any_nonempty {A} (buckets : list (list A)) : bool :=
  existsb (fun b => negb (bool_decide (b = []))) buckets.

(** One round of the round-robin merge: the [i]-th item of every bucket
    that has one, until [max_results] items are gathered. *)
Fixpoint merge_round (i : nat) (buckets : list (list article)) (results : list article)
    (advanced : bool) (max_results : Z) : list article * bool :=
  match buckets with
  | [] => (results, advanced)
  | b :: rest =>
      match nth_error b i with
      | Some x =>
          let results := results ++ [x] in
          if max_results <=? len results then (results, true)
          else merge_round i rest results true max_results
      | None => merge_round i rest results advanced max_results
      end
  end.

(** The rounds of the merge, from round [i].  A round past the longest
    bucket adds nothing and ends the loop, so [fuel] rounds are all of
    them when [fuel] exceeds the length of the longest bucket. *)
Fixpoint merge_rounds (fuel i : nat) (buckets : list (list article))
    (results : list article) (max_results : Z) : list article :=
  match fuel with
  | O => results
  | S fuel' =>
      if (len results <? max_results) && any_nonempty buckets then
        let '(results, advanced) := merge_round i buckets results false max_results in
        if advanced then merge_rounds fuel' (S i) buckets results max_results
        else results
      else results
  end.

Definition round_robin (buckets : list (list article)) (max_results : Z) : list article :=
  merge_rounds (S (list_max (map (@length article) buckets))) 0 buckets [] max_results.

Section WebSearch.
Variable str_lower : str -> str.
Variable netloc : str -> str.
Variable path : str -> str.
Variable url_ok : str -> bool.
Variable now_iso : str.
(** [DDGS()]: the exception it raises, if any. *)
Variable ddgs_new : option exception.
(** [ddgs.text(query, region=.., safesearch="off", max_results=..,
    backend=..)]: the outcome of the [n]-th call of the search. *)
Variable ddgs_text : nat -> str -> str -> Z -> str -> exc (list web_result).

(** Every attempt fails: it raises or returns nothing. *)
Definition every_attempt_fails : Prop :=
  forall n query reg target backend,
    match ddgs_text n query reg target backend with
    | Ok (_ :: _) => False
    | _ => True
    end.

(** The search in progress: the keys seen and the calls made. *)
Definition search_state : Type := gset str * nat.

Definition fetch_block (query reg backend : str) (want : Z) (s : search_state)
    : exc (list article) * search_state :=
  let target := Z.max (want * 3) 15 in
  match ddgs_text (snd s) query reg target backend with
  | Ok rs =>
      let '(block, seen) :=
        fetch_block_loop str_lower netloc path url_ok now_iso target rs (fst s) [] in
      (block, (seen, S (snd s)))
  | Raise e => (Raise e, (fst s, S (snd s)))
  end.

(** The retry loop of one backend.  [left] is the number of attempts
    that [attempt <= retries] still allows, so the loop never stops for
    lack of it. *)
Fixpoint retry_backend (left : nat) (attempt retries max_results : Z)
    (query reg backend : str) (got : list article) (s : search_state)
    : list article * search_state :=
  match left with
  | O => (got, s)
  | S left' =>
      if (attempt <=? retries) && (len got <? max_results * 2) then
        match fetch_block query reg backend max_results s with
        | (Ok ((_ :: _) as chunk), s') => (got ++ chunk, s')
        | (_, s') =>
            retry_backend left' (attempt + 1) retries max_results query reg backend got s'
        end
      else (got, s)
  end.

Fixpoint search_region (backends : list str) (retries max_results : Z)
    (query reg : str) (got : list article) (s : search_state)
    : list article * search_state :=
  match backends with
  | [] => (got, s)
  | backend :: rest =>
      let '(got, s) :=
        retry_backend (Z.to_nat (retries + 1)) 0 retries max_results query reg backend got s in
      search_region rest retries max_results query reg got s
  end.

Fixpoint search_regions (regions backends : list str) (retries max_results : Z)
    (query : str) (buckets : list (list article)) (s : search_state)
    : list (list article) :=
  match regions with
  | [] => buckets
  | reg :: rest =>
      let '(got_for_region, s) := search_region backends retries max_results query reg [] s in
      search_regions rest backends retries max_results query (buckets ++ [got_for_region]) s
  end.

(** [search_companies_web]; [None] for [backends] is the default. *)
Definition search_companies_web (terms : list str) (max_results : Z) (region : str)
    (global_mix : bool) (retries : Z) (backends : option (list str))
    : exc (list article) :=
  let backends := default [lit "api"; lit "html"; lit "lite"] backends in
  let query := join (lit " ") terms in
  let regions := if global_mix then [lit "wt-wt"] else [region] in
  let results :=
    try_except
      (match ddgs_new with
       | Some e => Raise e
       | None =>
           let buckets := search_regions regions backends retries max_results query [] (∅, O) in
           Ok (round_robin buckets max_results)
       end)
      (fun _ => []) in
  Ok (slice_to results max_results).
End WebSearch.

(** ** The company verifier *)

(** [s.split()]: the words between runs of whitespace. *)
Fixpoint split_ws_from (s : str) (cur : str) : list str :=
  match s with
  | [] => match cur with
          | [] => []
          | _ => [rev cur]
          end
  | c :: s' =>
      if is_space c then
        match cur with
        | [] => split_ws_from s' []
        | _ => rev cur :: split_ws_from s' []
        end
      else split_ws_from s' (c :: cur)
  end.

Definition split_ws (s : str) : list str := split_ws_from s [].

(** [s.count(sub)]: occurrences that do not overlap. *)
Fixpoint count_from (sub s : str) (skip : nat) : Z :=
  match s with
  | [] => 0
  | _ :: s' =>
      match skip with
      | S k => count_from sub s' k
      | O =>
          if starts_with sub s then 1 + count_from sub s' (Nat.pred (length sub))
          else count_from sub s' 0
      end
  end.

Definition count_sub (sub s : str) : Z :=
  match sub with
  | [] => len s + 1
  | _ => count_from sub s 0
  end.

Definition or_empty (o : option str) : str :=
  match o with
  | Some ((_ :: _) as s) => s
  | _ => []
  end.

Section CompanyVerifier.
Variable str_lower : str -> str.
(** [search_companies_web([search_query], max_results=5)] for the
    [i]-th company of the run: its documents, or the exception it
    raises. *)
Variable search : nat -> list str -> Z -> exc (list article).

(** The terms added to a query: the first two of the first three
    search terms that are not the company's name. *)
Definition relevant_terms (terms : list str) (company_name : str) : list str :=
  filter (fun term => str_lower term <> str_lower company_name) (firstn 3 terms).

(** The phrase around the first long word of the topic that the
    description shares. *)
Definition description_phrase (topic description : str) : option str :=
  let topic_words := split_ws (str_lower topic) in
  let description_words := split_ws (str_lower description) in
  match filter (fun word => word ∈ description_words /\ (3 < length word)%nat) topic_words with
  | [] => None
  | word :: _ =>
      match list_index word description_words with
      | Some idx =>
          let start := Z.max 0 (Z.of_nat idx - 1) in
          let end_ := Z.min (len description_words) (Z.of_nat idx + 2) in
          Some (join (lit " ") (slice (split_ws description) start end_))
      | None => None
      end
  end.

Definition company_query (topic : str) (terms : list str) (company_name description : str)
    : str :=
  let parts := [company_name] in
  let parts := match topic with
               | [] => parts
               | _ => parts ++ [topic]
               end in
  let parts := parts ++ firstn 2 (relevant_terms terms company_name) in
  let parts :=
    match description, topic with
    | _ :: _, _ :: _ =>
        match description_phrase topic description with
        | Some phrase => parts ++ [phrase]
        | None => parts
        end
    | _, _ => parts
    end in
  let search_query := join (lit " ") parts in
  if 100 <? len search_query then
    let search_query := company_name ++ lit " " ++ topic in
    match relevant_terms terms company_name with
    | term :: _ => search_query ++ lit " " ++ term
    | [] => search_query
    end
  else search_query.

(** The relevance filter: a document that mentions the company is
    kept, tagged ["medium"] unless it is about the topic or mentions
    the company twice. *)
Definition filter_company_article (topic company_name : str) (a : article)
    : option article :=
  let combined_text :=
    str_lower (or_empty (title a)) ++ lit " " ++ str_lower (or_empty (description a)) in
  let company_mentioned := contains (str_lower company_name) combined_text in
  let topic_related :=
    match topic with
    | [] => false
    | _ => existsb (fun keyword => contains keyword combined_text)
             (filter (fun keyword => (3 < length keyword)%nat) (split_ws (str_lower topic)))
    end in
  if company_mentioned
     && (topic_related || (2 <=? count_sub (str_lower company_name) combined_text))
  then Some a
  else if company_mentioned
  then Some (Article (title a) (url a) (description a) (published_at a) (source a)
                     (company_related a) (Some (lit "medium")))
  else None.

(** The body of the filter loop: the decision of
    [filter_company_article] and, for a document that is kept, the log
    statement that follows, which slices its title. *)
Definition keep_company_article (topic company_name : str) (a : article)
    : exc (option article) :=
  match filter_company_article topic company_name a with
  | Some kept => _ ← log_title kept; Ok (Some kept)
  | None => Ok None
  end.

(** The body of the loop for the [i]-th company, with its [try], which
    covers the search and the filter loop. *)
Definition verify_company (topic : str) (terms : list str) (i : nat)
    (company_name description : str) : list article :=
  let search_query := company_query topic terms company_name description in
  try_except
    (mbind (M := exc)
       (fun articles : list article =>
          mbind (M := exc)
            (fun kept : list (option article) => Ok (omap id kept))
            (map_exc (keep_company_article topic company_name) articles))
       (search i [search_query] 5))
    (fun _ => []).

(** [node_search_companies]: the entry [company_articles] of the
    state, in the order of [company_focus]. *)
Definition node_search_companies (company_focus : list (str * str))
    (enable_company_search : bool) (topic : str) (terms : list str)
    : exc (list (str * list article)) :=
  match company_focus with
  | [] => Ok []
  | _ =>
      if negb enable_company_search then Ok []
      else Ok (imap (fun i entry =>
                       (fst entry, verify_company topic terms i (fst entry) (snd entry)))
                    company_focus)
  end.
End CompanyVerifier.

(** * Further definitions *)

(** A text that does not start with whitespace. *)
Definition starts_clean (s : str) : Prop :=
  match s with
  | c :: _ => is_space c = false
  | [] => True
  end.

(** Three newlines in a row: more than one blank line. *)
Definition BLANK_RUN : str := [NL; NL; NL].

(** The characters markdown syntax is made of, for [sanitize_plain]. *)
Definition is_markup (c : char) : bool :=
  ((c =? 91) || (c =? 42) || (c =? 95) || (c =? 96))%N.

(** Two states of the same run: same configuration, same selection. *)
Definition same_run (st st' : GraphState) : Prop :=
  output_format st' = output_format st /\
  max_chars st' = max_chars st /\
  include_links st' = include_links st /\
  links_in_char_limit st' = links_in_char_limit st /\
  selected st' = selected st /\
  max_iterations st' = max_iterations st.

(** A document of a company search as [node_rank] adds it to the pool:
    tagged with the company. *)
Definition tagged (company_name : str) (art : article) : article :=
  Article (title art) (url art) (description art) (published_at art) (source art)
          (Some company_name) (relevance_score art).

(** The [i]-th item of every bucket that has one, in the order of the
    buckets. *)
Definition column {A} (i : nat) (buckets : list (list A)) : list A :=
  omap (fun b => nth_error b i) buckets.

(** The buckets read column by column. *)
Definition interleave {A} (buckets : list (list A)) : list A :=
  concat (map (fun i => column i buckets) (seq 0 (list_max (map (@length A) buckets)))).

(** The deduplication key of a document of the web search: its
    normalised URL. *)
Definition doc_key (str_lower netloc path : str -> str) (a : article) : option str :=
  if truthy (url a) then norm str_lower netloc path <$> url a else None.

(** The documents gathered so far have distinct keys, all of them in
    the set [seen] of the search. *)
Definition gathered (str_lower netloc path : str -> str) (seen : gset str)
    (docs : list article) : Prop :=
  fresh_keys (doc_key str_lower netloc path) ∅ docs /\
  list_to_set (omap (doc_key str_lower netloc path) docs) ⊆ seen.

(** ** The news provider *)

(** An article as the news API returns it; [er_source] holds the title
    and the URI of the source. *)
Record er_article : Type := ErArticle {
  dateTimePub : option str;
  dateTime : option str;
  er_title : option str;
  er_url : option str;
  er_body : option str;
  er_source : option (option str * option str)
}.

(** [a or b] *)
Definition py_or (a b : option str) : option str := if truthy a then a else b.

(** The body of the loop over the articles of the query: the item made
    of an article, or [None] where the loop continues without one. *)
Definition er_item (art : er_article) : option article :=
  let published_iso := py_or (dateTimePub art) (dateTime art) in
  if negb (truthy published_iso) then None
  else
    let body := firstn 280 (strip (or_empty (er_body art))) in
    let item :=
      Article (er_title art) (er_url art)
              (match body with
               | [] => None
               | _ => Some body
               end)
              published_iso
              (match er_source art with
               | Some (t, u) => py_or t u
               | None => None
               end)
              None None in
    if negb (truthy (url item)) then None else Some item.

(** [a < b] on strings: by code point, a proper prefix first. *)
Fixpoint str_ltb (a b : str) : bool :=
  match a, b with
  | _, [] => false
  | [], _ :: _ => true
  | x :: a', y :: b' => (x <? y)%N || ((x =? y)%N && str_ltb a' b')
  end.

(** [x["published_at"]] of an item of the provider. *)
Definition published (a : article) : str := default [] (published_at a).

(** [items.sort(key=lambda x: x["published_at"], reverse=True)]: the
    sort is stable, so items published at the same time keep their
    order. *)
Fixpoint insert_newest (x : article) (l : list article) : list article :=
  match l with
  | [] => [x]
  | y :: l' =>
      if str_ltb (published x) (published y) then y :: insert_newest x l'
      else x :: l
  end.

Definition sort_newest_first (l : list article) : list article :=
  fold_right insert_newest [] l.

Section Provider.
(** [os.getenv] *)
Variable getenv : str -> option str.
(** [within_range(dt_iso, since_dt, end_dt)] for the dates of the call *)
Variable within_range : str -> bool.

(** [search_articles].  [installed] tells whether the client library
    can be imported; [raw] is what building and running the query
    yields: the articles, or the exception raised on the way. *)
Definition search_articles (installed : bool) (terms : list str) (max_results : Z)
    (raw : exc (list er_article)) : exc (list article) :=
  if negb installed then
    Raise (RuntimeError
             (lit "eventregistry is not installed. Run `pip install eventregistry`."))
  else
    let ER_API_KEY :=
      py_or (py_or (getenv (lit "EVENTREGISTRY_API_KEY")) (getenv (lit "NEWSAPI_KEY")))
            (getenv (lit "NEWS_API_KEY")) in
    if negb (truthy ER_API_KEY) then
      Raise (RuntimeError
               (lit "EVENTREGISTRY_API_KEY (or NEWSAPI_KEY/NEWS_API_KEY) is not set."))
    else
      let terms := map strip (filter (fun t => t <> [] /\ strip t <> []) terms) in
      match terms with
      | [] => Ok []
      | _ =>
          arts ← raw;
          let raw_items := omap er_item arts in
          let items := filter (fun x => within_range (published x) = true) raw_items in
          let items := unique_by_url items in
          let items := sort_newest_first items in
          Ok (slice_to items max_results)
      end.
End Provider.

(** No document is older than one that comes after it. *)
Definition newest_first (docs : list article) : Prop :=
  StronglySorted (fun a b => str_ltb (published a) (published b) = false) docs.

(** ** Sample data for the worked examples *)

Definition demo_source (u : string) : article :=
  Article None (Some (lit u)) None None None None None.

Definition quoted (s : string) : str := [DQ] ++ lit s ++ [DQ].

(** Three replies of the chat backend, with what [json.loads] makes of
    each: an object that names index 0 twice, a bare array, and text that
    is not JSON. *)
Definition reply_repeated : str := lit "{" ++ quoted "top_indices" ++ lit ": [0, 0]}".
Definition reply_array : str := lit "[0]".
Definition reply_prose : str := lit "I cannot rank these.".

Definition sample_loads (t : str) : option json :=
  if str_eqb t reply_repeated
  then Some (JObj [(lit "top_indices", JArr [JInt 0; JInt 0])])
  else if str_eqb t reply_array then Some (JArr [JInt 0])
  else None.

Definition ascii_isdigit (s : str) : bool :=
  negb (bool_decide (s = [])) && forallb (fun c => (48 <=? c) && (c <=? 57))%N s.

Definition ascii_int (s : str) : option Z :=
  if ascii_isdigit s
  then Some (fold_left (fun n c => 10 * n + (Z.of_N c - 48)) s 0)
  else None.

Definition three_articles : list article :=
  [demo_source "http://a/1"; demo_source "http://a/2"; demo_source "http://a/3"].

Definition ascii_decimal (c : char) : bool := ((48 <=? c) && (c <=? 57))%N.

Definition ascii_lower_char (c : char) : char :=
  if ((65 <=? c) && (c <=? 90))%N then (c + 32)%N else c.

Definition ascii_lower (s : str) : str := map ascii_lower_char s.

(** A drafted state: three selected documents, the first one used, a cap
    of two revisions; and a chat backend that always answers in prose. *)
Definition drafted_state : GraphState :=
  State (lit "text") 200 true true three_articles [demo_source "http://a/1"]
        (lit "Draft.") None 0 2.

Definition prose_chat (n : nat) : exc str := Ok reply_prose.

(** Two companies; the search for the first one raises, the search for
    the second one finds a document that names it. *)
Definition two_companies : list (str * str) :=
  [(lit "Acme", lit "Maker of anvils"); (lit "Beta", lit "Cloud gaming studio")].

Definition beta_news : article :=
  Article (Some (lit "Beta ships a game")) (Some (lit "http://b/1")) None None None None None.

Definition flaky_search (i : nat) (terms : list str) (max_results : Z) : exc (list article) :=
  match i with
  | O => Raise ExternalError
  | _ => Ok [beta_news]
  end.

(** A state before drafting, with links switched off and a budget of
    twelve characters; and a reply of the chat backend that is longer. *)
Definition plain_state : GraphState :=
  State (lit "text") 12 false true three_articles [] [] None 0 1.

Definition long_reply : str := lit "A first sentence. Then a second one.".

(** The object of [reply_repeated] after a few words of prose. *)
Definition reply_wrapped : str := lit "Here you go: " ++ reply_repeated.

(** Documents with a title. *)
Definition titled (t u : string) : article :=
  Article (Some (lit t)) (Some (lit u)) None None None None None.

Definition titled_articles : list article :=
  [titled "One" "http://a/1"; titled "Two" "http://a/2"; titled "Three" "http://a/3"].


(** A search whose only document names the company, in its description,
    but has no title. *)
Definition untitled_news : article :=
  Article None (Some (lit "http://b/2")) (Some (lit "Beta buys Beta Labs")) None None
          None None.

Definition untitled_search (i : nat) (terms : list str) (max_results : Z)
    : exc (list article) :=
  Ok [untitled_news].

(** * Properties *)

(** ** Sanity checks of the string model *)

Example truncate_demo :
  truncate_under (lit "Hello world. This is a long sentence") 19 = lit "Hello world."
  /\ truncate_under (lit "Hello world. This is a long sentence") 20 = lit "Hello world. This i"
  /\ truncate_under (lit "ab cdef") 4 = lit "ab"
  /\ findall [plus is_sentence_end] (lit "a.!b?") = [lit ".!"; lit "?"]
  /\ split (lit "::") (lit "a::b:::c") = [lit "a"; lit "b"; lit ":c"]
  /\ replace (lit "aa") (lit "x") (lit "aaaab aa a") = lit "xxb x a".
Proof. repeat split; vm_compute; reflexivity. Qed.

(** ** Lengths under stripping and truncation *)

Lemma lstrip_length (s : str) : (length (lstrip s) <= length s)%nat.
Proof.
  induction s as [|c s IH]; simpl; [lia|].
  destruct (is_space c); simpl; lia.
Qed.

Lemma rstrip_length (s : str) : (length (rstrip s) <= length s)%nat.
Proof.
  unfold rstrip. rewrite length_rev.
  pose proof (lstrip_length (rev s)) as H. rewrite length_rev in H. exact H.
Qed.

Lemma strip_length (s : str) : (length (strip s) <= length s)%nat.
Proof.
  unfold strip. pose proof (rstrip_length (lstrip s)). pose proof (lstrip_length s). lia.
Qed.

Lemma lstrip_no_space (s : str) :
  match s with c :: _ => is_space c = false | [] => True end -> lstrip s = s.
Proof. destruct s as [|c s]; simpl; [reflexivity|]. intros ->. reflexivity. Qed.

Lemma truncate_under_nonpositive (text : str) (max_chars : Z) :
  max_chars <= 0 -> truncate_under text max_chars = text.
Proof.
  intros H. unfold truncate_under.
  destruct (Z.leb_spec max_chars 0); [reflexivity|lia].
Qed.

Lemma truncate_under_fits (text : str) (max_chars : Z) :
  len text <= max_chars -> truncate_under text max_chars = text.
Proof.
  intros H. unfold truncate_under.
  destruct (Z.leb_spec max_chars 0); [reflexivity|].
  destruct (Z.leb_spec (len text) max_chars); [reflexivity|lia].
Qed.

Lemma truncate_under_cut_length (text : str) (max_chars : Z) :
  0 < max_chars -> max_chars < len text ->
  len (truncate_under text max_chars) <= max_chars - 1.
Proof.
  intros Hpos Hlong. unfold truncate_under.
  destruct (Z.leb_spec max_chars 0); [lia|].
  destruct (Z.leb_spec (len text) max_chars); [lia|].
  cbv zeta.
  set (trimmed := firstn (Z.to_nat (max_chars - 1)) text).
  assert (Ht : (length trimmed <= Z.to_nat (max_chars - 1))%nat)
    by (subst trimmed; rewrite length_firstn; lia).
  match goal with |- context [if ?b then _ else _] => destruct b end; unfold len.
  - match goal with |- context [strip ?x] => pose proof (strip_length x) as Hs end.
    rewrite length_firstn in Hs. lia.
  - pose proof (strip_length trimmed). lia.
Qed.

Lemma truncate_under_length (text : str) (max_chars : Z) :
  0 < max_chars -> len (truncate_under text max_chars) <= max_chars.
Proof.
  intros Hpos. destruct (Z.le_gt_cases (len text) max_chars) as [Hle|Hgt].
  - rewrite truncate_under_fits by assumption. assumption.
  - pose proof (truncate_under_cut_length text max_chars Hpos). lia.
Qed.

(** ** The scan for the last sentence end *)

Lemma match_here_one (p : char -> bool) (s : str) :
  match_here [one p] s =
  match s with
  | c :: _ => if p c then Some [[c]] else None
  | [] => None
  end.
Proof.
  destruct s as [|c s]; [reflexivity|].
  simpl. unfold atom_hi. simpl. destruct (p c); reflexivity.
Qed.

Lemma last_end_scan (s : str) (pos acc : nat) :
  fold_left (fun _ m => snd m) (finditer_from SENTENCE_END_RE s pos 0) acc =
  match last_mark_end s with
  | O => acc
  | S e => (pos + S e)%nat
  end.
Proof.
  revert pos acc. induction s as [|c s IH]; intros pos acc; [reflexivity|].
  cbn [finditer_from last_mark_end]. unfold SENTENCE_END_RE in *.
  rewrite match_here_one.
  destruct (is_sentence_end c) eqn:Hc.
  - cbn [match_len concat length app fold_left snd]. rewrite IH.
    destruct (last_mark_end s); lia.
  - rewrite IH. destruct (last_mark_end s); lia.
Qed.

(** What [last_mark_end] computes: no mark at all, or the position after
    a mark that no later mark follows. *)
Lemma last_mark_end_none (s : str) :
  last_mark_end s = O <-> Forall (fun c => is_sentence_end c = false) s.
Proof.
  induction s as [|c s IH]; simpl.
  - split; auto.
  - destruct (last_mark_end s) eqn:E.
    + destruct (is_sentence_end c) eqn:Hc; split; intros H; try discriminate.
      * inversion H; congruence.
      * constructor; [assumption|]. apply IH. reflexivity.
      * reflexivity.
    + split; [discriminate|]. intros H. inversion H; subst.
      destruct IH as [_ IH]. specialize (IH H3). discriminate.
Qed.

Lemma last_mark_end_some (s : str) (e : nat) :
  last_mark_end s = S e ->
  (exists c, nth_error s e = Some c /\ is_sentence_end c = true) /\
  Forall (fun c => is_sentence_end c = false) (skipn (S e) s).
Proof.
  revert e. induction s as [|c s IH]; intros e; simpl; [discriminate|].
  destruct (last_mark_end s) eqn:E.
  - destruct (is_sentence_end c) eqn:Hc; [|discriminate].
    intros [= <-]. split; [exists c; auto|]. simpl. apply last_mark_end_none. exact E.
  - intros [= <-]. destruct (IH n eq_refl) as [Hm Hrest]. split; assumption.
Qed.

(** ** C4: the truncation rule *)

(** C4, as amended.  For a positive budget, a text that fits is returned
    unchanged.  A longer text is cut to its first [max_chars - 1]
    characters; when the last sentence-ending mark of that prefix ends
    beyond 60% of the budget the prefix is cut after that mark, otherwise
    the whole prefix is kept; in both cases the result is stripped of
    surrounding whitespace.  ([last_mark_end_none] and
    [last_mark_end_some] say what [last_mark_end] is.) *)
Theorem truncate_under_rule (text : str) (max_chars : Z) :
  0 < max_chars ->
  (len text <= max_chars -> truncate_under text max_chars = text) /\
  (max_chars < len text ->
   let prefix := firstn (Z.to_nat (max_chars - 1)) text in
   let e := last_mark_end prefix in
   truncate_under text max_chars =
   if (0 <? e)%nat && (3 * max_chars <? 5 * Z.of_nat e)
   then strip (firstn e prefix)
   else strip prefix).
Proof.
  intros Hpos. split; [apply truncate_under_fits|].
  intros Hlong. cbv zeta. unfold truncate_under.
  destruct (Z.leb_spec max_chars 0); [lia|].
  destruct (Z.leb_spec (len text) max_chars); [lia|].
  cbv zeta. unfold finditer. rewrite last_end_scan. unfold beyond_60_percent.
  destruct (last_mark_end (firstn (Z.to_nat (max_chars - 1)) text)); reflexivity.
Qed.

Lemma truncate_under_rule_witness :
  0 < 19 /\
  truncate_under (lit "Hello world. This is a long sentence") 19 = lit "Hello world.".
Proof.
  split; [lia|].
  destruct (truncate_under_rule (lit "Hello world. This is a long sentence") 19 ltac:(lia))
    as [_ H].
  rewrite H by (vm_compute; reflexivity).
  vm_compute. reflexivity.
Defined.

(** The rule without the final strip does not describe the code: the
    three-character prefix of ["ab cdef"] ends in a space, which the code
    removes. *)
Lemma truncate_under_not_raw_prefix :
  truncate_as_documented (lit "ab cdef") 4 = lit "ab "
  /\ truncate_under (lit "ab cdef") 4 = lit "ab"
  /\ truncate_under (lit "ab cdef") 4 <> truncate_as_documented (lit "ab cdef") 4.
Proof. repeat split; vm_compute; congruence. Qed.

(** Truncating a text that already fits is the identity, whatever the
    sign of the budget. *)
Lemma truncate_under_short_identity (text : str) (max_chars : Z) :
  len text <= max_chars -> truncate_under text max_chars = text.
Proof. apply truncate_under_fits. Qed.

(** ** C1 and C10: the character budget of a rendered draft *)

Lemma with_sources_budget (body block : str) (max_chars : Z) (finish : str -> str) :
  (forall b, (length (finish b) <= length b)%nat) ->
  len block < max_chars ->
  len (with_sources body block max_chars true finish) <= max_chars.
Proof.
  intros Hfin Hblock. unfold with_sources. cbv zeta.
  destruct (Z.ltb_spec (max_chars - len block) (len body)) as [Hlong|Hfit];
    unfold len in *; rewrite length_app.
  - pose proof (truncate_under_cut_length body (max_chars - len block)) as Hcut.
    unfold len in Hcut.
    pose proof (Hfin (truncate_under body (max_chars - Z.of_nat (length block)))).
    lia.
  - pose proof (Hfin body). lia.
Qed.

Lemma with_sources_overrun (body block : str) (max_chars : Z) (finish : str -> str) :
  max_chars <= len block ->
  with_sources body block max_chars true finish = finish body ++ block.
Proof.
  intros Hblock. unfold with_sources. cbv zeta.
  destruct (Z.ltb_spec (max_chars - len block) (len body)); [|reflexivity].
  rewrite truncate_under_nonpositive by lia. reflexivity.
Qed.

Lemma render_output_no_sources (body : str) (used : list article) (fmt : str)
    (max_chars : Z) (include_sources lim : bool) :
  include_sources && negb (bool_decide (urls_of used = [])) = false ->
  render_output body used fmt max_chars include_sources lim =
  truncate_under
    (if str_eqb fmt (lit "markdown") then body
     else prepared_body fmt body (urls_of used)) max_chars.
Proof.
  intros H. unfold render_output, prepared_body. cbv zeta. rewrite H.
  destruct (str_eqb fmt (lit "text")) eqn:E1.
  - unfold str_eqb in E1. apply bool_decide_eq_true in E1. subst fmt. reflexivity.
  - destruct (str_eqb fmt (lit "markdown")); [reflexivity|].
    destruct (str_eqb fmt (lit "html")); reflexivity.
Qed.

Lemma render_output_sources (body : str) (used : list article) (fmt : str)
    (max_chars : Z) (lim : bool) :
  urls_of used <> [] -> known_format fmt = true ->
  render_output body used fmt max_chars true lim =
  with_sources
    (if str_eqb fmt (lit "markdown") then body
     else prepared_body fmt body (urls_of used))
    (sources_section fmt (urls_of used)) max_chars lim
    (if str_eqb fmt (lit "markdown") then rstrip else id).
Proof.
  intros Hu Hk. unfold render_output, prepared_body, sources_section, known_format in *.
  cbv zeta. rewrite bool_decide_eq_false_2 by assumption. cbn [andb negb].
  destruct (str_eqb fmt (lit "text")) eqn:E1.
  - unfold str_eqb in E1. apply bool_decide_eq_true in E1. subst fmt. reflexivity.
  - destruct (str_eqb fmt (lit "markdown")); [reflexivity|].
    destruct (str_eqb fmt (lit "html")); [reflexivity|discriminate].
Qed.

Lemma render_output_unknown_format (body : str) (used : list article) (fmt : str)
    (max_chars : Z) (inc lim : bool) :
  known_format fmt = false ->
  render_output body used fmt max_chars inc lim = truncate_under (strip body) max_chars.
Proof.
  unfold known_format, render_output. cbv zeta.
  destruct (str_eqb fmt (lit "text")); [discriminate|].
  destruct (str_eqb fmt (lit "markdown")); [discriminate|].
  destruct (str_eqb fmt (lit "html")); [discriminate|reflexivity].
Qed.

(** C1, as amended.  With a positive budget and links counted toward it,
    the rendered draft is at most [max_chars] long whenever the block of
    source links that is appended (if any) is shorter than the budget. *)
Theorem render_output_within_budget (body : str) (used : list article) (fmt : str)
    (max_chars : Z) (include_sources : bool) :
  0 < max_chars ->
  (include_sources = true -> urls_of used <> [] ->
   len (sources_section fmt (urls_of used)) < max_chars) ->
  len (render_output body used fmt max_chars include_sources true) <= max_chars.
Proof.
  intros Hpos Hblock.
  destruct (known_format fmt) eqn:Hk.
  2:{ rewrite render_output_unknown_format by assumption.
      apply truncate_under_length. assumption. }
  destruct (include_sources && negb (bool_decide (urls_of used = []))) eqn:Hs.
  - apply andb_true_iff in Hs. destruct Hs as [-> Hne].
    apply negb_true_iff, bool_decide_eq_false in Hne.
    rewrite render_output_sources by assumption.
    apply with_sources_budget; [|auto].
    intros b. destruct (str_eqb fmt (lit "markdown")); [apply rstrip_length|reflexivity].
  - rewrite render_output_no_sources by assumption.
    apply truncate_under_length. assumption.
Qed.

Lemma render_output_within_budget_witness :
  len (render_output (lit "One. Two. Three. Four. Five. Six.")
         [demo_source "http://a.b/c"] (lit "text") 40 true true) <= 40.
Proof.
  apply (render_output_within_budget _ _ _ 40 true); [lia|].
  intros _ _. vm_compute. reflexivity.
Defined.

(** The budget is exceeded when the block of links alone does not fit:
    a five-character body with one source under a budget of five. *)
Lemma render_output_exceeds_budget :
  ~ len (render_output (lit "hello") [demo_source "u"] (lit "markdown") 5 true true) <= 5.
Proof. vm_compute. intros H. apply H. reflexivity. Qed.

(** C10, as amended.  A budget that is not positive leaves the text
    unchanged.  Hence, with links counted, a block of source links at
    least [max_chars] long is appended to the body as the format prepared
    it, uncut: the result is at least [max_chars] long, and longer than
    [max_chars] as soon as that body is not empty or the block alone is
    longer than the budget. *)
Theorem render_output_overrun (body : str) (used : list article) (fmt : str)
    (max_chars : Z) :
  (forall text m, m <= 0 -> truncate_under text m = text) /\
  (urls_of used <> [] -> known_format fmt = true ->
   max_chars <= len (sources_section fmt (urls_of used)) ->
   let prepared := prepared_body fmt body (urls_of used) in
   let block := sources_section fmt (urls_of used) in
   render_output body used fmt max_chars true true = prepared ++ block /\
   max_chars <= len (render_output body used fmt max_chars true true) /\
   (prepared <> [] \/ max_chars < len block ->
    max_chars < len (render_output body used fmt max_chars true true))).
Proof.
  split; [apply truncate_under_nonpositive|].
  intros Hu Hk Hblock. cbv zeta.
  rewrite render_output_sources by assumption.
  rewrite with_sources_overrun by assumption.
  assert (E : (if str_eqb fmt (lit "markdown") then rstrip else id)
                (if str_eqb fmt (lit "markdown") then body
                 else prepared_body fmt body (urls_of used))
              = prepared_body fmt body (urls_of used)).
  { unfold prepared_body. destruct (str_eqb fmt (lit "text")) eqn:E1.
    - unfold str_eqb in E1. apply bool_decide_eq_true in E1. subst fmt. reflexivity.
    - destruct (str_eqb fmt (lit "markdown")); reflexivity. }
  rewrite E. split; [reflexivity|].
  unfold len in *. rewrite length_app. split; [lia|].
  intros [Hne|Hlt]; [|lia].
  destruct (prepared_body fmt body (urls_of used)); [congruence|simpl; lia].
Qed.

(** The overrun need not be strict: an empty body and a block exactly as
    long as the budget give a draft exactly as long as the budget. *)
Lemma render_output_overrun_not_strict :
  18 <= len (sources_section (lit "markdown") (urls_of [demo_source "u"]))
  /\ ~ 18 < len (render_output [] [demo_source "u"] (lit "markdown") 18 true true).
Proof. split; vm_compute; intros H; discriminate H. Qed.

(** ** C9: content types *)

Section ContentTypesFacts.
Variable str_lower : str -> str.

Lemma normalise_loop (types : list (option str)) (acc : list str) :
  fold_left
    (fun out t =>
       let t := str_lower (strip (default [] t)) in
       let t := if str_eqb t (lit "blogs") then lit "blog" else t in
       if bool_decide (t ∈ VALID_TYPES) then out ++ [t] else out)
    types acc
  = acc ++ filter (fun t => t ∈ VALID_TYPES) (map (canonical_type str_lower) types).
Proof.
  revert acc. induction types as [|t types IH]; intros acc; simpl.
  - rewrite app_nil_r. reflexivity.
  - rewrite IH. fold (canonical_type str_lower t).
    rewrite filter_cons. case_bool_decide as Hv.
    + rewrite decide_True by assumption. rewrite <- app_assoc. reflexivity.
    + rewrite decide_False by assumption. reflexivity.
Qed.

(** C9.  The normalised content types are a non-empty list of valid
    types: the valid entries of the input, each trimmed, lowercased and
    with ["blogs"] collapsed to ["blog"], in their order; or [["news"]]
    when the input is missing, empty or has no valid entry. *)
Theorem normalise_types_spec (types : option (list (option str))) :
  let out := normalise_types str_lower types in
  out <> [] /\
  Forall (fun t => t ∈ VALID_TYPES) out /\
  out = match filter (fun t => t ∈ VALID_TYPES)
                (map (canonical_type str_lower) (default [] types)) with
        | [] => [lit "news"]
        | kept => kept
        end.
Proof.
  cbv zeta.
  assert (Hnews : lit "news" ∈ VALID_TYPES) by (unfold VALID_TYPES; set_solver).
  destruct types as [[|t types]|]; simpl default.
  1,3: (split; [discriminate|]; split; [repeat constructor; exact Hnews|reflexivity]).
  unfold normalise_types. rewrite normalise_loop. rewrite app_nil_l.
  set (kept := filter _ _).
  assert (Hk : Forall (fun t => t ∈ VALID_TYPES) kept).
  { subst kept. apply Forall_forall. intros x Hx.
    apply list_elem_of_filter in Hx. tauto. }
  destruct kept as [|k kept].
  - split; [discriminate|]. split; [repeat constructor; exact Hnews|reflexivity].
  - split; [discriminate|]. split; [exact Hk|reflexivity].
Qed.

Lemma canonical_type_blogs (t : option str) :
  str_lower (strip (default [] t)) = lit "blogs" ->
  canonical_type str_lower t = lit "blog".
Proof. intros H. unfold canonical_type. rewrite H. reflexivity. Qed.
End ContentTypesFacts.

Example normalise_types_demo :
  normalise_types id (Some [Some (lit " blogs "); None; Some (lit "video"); Some (lit "pr")])
  = [lit "blog"; lit "pr"]
  /\ normalise_types id (Some [Some (lit "video")]) = [lit "news"]
  /\ normalise_types id None = [lit "news"].
Proof. repeat split; vm_compute; reflexivity. Qed.

(** ** C5: URL deduplication *)

Section KeepFirst.
Context {A : Type} (key : A -> option str).

Lemma keep_first_fresh (seen : gset str) (l : list A) :
  fresh_keys key seen (keep_first key seen l).
Proof.
  revert seen. induction l as [|x l IH]; intros seen; simpl; [exact I|].
  destruct (key x) as [k|] eqn:Hk; [|apply IH].
  case_bool_decide as Hin; [apply IH|].
  simpl. rewrite Hk. split; [assumption|apply IH].
Qed.

Lemma fresh_keys_keep (seen : gset str) (l : list A) :
  fresh_keys key seen l -> keep_first key seen l = l.
Proof.
  revert seen. induction l as [|x l IH]; intros seen; simpl; [reflexivity|].
  destruct (key x) as [k|]; [|contradiction].
  intros [Hk Hl]. rewrite bool_decide_eq_false_2 by assumption.
  f_equal. apply IH. assumption.
Qed.

Lemma fresh_keys_mono (seen seen' : gset str) (l : list A) :
  seen ⊆ seen' -> fresh_keys key seen' l -> fresh_keys key seen l.
Proof.
  revert seen seen'. induction l as [|x l IH]; intros seen seen' Hsub; simpl; [auto|].
  destruct (key x) as [k|]; [|auto].
  intros [Hk Hl]. split; [intros Hin; apply Hk, Hsub, Hin|].
  apply (IH _ ({[k]} ∪ seen')); [|assumption].
  apply union_mono_l. exact Hsub.
Qed.

Lemma fresh_keys_take (seen : gset str) (l : list A) (n : nat) :
  fresh_keys key seen l -> fresh_keys key seen (take n l).
Proof.
  revert seen n. induction l as [|x l IH]; intros seen [|n]; simpl; auto.
  destruct (key x) as [k|]; [|auto].
  intros [Hk Hl]. split; [assumption|apply IH; assumption].
Qed.

(** Deduplicating a deduplicated list changes nothing. *)
Lemma keep_first_idempotent (seen : gset str) (l : list A) :
  keep_first key ∅ (keep_first key seen l) = keep_first key seen l.
Proof.
  apply fresh_keys_keep. apply (fresh_keys_mono _ seen); [set_solver|].
  apply keep_first_fresh.
Qed.
End KeepFirst.

Lemma fresh_keys_map {A B} (key : A -> option str) (key' : B -> option str)
    (f : A -> B) (seen : gset str) (l : list A) :
  (forall x, key' (f x) = key x) ->
  fresh_keys key seen l -> fresh_keys key' seen (map f l).
Proof.
  intros Hf. revert seen. induction l as [|x l IH]; intros seen; simpl; [auto|].
  rewrite Hf. destruct (key x) as [k|]; [|auto].
  intros [Hk Hl]. split; [assumption|apply IH; assumption].
Qed.

Lemma unique_by_url_loop_keep_first (items : list article) (seen : gset str)
    (deduped : list article) :
  unique_by_url_loop items seen deduped = deduped ++ keep_first url_key seen items.
Proof.
  revert seen deduped.
  induction items as [|it items IH]; intros seen deduped;
    cbn [unique_by_url_loop keep_first].
  - rewrite app_nil_r. reflexivity.
  - unfold url_key at 1. destruct (url it) as [u|] eqn:Hu; [|apply IH].
    destruct (truthy (Some u)); cbn [negb orb]; [|apply IH].
    case_bool_decide; [apply IH|].
    rewrite IH, <- app_assoc. reflexivity.
Qed.

Lemma unique_by_url_keep_first (items : list article) :
  unique_by_url items = keep_first url_key ∅ items.
Proof. unfold unique_by_url. rewrite unique_by_url_loop_keep_first. reflexivity. Qed.

Section AggregatorFacts.
Variable str_lower : str -> str.
Variable netloc : str -> str.
Variable path : str -> str.
Variable url_ok : str -> bool.

(** A block that is returned is the block so far followed by the first
    results of every new key, as many as there is room for; their URLs
    are all URLs that [urlparse] accepts.  The loop fails with
    [ValueError] only. *)
Lemma fetch_block_loop_keep_first (now_iso : str) (target : Z) (rs : list web_result)
    (seen : gset str) (block : list article) :
  match fst (fetch_block_loop str_lower netloc path url_ok now_iso target rs seen block) with
  | Ok block' =>
      let added := take (room target block)
                     (map (to_article netloc now_iso)
                          (keep_first (result_key str_lower netloc path) seen rs)) in
      block' = block ++ added /\
      Forall (fun a => forall u, url a = Some u -> url_ok u = true) added
  | Raise e => e = ValueError
  end.
Proof.
  revert seen block.
  induction rs as [|r rs IH]; intros seen block;
    cbn [fetch_block_loop keep_first map].
  - cbn [fst]. rewrite take_nil, app_nil_r. split; [reflexivity|constructor].
  - destruct (href r) as [u|] eqn:Hu.
    2:{ assert (Hk : result_key str_lower netloc path r = None)
          by (unfold result_key; rewrite Hu; reflexivity).
        rewrite Hk. exact (IH seen block). }
    destruct (truthy (Some u)) eqn:Ht; cbn [negb].
    2:{ assert (Hk : result_key str_lower netloc path r = None)
          by (unfold result_key; rewrite Hu, Ht; reflexivity).
        rewrite Hk. exact (IH seen block). }
    assert (Hk : result_key str_lower netloc path r = Some (norm str_lower netloc path u))
      by (unfold result_key; rewrite Hu, Ht; reflexivity).
    destruct (url_ok u) eqn:Hok; cbn [negb fst]; [|reflexivity].
    rewrite Hk. cbv zeta. case_bool_decide as Hin; [exact (IH seen block)|].
    cbn [map]. unfold to_article at 1 3. rewrite Hu.
    cbn [fmap option_fmap option_map].
    set (a := Article _ _ _ _ _ _ _).
    assert (Ha : forall v, url a = Some v -> url_ok v = true)
      by (intros v [= <-]; exact Hok).
    assert (Hlen : len (block ++ [a]) = len block + 1)
      by (unfold len; rewrite length_app; simpl; lia).
    destruct (Z.leb_spec target (len (block ++ [a]))) as [Hfull|Hmore].
    + cbn [fst]. unfold room.
      replace (Z.to_nat (Z.max 1 (target - len block))) with 1%nat by lia.
      simpl. rewrite take_0. split; [reflexivity|]. constructor; [exact Ha|constructor].
    + specialize (IH ({[norm str_lower netloc path u]} ∪ seen) (block ++ [a])).
      destruct (fst (fetch_block_loop _ _ _ _ _ _ rs _ _)) as [block'|e]; [|exact IH].
      cbv zeta in IH. destruct IH as [Heq Hall]. unfold room in *. rewrite Hlen in Heq, Hall.
      replace (Z.to_nat (Z.max 1 (target - len block)))
        with (S (Z.to_nat (Z.max 1 (target - (len block + 1))))) by lia.
      simpl. split; [rewrite Heq, <- app_assoc; reflexivity|].
      constructor; [exact Ha|exact Hall].
Qed.

(** Where [urlparse] accepts every URL of the results, a block is
    returned. *)
Lemma fetch_block_loop_accepted (now_iso : str) (target : Z) (rs : list web_result)
    (seen : gset str) (block : list article) :
  Forall (fun r => forall u, href r = Some u -> url_ok u = true) rs ->
  fst (fetch_block_loop str_lower netloc path url_ok now_iso target rs seen block)
  = Ok (block ++ take (room target block)
                   (map (to_article netloc now_iso)
                        (keep_first (result_key str_lower netloc path) seen rs))).
Proof.
  intros Hok.
  pose proof (fetch_block_loop_keep_first now_iso target rs seen block) as Hloop.
  destruct (fst (fetch_block_loop _ _ _ _ _ _ rs seen block)) as [block'|e] eqn:Hrun.
  { cbv zeta in Hloop. destruct Hloop as [-> _]. reflexivity. }
  exfalso. clear Hloop. revert seen block Hrun.
  induction Hok as [|r rs Hr Hrs IH]; intros seen block; cbn [fetch_block_loop];
    [discriminate|].
  destruct (href r) as [u|]; [|apply IH].
  destruct (truthy (Some u)); cbn [negb]; [|apply IH].
  rewrite (Hr u eq_refl). cbn [negb]. cbv zeta.
  case_bool_decide; [apply IH|].
  destruct (_ <=? _); [discriminate|apply IH].
Qed.

Lemma to_article_round_trip (now_iso : str) (r : web_result) :
  to_article netloc now_iso (as_web_result (to_article netloc now_iso r)) = to_article netloc now_iso r.
Proof. reflexivity. Qed.

Lemma article_key_to_article (now_iso : str) (r : web_result) :
  result_key str_lower netloc path (as_web_result (to_article netloc now_iso r)) = result_key str_lower netloc path r.
Proof. reflexivity. Qed.

(** The deduplication of [fetch_block], run afresh on the block it
    returned, returns that block. *)
Lemma fetch_block_idempotent (now_iso : str) (target : Z) (rs : list web_result)
    (seen : gset str) :
  match fst (fetch_block_loop str_lower netloc path url_ok now_iso target rs seen []) with
  | Ok block =>
      fst (fetch_block_loop str_lower netloc path url_ok now_iso target
             (map as_web_result block) ∅ []) = Ok block
  | Raise e => e = ValueError
  end.
Proof.
  pose proof (fetch_block_loop_keep_first now_iso target rs seen []) as Hloop.
  destruct (fst (fetch_block_loop _ _ _ _ _ _ rs seen [])) as [block|e]; [|exact Hloop].
  cbv zeta in Hloop. destruct Hloop as [Hblock Hok]. rewrite app_nil_l in Hblock.
  rewrite <- Hblock in Hok.
  rewrite fetch_block_loop_accepted.
  2:{ apply Forall_forall. intros r Hr u Hu.
      apply list_elem_of_In, in_map_iff in Hr. destruct Hr as [a [<- Ha]].
      rewrite Forall_forall in Hok. apply (Hok a); [apply list_elem_of_In; exact Ha|].
      exact Hu. }
  rewrite app_nil_l. f_equal. rewrite Hblock at 2. rewrite Hblock at 1.
  set (kept := keep_first (result_key str_lower netloc path) seen rs).
  set (n := room target []).
  assert (Hfresh : fresh_keys (result_key str_lower netloc path) ∅
                     (map as_web_result (take n (map (to_article netloc now_iso) kept)))).
  { rewrite firstn_map, map_map.
    apply (fresh_keys_map (result_key str_lower netloc path)); [intros x; apply article_key_to_article|].
    apply fresh_keys_take. apply (fresh_keys_mono _ _ seen); [set_solver|].
    apply keep_first_fresh. }
  rewrite (fresh_keys_keep _ _ _ Hfresh).
  rewrite (firstn_map (to_article netloc now_iso) n kept), !map_map.
  rewrite (map_ext _ (to_article netloc now_iso)) by (intros r; apply to_article_round_trip).
  rewrite firstn_map, take_idemp. reflexivity.
Qed.

(** The key ignores everything but the host and the path. *)
Lemma norm_host_and_path_only (u v : str) :
  netloc u = netloc v -> path u = path v ->
  norm str_lower netloc path u = norm str_lower netloc path v.
Proof. intros Hn Hp. unfold norm. rewrite Hn, Hp. reflexivity. Qed.
End AggregatorFacts.

(** C5.  Deduplication by URL is idempotent: [unique_by_url] applied to
    its own output returns it, and so does the aggregator's
    deduplication by normalised URL, whatever the URL parser, the set of
    keys already seen and the number of items asked for.  The
    aggregator's loop returns no block when [urlparse] rejects a URL (a
    [ValueError]); where it accepts every URL, a block is always
    returned. *)
Theorem url_dedup_idempotent :
  (forall items : list article,
     unique_by_url (unique_by_url items) = unique_by_url items) /\
  (forall (str_lower netloc path : str -> str) (url_ok : str -> bool) (now_iso : str)
          (target : Z) (rs : list web_result) (seen : gset str),
     match fst (fetch_block_loop str_lower netloc path url_ok now_iso target rs seen []) with
     | Ok block =>
         fst (fetch_block_loop str_lower netloc path url_ok now_iso target
                (map as_web_result block) ∅ []) = Ok block
     | Raise e => e = ValueError
     end) /\
  (forall (str_lower netloc path : str -> str) (now_iso : str) (target : Z)
          (rs : list web_result) (seen : gset str),
     exists block,
       fst (fetch_block_loop str_lower netloc path (fun _ => true) now_iso target rs seen [])
       = Ok block /\
       fst (fetch_block_loop str_lower netloc path (fun _ => true) now_iso target
              (map as_web_result block) ∅ []) = Ok block).
Proof.
  split; [|split].
  - intros items. rewrite !unique_by_url_keep_first. apply keep_first_idempotent.
  - intros. apply fetch_block_idempotent.
  - intros.
    pose proof (fetch_block_idempotent str_lower netloc path (fun _ => true)
                  now_iso target rs seen) as Hrun.
    rewrite fetch_block_loop_accepted in Hrun |- *
      by (apply Forall_forall; reflexivity).
    eexists. split; [reflexivity|exact Hrun].
Qed.

Example unique_by_url_demo :
  unique_by_url [demo_source "a"; demo_source ""; demo_source "b"; demo_source "a"]
  = [demo_source "a"; demo_source "b"].
Proof. vm_compute. reflexivity. Qed.

(** ** C2: the repaired selection *)

Lemma filter_ext_elem {A} (P Q : A -> Prop) `{!forall x, Decision (P x)}
    `{!forall x, Decision (Q x)} (l : list A) :
  (forall x, x ∈ l -> P x <-> Q x) -> filter P l = filter Q l.
Proof.
  induction l as [|x l IH]; intros Hpq; [reflexivity|].
  rewrite !filter_cons.
  assert (Hx : P x <-> Q x) by (apply Hpq; left).
  rewrite IH by (intros y Hy; apply Hpq; right; exact Hy).
  destruct (decide (P x)), (decide (Q x)); tauto.
Qed.

(** A list without repetition loses at most [length idxs] elements when
    the members of [idxs] are removed from it. *)
Lemma unpicked_length (l idxs : list Z) :
  NoDup l ->
  (length l <= length (filter (fun i => i ∉ idxs) l) + length idxs)%nat.
Proof.
  intros Hnd. revert idxs. induction Hnd as [|x l Hx Hnd IH]; intros idxs; [simpl; lia|].
  rewrite filter_cons. destruct (decide (x ∉ idxs)) as [Hout|Hin].
  - specialize (IH idxs). simpl. lia.
  - assert (Hin' : x ∈ idxs) by (destruct (decide (x ∈ idxs)); tauto).
    specialize (IH (filter (fun i => i <> x) idxs)).
    pose proof (length_filter_lt (fun i => i <> x) idxs x Hin' ltac:(tauto)) as Hlt.
    rewrite (filter_ext_elem (fun i => i ∉ idxs)
               (fun i => i ∉ filter (fun i => i <> x) idxs) l).
    + simpl. lia.
    + intros y Hy. rewrite list_elem_of_filter.
      assert (y <> x) by (intros ->; apply Hx, Hy).
      tauto.
Qed.

Lemma candidates_NoDup (n : nat) : NoDup (candidates n).
Proof.
  unfold candidates. apply NoDup_ListNoDup.
  apply List.NoDup_map_inv with (f := Z.to_nat). rewrite List.map_map.
  rewrite (List.map_ext _ (fun x => x)) by (intros a; lia). rewrite List.map_id.
  apply NoDup_ListNoDup, NoDup_seq.
Qed.

Lemma candidates_range (n : nat) (i : Z) : i ∈ candidates n -> 0 <= i < Z.of_nat n.
Proof.
  unfold candidates. rewrite list_elem_of_In, in_map_iff.
  intros [j [<- Hj]]. apply in_seq in Hj. lia.
Qed.




Section SelectorFacts.
Variable json_loads : str -> option json.
Variable str_isdigit : str -> bool.
Variable py_int : str -> option Z.

Lemma repair_indices_split (n : nat) (top_k : Z) (idxs : list Z) :
  0 <= top_k ->
  repair_indices n top_k idxs = firstn (Z.to_nat top_k) idxs ++ padding n top_k idxs.
Proof.
  intros Hk. unfold repair_indices, padding, slice_to, len. fold (candidates n).
  destruct (Z.ltb_spec (Z.of_nat (length idxs)) top_k).
  - rewrite (take_ge idxs (Z.to_nat top_k)) by lia. reflexivity.
  - destruct (Z.leb_spec 0 top_k); [|lia]. rewrite app_nil_r. reflexivity.
Qed.


Lemma padding_length (n : nat) (top_k : Z) (idxs : list Z) :
  0 <= top_k <= Z.of_nat n ->
  len (firstn (Z.to_nat top_k) idxs ++ padding n top_k idxs) = top_k.
Proof.
  intros Hk. unfold padding, len. rewrite length_app.
  destruct (Z.ltb_spec (Z.of_nat (length idxs)) top_k) as [Hshort|Hlong].
  - rewrite (take_ge idxs (Z.to_nat top_k)) by lia. rewrite length_take.
    pose proof (unpicked_length (candidates n) idxs (candidates_NoDup n)) as Hp.
    unfold candidates in Hp at 1. rewrite length_map, length_seq in Hp. lia.
  - rewrite length_take. simpl. lia.
Qed.

Lemma picked_indices_range (n : nat) (raw : str) (idxs : list Z) :
  picked_indices json_loads str_isdigit py_int n raw = Ok idxs ->
  Forall (fun i => 0 <= i < Z.of_nat n) idxs.
Proof.
  unfold picked_indices.
  destruct (py_get _ _) as [top|]; [|discriminate]. cbn [mbind exc_bind].
  destruct (map_exc _ _) as [l|]; [|discriminate]. cbn [mbind exc_bind].
  intros [= <-]. apply Forall_forall. intros i Hi.
  apply list_elem_of_filter in Hi. tauto.
Qed.




(** The selection does not raise when the reply decodes to an object
    whose digit strings [int] accepts. *)
Lemma picked_indices_total (n : nat) (raw : str) (fields : list (str * json)) :
  extract_json json_loads raw = JObj fields ->
  (forall s, str_isdigit s = true -> py_int s <> None) ->
  exists idxs, picked_indices json_loads str_isdigit py_int n raw = Ok idxs.
Proof.
  intros Hd Hint. unfold picked_indices. rewrite Hd. cbn [py_get mbind exc_bind].
  set (items := match assoc _ fields with Some (JArr items) => items | _ => [] end).
  assert (Hconv : exists l, map_exc (to_int py_int)
                              (filter (fun i => index_like str_isdigit i = true) items) = Ok l).
  { induction items as [|i items IH]; [exists []; reflexivity|].
    rewrite filter_cons. destruct (decide _) as [Hi|Hi]; [|exact IH].
    destruct IH as [l Hl]. cbn [map_exc]. rewrite Hl.
    destruct i as [|b|z|f|s|a|o]; try discriminate Hi; cbn [to_int mbind exc_bind];
      try (eexists; reflexivity).
    simpl in Hi. specialize (Hint s Hi). destruct (py_int s); [|congruence].
    cbn [mbind exc_bind]. eexists; reflexivity. }
  destruct Hconv as [l ->]. cbn [mbind exc_bind]. eexists; reflexivity.
Qed.
End SelectorFacts.



(** ** C6: errors of the selection *)

Lemma py_index_nat {A} (l : list A) (i : nat) (x : A) :
  nth_error l i = Some x -> py_index l (Z.of_nat i) = Ok x.
Proof.
  intros H. unfold py_index.
  destruct (Z.leb_spec 0 (Z.of_nat i)); [|lia].
  destruct (Z.ltb_spec (Z.of_nat i) 0); [lia|].
  rewrite Nat2Z.id, H. reflexivity.
Qed.

Lemma skipn_nth_error {A} (l : list A) (a : nat) (x : A) :
  nth_error l a = Some x -> skipn a l = x :: skipn (S a) l.
Proof.
  revert a. induction l as [|y l IH]; intros [|a]; simpl; try discriminate.
  - intros [= ->]. reflexivity.
  - intros H. rewrite (IH a H). reflexivity.
Qed.

Lemma map_exc_first_candidates {A} (l : list A) (m a : nat) :
  (a + m <= length l)%nat ->
  map_exc (py_index l) (map Z.of_nat (seq a m)) = Ok (firstn m (skipn a l)).
Proof.
  revert a. induction m as [|m IH]; intros a Hm; [reflexivity|].
  cbn [seq map map_exc].
  destruct (nth_error l a) as [x|] eqn:Hx.
  2:{ apply nth_error_None in Hx. lia. }
  rewrite (py_index_nat l a x Hx). cbn [mbind exc_bind].
  rewrite IH by lia. cbn [mbind exc_bind].
  rewrite (skipn_nth_error l a x Hx). reflexivity.
Qed.

Lemma map_exc_log_title (docs : list article) :
  Forall (fun a => is_Some (title a)) docs -> exists ts, map_exc log_title docs = Ok ts.
Proof.
  induction 1 as [|a docs [t Ht] Hdocs [ts IH]]; [exists []; reflexivity|].
  cbn [map_exc]. rewrite IH. unfold log_title. rewrite Ht. cbn [mbind exc_bind].
  eexists. reflexivity.
Qed.

Section SelectionErrors.
Variable json_loads : str -> option json.
Variable str_isdigit : str -> bool.
Variable py_int : str -> option Z.

(** Without a document there is nothing to select from. *)
Lemma node_rank_empty_pool (company_articles : list (str * list article))
    (top_k : Z) (raw : str) :
  node_rank json_loads str_isdigit py_int [] company_articles top_k raw
  = Raise (RuntimeError (lit "No articles found for the given filters.")).
Proof. reflexivity. Qed.

(** Text in which [json.loads] finds nothing decodes to the empty
    object. *)
Lemma extract_json_undecodable (raw : str) :
  json_loads raw = None ->
  (forall a b, json_loads (slice raw a b) = None) ->
  extract_json json_loads raw = JObj [].
Proof.
  intros H Hfrag. unfold extract_json. rewrite H. cbv zeta.
  rewrite Hfrag. destruct (_ && _); reflexivity.
Qed.

Lemma padding_of_nothing (n : nat) (top_k : Z) :
  0 <= top_k <= Z.of_nat n ->
  repair_indices n top_k [] = map Z.of_nat (seq 0 (Z.to_nat top_k)).
Proof.
  intros Hk. unfold repair_indices, len, slice_to. cbn [length].
  destruct (Z.ltb_spec (Z.of_nat 0) top_k) as [Hpos|Hzero].
  - cbn [app]. rewrite (filter_ext_elem _ (fun _ => True)).
    + replace (filter (fun _ : Z => True) (map Z.of_nat (seq 0 n)))
        with (map Z.of_nat (seq 0 n))
        by (induction (map Z.of_nat (seq 0 n)) as [|x l IH];
            [reflexivity|rewrite filter_cons; cbn; f_equal; exact IH]).
      rewrite firstn_map, take_seq. do 2 f_equal. lia.
    + intros x _. split; [auto|]. intros _ Hx. inversion Hx.
  - replace top_k with 0 by lia. reflexivity.
Qed.

(** What holds of malformed replies: text that is not JSON never raises; the
    selection is empty before padding, and the first [top_k] documents
    of the pool are selected.  The documents are taken to have a title,
    which the log statement that ends the node slices. *)
Lemma node_rank_undecodable (articles : list article)
    (company_articles : list (str * list article)) (top_k : Z) (raw : str) :
  articles <> [] ->
  json_loads raw = None ->
  (forall a b, json_loads (slice raw a b) = None) ->
  let pool := candidate_pool articles company_articles in
  Forall (fun a => is_Some (title a)) pool ->
  0 <= top_k <= len pool ->
  picked_indices json_loads str_isdigit py_int (length pool) raw = Ok [] /\
  node_rank json_loads str_isdigit py_int articles company_articles top_k raw
  = Ok (firstn (Z.to_nat top_k) pool).
Proof.
  intros Hne Hraw Hfrag pool Htitles Hk.
  assert (Hp : picked_indices json_loads str_isdigit py_int (length pool) raw = Ok []).
  { unfold picked_indices. rewrite extract_json_undecodable by assumption. reflexivity. }
  split; [exact Hp|].
  unfold node_rank. destruct articles as [|a articles]; [congruence|].
  fold pool. unfold rank_indices. rewrite Hp. cbn [mbind exc_bind].
  rewrite padding_of_nothing by exact Hk.
  rewrite map_exc_first_candidates by (unfold len in Hk; lia).
  cbn [mbind exc_bind]. rewrite drop_0.
  destruct (map_exc_log_title (firstn (Z.to_nat top_k) pool)) as [ts Hts];
    [apply Forall_take; exact Htitles|].
  rewrite Hts. reflexivity.
Qed.

(** C6: where the code departs from the design document.  A reply that decodes
    to anything but an object makes the selection raise
    [AttributeError], although the pool is not empty. *)
Theorem node_rank_raises_on_non_object (articles : list article)
    (company_articles : list (str * list article)) (top_k : Z) (raw : str) (v : json) :
  articles <> [] ->
  json_loads raw = Some v ->
  (forall fields, v <> JObj fields) ->
  node_rank json_loads str_isdigit py_int articles company_articles top_k raw
  = Raise AttributeError.
Proof.
  intros Hne Hraw Hv. unfold node_rank. destruct articles as [|a articles]; [congruence|].
  unfold rank_indices, picked_indices, extract_json. rewrite Hraw.
  destruct v; try reflexivity. exfalso. eapply Hv. reflexivity.
Qed.

(** Text that is not JSON raises too when the object found in it lists
    a digit string that [int] rejects. *)
Lemma node_rank_raises_on_bad_digits (articles : list article)
    (company_articles : list (str * list article)) (top_k : Z) (raw s : str) :
  articles <> [] ->
  extract_json json_loads raw = JObj [(lit "top_indices", JArr [JStr s])] ->
  str_isdigit s = true -> py_int s = None ->
  node_rank json_loads str_isdigit py_int articles company_articles top_k raw
  = Raise ValueError.
Proof.
  intros Hne Hd Hs Hi. unfold node_rank. destruct articles as [|a articles]; [congruence|].
  unfold rank_indices, picked_indices. rewrite Hd.
  cbn [py_get assoc mbind exc_bind]. 
  replace (str_eqb (lit "top_indices") (lit "top_indices")) with true by reflexivity.
  rewrite filter_cons. cbn [index_like]. rewrite decide_True by exact Hs.
  rewrite filter_nil. cbn [map_exc to_int]. rewrite Hi. reflexivity.
Qed.
End SelectionErrors.

Lemma node_rank_raises_on_non_object_witness :
  node_rank sample_loads ascii_isdigit ascii_int three_articles [] 2 reply_array
  = Raise AttributeError.
Proof.
  apply (node_rank_raises_on_non_object sample_loads ascii_isdigit ascii_int
           three_articles [] 2 reply_array (JArr [JInt 0])).
  - discriminate.
  - vm_compute. reflexivity.
  - discriminate.
Defined.

(** ** C8: the sources a revision uses *)

Lemma list_index_nth (x : article) (l : list article) (i : nat) :
  list_index x l = Some i -> nth_error l i = Some x.
Proof.
  revert i. induction l as [|y l IH]; intros i; cbn [list_index]; [discriminate|].
  destruct (decide (x = y)) as [->|Hne].
  - intros [= <-]. reflexivity.
  - destruct (list_index x l) as [j|]; [|discriminate].
    intros [= <-]. apply IH. reflexivity.
Qed.

Lemma list_index_elem (x : article) (l : list article) :
  x ∈ l -> exists i, list_index x l = Some i.
Proof.
  induction l as [|y l IH]; intros Hx; [inversion Hx|].
  cbn [list_index]. destruct (decide (x = y)) as [->|Hne]; [eexists; reflexivity|].
  apply elem_of_cons in Hx. destruct Hx as [->|Hx]; [congruence|].
  destruct (IH Hx) as [i ->]. eexists; reflexivity.
Qed.

Lemma previous_indices_pick (sel used : list article) :
  Forall (fun s => s ∈ sel) used ->
  map_exc (py_index sel) (previous_indices sel used) = Ok used.
Proof.
  induction 1 as [|s used Hs Hused IH]; [reflexivity|].
  unfold previous_indices in *. cbn [omap list_omap].
  destruct (list_index_elem s sel Hs) as [i Hi]. rewrite Hi. cbn [fmap option_fmap option_map].
  cbn [map_exc]. rewrite (py_index_nat sel i s (list_index_nth _ _ _ Hi)).
  cbn [mbind exc_bind]. rewrite IH. reflexivity.
Qed.

Lemma map_exc_py_index (sel : list article) (idxs : list Z) :
  Forall (fun i => 0 <= i < len sel) idxs ->
  exists docs,
    map_exc (py_index sel) idxs = Ok docs /\
    Forall2 (fun i a => 0 <= i < len sel /\ nth_error sel (Z.to_nat i) = Some a) idxs docs.
Proof.
  induction 1 as [|i idxs Hi Hrest IH]; [exists []; split; [reflexivity|constructor]|].
  destruct IH as [docs [Hdocs Hall]].
  destruct (nth_error sel (Z.to_nat i)) as [a|] eqn:Ha.
  2:{ apply nth_error_None in Ha. unfold len in Hi. lia. }
  exists (a :: docs). cbn [map_exc].
  rewrite <- (Z2Nat.id i) at 1 by lia. rewrite (py_index_nat sel _ a Ha).
  cbn [mbind exc_bind]. rewrite Hdocs. split; [reflexivity|].
  constructor; [split; assumption|assumption].
Qed.

Lemma py_index_elem {A} (l : list A) (i : Z) (a : A) :
  py_index l i = Ok a -> a ∈ l.
Proof.
  unfold py_index. cbv zeta.
  destruct (_ <? 0); [discriminate|].
  destruct (nth_error l _) as [x|] eqn:Hx; [|discriminate].
  intros [= <-]. apply list_elem_of_In. eapply nth_error_In. exact Hx.
Qed.

Lemma map_exc_py_index_elem {A} (l : list A) (idxs : list Z) (docs : list A) :
  map_exc (py_index l) idxs = Ok docs -> Forall (fun a => a ∈ l) docs.
Proof.
  revert docs. induction idxs as [|j idxs IH]; intros docs; cbn [map_exc].
  - intros [= <-]. constructor.
  - destruct (py_index l j) as [a|] eqn:Ha; [|discriminate]. cbn [mbind exc_bind].
    destruct (map_exc _ idxs) as [rest|]; [|discriminate]. cbn [mbind exc_bind].
    intros [= <-]. constructor; [eapply py_index_elem; exact Ha|apply IH; reflexivity].
Qed.

Lemma map_exc_raise {A B} (f : A -> exc B) (l : list A) (e : exception) :
  map_exc f l = Raise e -> exists x, x ∈ l /\ f x = Raise e.
Proof.
  induction l as [|a l IH]; cbn [map_exc]; [discriminate|].
  destruct (f a) as [b|e'] eqn:Ha; cbn [mbind exc_bind].
  - destruct (map_exc f l) as [bs|e'']; cbn [mbind exc_bind]; [discriminate|].
    intros [= ->]. destruct (IH eq_refl) as [x [Hx Hfx]].
    exists x. split; [right; exact Hx|exact Hfx].
  - intros [= ->]. exists a. split; [left|exact Ha].
Qed.

Lemma map_exc_length {A B} (f : A -> exc B) (l : list A) (bs : list B) :
  map_exc f l = Ok bs -> length bs = length l.
Proof.
  revert bs. induction l as [|a l IH]; intros bs; cbn [map_exc].
  - intros [= <-]. reflexivity.
  - destruct (f a) as [b|]; [|discriminate]. cbn [mbind exc_bind].
    destruct (map_exc f l) as [bs'|]; [|discriminate]. cbn [mbind exc_bind].
    intros [= <-]. simpl. f_equal. apply IH. reflexivity.
Qed.

Section UsedSourcesFacts.
Variable is_decimal : char -> bool.
Variable py_int : str -> option Z.

Lemma marker_indices_range (n : nat) (sources_str : str) (idxs : list Z) :
  marker_indices is_decimal py_int n sources_str = Ok idxs ->
  Forall (fun i => 0 <= i < Z.of_nat n) idxs.
Proof.
  unfold marker_indices. cbv zeta.
  destruct (map_exc _ _) as [ints|]; [|discriminate]. cbn [mbind exc_bind].
  intros [= <-]. apply Forall_forall. intros i Hi.
  apply list_elem_of_filter in Hi. tauto.
Qed.

Lemma marker_yield_range (n : nat) (response : str) :
  Forall (fun i => 0 <= i < Z.of_nat n) (marker_yield is_decimal py_int n response).
Proof.
  unfold marker_yield. destruct (contains _ _); [|constructor].
  destruct (marker_indices _ _ _ _) as [l|] eqn:E; [|constructor].
  eapply marker_indices_range. exact E.
Qed.

Lemma marker_absent_yield (n : nat) (response : str) :
  contains USED_SOURCES_MARKER response = false ->
  marker_yield is_decimal py_int n response = [].
Proof. intros H. unfold marker_yield. rewrite H. reflexivity. Qed.

(** What a node does with the marker: the indices it yields when there
    are some, the node's fallback otherwise. *)
Lemma parse_used_sources_yield (fallback : list Z) (n : nat) (response : str) :
  let used_indices := snd (parse_used_sources is_decimal py_int fallback n response) in
  let yield := marker_yield is_decimal py_int n response in
  (yield <> [] -> used_indices = yield) /\
  (yield = [] -> used_indices = fallback \/ used_indices = []).
Proof.
  cbv zeta. unfold parse_used_sources, marker_yield.
  destruct (contains _ _); cbn [snd]; [|split; [congruence|auto]].
  destruct (marker_indices _ _ _ _) as [l|]; cbn [try_except].
  - split; [reflexivity|]. intros ->. auto.
  - split; [congruence|auto].
Qed.



(** Article number [k] is the index [k - 1]: the indices in range of a
    list of numbers select the documents these numbers name. *)
Lemma numbered_documents_pick (sel : list article) (numbers : list Z) :
  map_exc (py_index sel)
    (filter (fun i => 0 <= i < Z.of_nat (length sel)) (map (fun k => k - 1) numbers))
  = Ok (numbered_documents sel numbers).
Proof.
  unfold numbered_documents, len. induction numbers as [|k numbers IH]; [reflexivity|].
  cbn [map omap list_omap]. rewrite filter_cons.
  destruct (decide (0 <= k - 1 < Z.of_nat (length sel))) as [Hk|Hk].
  - destruct (Z.leb_spec 1 k); [|lia].
    destruct (Z.leb_spec k (Z.of_nat (length sel))); [|lia]. cbn [andb].
    destruct (nth_error sel (Z.to_nat (k - 1))) as [a|] eqn:Ha.
    2:{ apply nth_error_None in Ha. lia. }
    cbn [map_exc]. rewrite <- (Z2Nat.id (k - 1)) at 1 by lia.
    rewrite (py_index_nat sel _ a Ha). cbn [mbind exc_bind]. rewrite IH. reflexivity.
  - destruct (Z.leb_spec 1 k), (Z.leb_spec k (Z.of_nat (length sel)));
      cbn [andb]; try exact IH. lia.
Qed.

(** Numbers that all name a document give these documents, one each,
    in the order of the numbers. *)
Lemma numbered_documents_valid (sel : list article) (numbers : list Z) :
  Forall (fun k => 1 <= k <= len sel) numbers ->
  Forall2 (fun k a => nth_error sel (Z.to_nat (k - 1)) = Some a)
          numbers (numbered_documents sel numbers).
Proof.
  unfold numbered_documents, len. induction 1 as [|k numbers Hk Hrest IH]; [constructor|].
  cbn [omap list_omap].
  destruct (Z.leb_spec 1 k); [|lia].
  destruct (Z.leb_spec k (Z.of_nat (length sel))); [|lia]. cbn [andb].
  destruct (nth_error sel (Z.to_nat (k - 1))) as [a|] eqn:Ha.
  2:{ apply nth_error_None in Ha. lia. }
  constructor; assumption.
Qed.

(** What a node makes of a response: the documents the marker names
    when it names some, [default] when it names none, and the
    documents of the node's fallback when the marker is absent or
    cannot be read. *)
Lemma pick_marker_documents (fallback : list Z) (sel default : list article)
    (response : str) :
  pick_sources sel
    (snd (parse_used_sources is_decimal py_int fallback (length sel) response)) default
  = match marker_documents is_decimal py_int sel response with
    | Some [] => Ok default
    | Some docs => Ok docs
    | None => pick_sources sel fallback default
    end.
Proof.
  unfold parse_used_sources, marker_documents.
  destruct (contains USED_SOURCES_MARKER response); [|reflexivity].
  cbv zeta. cbn [snd]. unfold marker_indices, numbers_in, marker_text. cbv zeta.
  destruct (map_exc (int_of py_int) _) as [numbers|e]; cbn [mbind exc_bind try_except];
    [|reflexivity].
  pose proof (numbered_documents_pick sel numbers) as Hpick.
  unfold pick_sources.
  destruct (filter _ (map _ numbers)) as [|i idxs] eqn:Hidxs.
  - cbn [map_exc] in Hpick. injection Hpick as <-. reflexivity.
  - rewrite Hpick. pose proof (map_exc_length _ _ _ Hpick) as Hlen.
    destruct (numbered_documents sel numbers); [discriminate Hlen|reflexivity].
Qed.


(** In the states the pipeline builds, the used sources are among the
    selected documents: drafting establishes it and revising keeps it.
    There, every fallback of a revision is the previous used sources
    as they are. *)
Lemma previous_sources_within (sel used : list article) :
  Forall (fun s => s ∈ sel) used -> previous_sources sel used = used.
Proof.
  intros Hin. unfold previous_sources.
  assert (Hall : filter (fun s => s ∈ sel) used = used).
  { induction Hin as [|s used Hs Hused IH]; [reflexivity|].
    rewrite filter_cons, decide_True by exact Hs. f_equal. exact IH. }
  rewrite Hall. destruct used; reflexivity.
Qed.

Lemma node_draft_used_among_selected (st st' : GraphState) (reply : str) :
  node_draft is_decimal py_int st reply = Ok st' ->
  selected st' = selected st /\
  Forall (fun s => s ∈ selected st') (used_sources st').
Proof.
  unfold node_draft. cbv zeta.
  destruct (known_format (output_format st)); cbn [negb]; [|discriminate].
  destruct (parse_used_sources _ _ _ _ _) as [body used_indices].
  destruct (pick_sources _ _ _) as [used|] eqn:Hpick; [|discriminate].
  cbn [mbind exc_bind]. intros [= <-]. cbn. split; [reflexivity|].
  unfold pick_sources in Hpick. destruct used_indices as [|i idxs].
  - injection Hpick as <-. apply Forall_forall. auto.
  - eapply map_exc_py_index_elem. exact Hpick.
Qed.

Lemma node_revise_used_among_selected (st st' : GraphState) (reply : str) :
  Forall (fun s => s ∈ selected st) (used_sources st) ->
  node_revise is_decimal py_int st reply = Ok st' ->
  selected st' = selected st /\
  Forall (fun s => s ∈ selected st') (used_sources st').
Proof.
  intros Hinv. unfold node_revise. cbv zeta.
  destruct (parse_used_sources _ _ _ _ _) as [improved used_indices].
  destruct (pick_sources _ _ _) as [used|] eqn:Hpick; [|discriminate].
  cbn [mbind exc_bind]. intros [= <-]. cbn. split; [reflexivity|].
  unfold pick_sources in Hpick. destruct used_indices as [|i idxs].
  - injection Hpick as <-. exact Hinv.
  - eapply map_exc_py_index_elem. exact Hpick.
Qed.
End UsedSourcesFacts.

(** ** C3: the verify/revise loop *)

(** The revise transition is taken exactly when there is a critique and
    the iteration count is below the cap. *)
Lemma should_continue_revise (st : GraphState) :
  should_continue st = revise <->
  truthy (critique st) = true /\ iteration st < max_iterations st.
Proof.
  unfold should_continue.
  destruct (truthy (critique st)); cbn [andb].
  - destruct (Z.ltb_spec (iteration st) (max_iterations st)); split;
      try discriminate; try tauto. intros [_ H']. lia.
  - split; [discriminate|]. intros [H' _]. discriminate.
Qed.

Lemma count_node_nil (n : node) : count_node n [] = O.
Proof. reflexivity. Qed.

Lemma count_node_cons (n m : node) (nodes : list node) :
  count_node n (m :: nodes)
  = ((if decide (m = n) then 1 else 0) + count_node n nodes)%nat.
Proof.
  unfold count_node. rewrite filter_cons. destruct (decide (m = n)); reflexivity.
Qed.

(** A run that ends at once, after one or two nodes. *)
Ltac ended_run :=
  cbn [fst snd]; rewrite ?count_node_cons, ?count_node_nil;
  repeat case_decide; try congruence;
  (split; [lia|]); (split; [lia|]); discriminate.

Section OrchestratorFacts.
Variable json_loads : str -> option json.
Variable str_lower : str -> str.
Variable is_decimal : char -> bool.
Variable py_int : str -> option Z.
Variable chat : nat -> exc str.

Lemma node_verify_counters (st st' : GraphState) (reply : str) :
  node_verify json_loads str_lower st reply = Ok st' ->
  iteration st' = iteration st /\ max_iterations st' = max_iterations st.
Proof.
  unfold node_verify. cbv zeta.
  destruct (py_get _ (lit "verdict")) as [v|]; [|discriminate]. cbn [mbind exc_bind].
  destruct (py_get _ (lit "critique")) as [c|]; [|discriminate]. cbn [mbind exc_bind].
  intros [= <-]. split; reflexivity.
Qed.

Lemma node_revise_counters (st st' : GraphState) (reply : str) :
  node_revise is_decimal py_int st reply = Ok st' ->
  iteration st' = iteration st + 1 /\ max_iterations st' = max_iterations st.
Proof.
  unfold node_revise. cbv zeta.
  destruct (parse_used_sources _ _ _ _ _) as [improved used_indices].
  destruct (pick_sources _ _ _) as [used|]; [|discriminate]. cbn [mbind exc_bind].
  intros [= <-]. split; reflexivity.
Qed.

Lemma verify_loop_bounded (fuel calls : nat) (st : GraphState) :
  let run := verify_loop json_loads str_lower is_decimal py_int chat fuel calls st in
  (count_node revise_node (fst run) <= revisions_left st)%nat /\
  (count_node verify_node (fst run) <= revisions_left st + 1)%nat /\
  ((revisions_left st < fuel)%nat -> snd run <> None).
Proof.
  cbv zeta. revert calls st. induction fuel as [|fuel IH]; intros calls st.
  - cbn [verify_loop fst snd]. rewrite !count_node_nil.
    split; [lia|]. split; [lia|]. intros Hf. exfalso. lia.
  - cbn [verify_loop].
    destruct (chat calls) as [reply|e]; cbn [mbind exc_bind]; [|ended_run].
    destruct (node_verify _ _ st reply) as [st1|e] eqn:Hv; [|ended_run].
    destruct (node_verify_counters _ _ _ Hv) as [Hi1 Hm1].
    destruct (should_continue st1) eqn:Hc; [|ended_run].
    apply should_continue_revise in Hc. destruct Hc as [_ Hlt].
    assert (Hleft : (0 < revisions_left st)%nat) by (unfold revisions_left; lia).
    destruct (chat (S calls)) as [reply2|e]; cbn [mbind exc_bind]; [|ended_run].
    destruct (node_revise _ _ st1 reply2) as [st2|e] eqn:Hr; [|ended_run].
    destruct (node_revise_counters _ _ _ Hr) as [Hi2 Hm2].
    specialize (IH (S (S calls)) st2).
    destruct (verify_loop _ _ _ _ _ fuel (S (S calls)) st2) as [nodes result].
    cbn [fst snd] in *.
    assert (Hdec : revisions_left st = S (revisions_left st2))
      by (unfold revisions_left; lia).
    destruct IH as [IHr [IHv IHt]].
    rewrite !count_node_cons.
    repeat case_decide; try congruence;
      (split; [lia|]); (split; [lia|]); intros Hf; apply IHt; lia.
Qed.

(** C3.  From a state with no revision made yet and a cap that is not
    negative, the loop ends within [max_iterations + 1] rounds, whatever
    the verifier and the reviser reply: it makes at most
    [max_iterations] revisions and at most [max_iterations + 1]
    verifications; and the revise transition is taken exactly when the
    critique is not empty and the iteration count is below the cap. *)
Theorem verify_loop_terminates (fuel calls : nat) (st : GraphState) :
  iteration st = 0 ->
  0 <= max_iterations st ->
  (Z.to_nat (max_iterations st) < fuel)%nat ->
  exists nodes result,
    verify_loop json_loads str_lower is_decimal py_int chat fuel calls st
    = (nodes, Some result) /\
    Z.of_nat (count_node revise_node nodes) <= max_iterations st /\
    Z.of_nat (count_node verify_node nodes) <= max_iterations st + 1 /\
    (forall s, should_continue s = revise <->
               truthy (critique s) = true /\ iteration s < max_iterations s).
Proof.
  intros Hit Hmax Hfuel.
  pose proof (verify_loop_bounded fuel calls st) as H. cbv zeta in H.
  destruct (verify_loop _ _ _ _ _ fuel calls st) as [nodes result].
  cbn [fst snd] in H. destruct H as [Hr [Hv Ht]].
  assert (Hleft : revisions_left st = Z.to_nat (max_iterations st))
    by (unfold revisions_left; rewrite Hit; f_equal; lia).
  rewrite Hleft in *.
  destruct result as [result|]; [|exfalso; apply Ht; [exact Hfuel|reflexivity]].
  exists nodes, result. split; [reflexivity|]. split; [lia|]. split; [lia|].
  apply should_continue_revise.
Qed.
End OrchestratorFacts.

(** ** C7: failures of the web search *)

Lemma slice_to_nil {A} (k : Z) : slice_to (@nil A) k = [].
Proof. unfold slice_to. destruct (0 <=? k); apply firstn_nil. Qed.

Lemma any_nonempty_all_empty {A} (buckets : list (list A)) :
  Forall (fun b => b = []) buckets -> any_nonempty buckets = false.
Proof.
  induction 1 as [|b buckets -> _ IH]; [reflexivity|]. exact IH.
Qed.

Lemma round_robin_all_empty (buckets : list (list article)) (max_results : Z) :
  Forall (fun b => b = []) buckets -> round_robin buckets max_results = [].
Proof.
  intros H. unfold round_robin. cbn [merge_rounds].
  rewrite (any_nonempty_all_empty buckets H), andb_false_r. reflexivity.
Qed.

(** The merge never stops for lack of rounds: past the longest bucket a
    round adds nothing, so one more round of fuel changes nothing. *)
Lemma merge_round_past_end (i : nat) (buckets : list (list article))
    (results : list article) (advanced : bool) (max_results : Z) :
  (list_max (map (@length article) buckets) <= i)%nat ->
  merge_round i buckets results advanced max_results = (results, advanced).
Proof.
  intros Hi. apply list_max_le in Hi. revert results advanced.
  induction buckets as [|b buckets IH]; intros results advanced; [reflexivity|].
  cbn [map] in Hi. apply List.Forall_cons_iff in Hi. destruct Hi as [Hb Hrest].
  cbn [merge_round].
  destruct (nth_error b i) as [x|] eqn:Hx.
  - assert (i < length b)%nat by (apply nth_error_Some; congruence). lia.
  - apply IH. exact Hrest.
Qed.

Lemma merge_rounds_enough (fuel i : nat) (buckets : list (list article))
    (results : list article) (max_results : Z) :
  (list_max (map (@length article) buckets) < i + fuel)%nat ->
  merge_rounds (S fuel) i buckets results max_results
  = merge_rounds fuel i buckets results max_results.
Proof.
  revert i results. induction fuel as [|fuel IH]; intros i results Hi.
  - cbn [merge_rounds]. destruct (_ && _); [|reflexivity].
    rewrite merge_round_past_end by lia. reflexivity.
  - change (merge_rounds (S (S fuel)) i buckets results max_results)
      with (if (len results <? max_results) && any_nonempty buckets
            then let '(results, advanced) :=
                   merge_round i buckets results false max_results in
                 if advanced
                 then merge_rounds (S fuel) (S i) buckets results max_results
                 else results
            else results).
    cbn [merge_rounds]. destruct (_ && _); [|reflexivity].
    destruct (merge_round i buckets results false max_results) as [r adv].
    destruct adv; [|reflexivity]. apply IH. lia.
Qed.

Lemma round_robin_more_fuel (extra : nat) (buckets : list (list article)) (max_results : Z) :
  merge_rounds (extra + S (list_max (map (@length article) buckets))) 0 buckets []
    max_results
  = round_robin buckets max_results.
Proof.
  unfold round_robin. induction extra as [|extra IH]; [reflexivity|].
  cbn [Nat.add]. rewrite merge_rounds_enough by lia. exact IH.
Qed.

Section WebSearchFacts.
Variable str_lower : str -> str.
Variable netloc : str -> str.
Variable path : str -> str.
Variable url_ok : str -> bool.
Variable now_iso : str.
Variable ddgs_new : option exception.
Variable ddgs_text : nat -> str -> str -> Z -> str -> exc (list web_result).

Lemma retry_backend_step (left : nat) (attempt retries max_results : Z)
    (query reg backend : str) (got : list article) (s : search_state) :
  retry_backend str_lower netloc path url_ok now_iso ddgs_text (S left) attempt retries
    max_results query reg backend got s
  = if (attempt <=? retries) && (len got <? max_results * 2) then
      match fetch_block str_lower netloc path url_ok now_iso ddgs_text
              query reg backend max_results s with
      | (Ok ((_ :: _) as chunk), s') => (got ++ chunk, s')
      | (_, s') =>
          retry_backend str_lower netloc path url_ok now_iso ddgs_text left
            (attempt + 1) retries max_results query reg backend got s'
      end
    else (got, s).
Proof. reflexivity. Qed.

(** The retry loop never stops for lack of attempts: once
    [attempt > retries] one more attempt of fuel changes nothing. *)
Lemma retry_backend_enough (left : nat) (attempt retries max_results : Z)
    (query reg backend : str) (got : list article) (s : search_state) :
  (Z.to_nat (retries - attempt + 1) <= left)%nat ->
  retry_backend str_lower netloc path url_ok now_iso ddgs_text (S left) attempt retries
    max_results query reg backend got s
  = retry_backend str_lower netloc path url_ok now_iso ddgs_text left attempt retries
      max_results query reg backend got s.
Proof.
  revert attempt s. induction left as [|left IH]; intros attempt s Hleft.
  - rewrite retry_backend_step. cbn [retry_backend].
    destruct (Z.leb_spec attempt retries); [lia|reflexivity].
  - rewrite (retry_backend_step (S left)), (retry_backend_step left).
    destruct (Z.leb_spec attempt retries) as [Hle|Hgt]; [|reflexivity].
    destruct (_ <? _); cbn [andb]; [|reflexivity].
    destruct (fetch_block _ _ _ _ _ _ _ _ _ _ _) as [[[|a chunk]|e] s'];
      [apply IH; lia|reflexivity|apply IH; lia].
Qed.

Lemma retry_backend_fails (left : nat) (attempt retries max_results : Z)
    (query reg backend : str) (got : list article) (s : search_state) :
  every_attempt_fails ddgs_text ->
  fst (retry_backend str_lower netloc path url_ok now_iso ddgs_text left attempt retries
         max_results query reg backend got s) = got.
Proof.
  intros Hfail. revert attempt s.
  induction left as [|left IH]; intros attempt s; [reflexivity|].
  cbn [retry_backend]. destruct (_ && _); [|reflexivity].
  unfold fetch_block. cbv zeta.
  specialize (Hfail (snd s) query reg (Z.max (max_results * 3) 15) backend).
  destruct (ddgs_text _ _ _ _ _) as [[|r rs]|e]; [| contradiction |]; cbn; apply IH.
Qed.

Lemma search_region_fails (backends : list str) (retries max_results : Z)
    (query reg : str) (got : list article) (s : search_state) :
  every_attempt_fails ddgs_text ->
  fst (search_region str_lower netloc path url_ok now_iso ddgs_text backends retries
         max_results query reg got s) = got.
Proof.
  intros Hfail. revert got s.
  induction backends as [|backend backends IH]; intros got s; [reflexivity|].
  cbn [search_region].
  pose proof (retry_backend_fails (Z.to_nat (retries + 1)) 0 retries max_results
                query reg backend got s Hfail) as Hr.
  destruct (retry_backend _ _ _ _ _ _ _ _ _ _ _ _ _ _ _) as [got' s'].
  cbn [fst] in Hr. subst got'. apply IH.
Qed.

Lemma search_regions_fail (regions backends : list str) (retries max_results : Z)
    (query : str) (buckets : list (list article)) (s : search_state) :
  every_attempt_fails ddgs_text ->
  Forall (fun b => b = []) buckets ->
  Forall (fun b => b = [])
    (search_regions str_lower netloc path url_ok now_iso ddgs_text regions backends retries
       max_results query buckets s).
Proof.
  intros Hfail. revert buckets s.
  induction regions as [|reg regions IH]; intros buckets s Hb; [exact Hb|].
  cbn [search_regions].
  pose proof (search_region_fails backends retries max_results query reg [] s Hfail) as Hr.
  destruct (search_region _ _ _ _ _ _ _ _ _ _ _ _ _) as [got s'].
  cbn [fst] in Hr. subst got. apply IH.
  apply Forall_app. split; [exact Hb|]. repeat constructor.
Qed.

Lemma search_companies_web_returns (terms : list str) (max_results : Z) (region : str)
    (global_mix : bool) (retries : Z) (backends : option (list str)) :
  exists results,
    search_companies_web str_lower netloc path url_ok now_iso ddgs_new ddgs_text
      terms max_results region global_mix retries backends = Ok results.
Proof. unfold search_companies_web. eexists. reflexivity. Qed.

Lemma search_companies_web_no_client (e : exception) (terms : list str)
    (max_results : Z) (region : str) (global_mix : bool) (retries : Z)
    (backends : option (list str)) :
  ddgs_new = Some e ->
  search_companies_web str_lower netloc path url_ok now_iso ddgs_new ddgs_text
    terms max_results region global_mix retries backends = Ok [].
Proof.
  intros H. unfold search_companies_web. rewrite H. cbn [try_except].
  rewrite slice_to_nil. reflexivity.
Qed.

Lemma search_companies_web_all_fail (terms : list str) (max_results : Z) (region : str)
    (global_mix : bool) (retries : Z) (backends : option (list str)) :
  every_attempt_fails ddgs_text ->
  search_companies_web str_lower netloc path url_ok now_iso ddgs_new ddgs_text
    terms max_results region global_mix retries backends = Ok [].
Proof.
  intros Hfail. unfold search_companies_web. cbv zeta.
  destruct ddgs_new; cbn [try_except]; [rewrite slice_to_nil; reflexivity|].
  rewrite round_robin_all_empty; [rewrite slice_to_nil; reflexivity|].
  apply search_regions_fail; [exact Hfail|constructor].
Qed.
End WebSearchFacts.

Lemma map_fst_imap {A B C} (f : nat -> A * B -> A * C) (l : list (A * B)) :
  (forall i e, fst (f i e) = fst e) -> map fst (imap f l) = map fst l.
Proof.
  revert f. induction l as [|e l IH]; intros f Hfst; [reflexivity|].
  cbn [imap map]. rewrite Hfst. f_equal. apply IH. intros i e'. apply Hfst.
Qed.

Section CompanyVerifierFacts.
Variable str_lower : str -> str.
Variable search : nat -> list str -> Z -> exc (list article).

(** The filter loop returns the documents the filter keeps when each of
    them has a title, and fails with [TypeError] otherwise. *)
Lemma keep_company_articles (topic company_name : str) (articles : list article) :
  let kept := omap (filter_company_article str_lower topic company_name) articles in
  (Forall (fun a => is_Some (title a)) kept ->
   exists ks, map_exc (keep_company_article str_lower topic company_name) articles = Ok ks /\
              omap id ks = kept) /\
  (~ Forall (fun a => is_Some (title a)) kept ->
   map_exc (keep_company_article str_lower topic company_name) articles = Raise TypeError).
Proof.
  cbv zeta. induction articles as [|a articles [IHok IHbad]].
  - split; [intros _; exists []; split; reflexivity|]. intros H. exfalso. apply H. constructor.
  - cbn [omap list_omap map_exc].
    assert (Hstep : keep_company_article str_lower topic company_name a
                    = match filter_company_article str_lower topic company_name a with
                      | Some k => match title k with
                                  | Some _ => Ok (Some k)
                                  | None => Raise TypeError
                                  end
                      | None => Ok None
                      end).
    { unfold keep_company_article, log_title.
      destruct (filter_company_article _ _ _ a) as [k|]; [destruct (title k)|];
        reflexivity. }
    rewrite Hstep. clear Hstep.
    destruct (filter_company_article str_lower topic company_name a) as [k|].
    2:{ cbn [mbind exc_bind]. split.
        - intros H. destruct (IHok H) as [ks [Hrun Hks]]. rewrite Hrun.
          cbn [mbind exc_bind]. exists (None :: ks). split; [reflexivity|exact Hks].
        - intros H. rewrite (IHbad H). reflexivity. }
    destruct (title k) as [t|] eqn:Ht; cbn [mbind exc_bind].
    + split.
      * intros H. apply Forall_cons in H. destruct H as [_ H].
        destruct (IHok H) as [ks [Hrun Hks]]. rewrite Hrun. cbn [mbind exc_bind].
        exists (Some k :: ks). split; [reflexivity|].
        cbn [omap list_omap id]. rewrite Hks. reflexivity.
      * intros H. rewrite IHbad; [reflexivity|].
        intros Hrest. apply H. constructor; [rewrite Ht; eexists; reflexivity|exact Hrest].
    + split; [|reflexivity].
      intros H. apply Forall_cons in H. destruct H as [[t Hsome] _]. congruence.
Qed.

Lemma node_search_companies_entries (company_focus : list (str * str))
    (topic : str) (terms : list str) :
  company_focus <> [] ->
  exists company_articles,
    node_search_companies str_lower search company_focus true topic terms
    = Ok company_articles /\
    map fst company_articles = map fst company_focus /\
    forall i company_name description,
      company_focus !! i = Some (company_name, description) ->
      let query := company_query str_lower topic terms company_name description in
      (forall e, search i [query] 5 = Raise e ->
                 company_articles !! i = Some (company_name, [])) /\
      (forall articles, search i [query] 5 = Ok articles ->
         let kept := omap (filter_company_article str_lower topic company_name) articles in
         (Forall (fun a => is_Some (title a)) kept ->
          company_articles !! i = Some (company_name, kept)) /\
         (~ Forall (fun a => is_Some (title a)) kept ->
          company_articles !! i = Some (company_name, []))).
Proof.
  intros Hne. unfold node_search_companies.
  destruct company_focus as [|entry rest] eqn:Hf; [congruence|].
  rewrite <- Hf. clear Hf Hne. cbn [negb]. eexists. split; [reflexivity|]. split.
  - apply map_fst_imap. reflexivity.
  - intros i company_name description Hi. cbv zeta.
    rewrite list_lookup_imap, Hi. cbn [fmap option_fmap option_map fst snd].
    unfold verify_company. cbv zeta.
    split.
    + intros e He. rewrite He. reflexivity.
    + intros articles Ha. rewrite Ha. cbn [mbind exc_bind].
      destruct (keep_company_articles topic company_name articles) as [Hok Hbad].
      split.
      * intros Htitled. destruct (Hok Htitled) as [ks [-> Hks]].
        cbn [mbind exc_bind try_except]. rewrite Hks. reflexivity.
      * intros Huntitled. rewrite (Hbad Huntitled). reflexivity.
Qed.
End CompanyVerifierFacts.

(** C7.  The provider aggregator never raises: it returns the empty
    list when the search client cannot be built and when every attempt
    on every backend fails.  The company verifier never raises either:
    every company gets an entry, whatever happened to the searches for
    the other companies.  The entry is the empty list when the search
    of the company raised, and also when a document that the filter
    keeps has no title, which the log statement of the filter loop
    cannot slice; otherwise it is the documents the filter keeps. *)
Theorem search_failures_are_absorbed :
  (forall (str_lower netloc path : str -> str) (url_ok : str -> bool) (now_iso : str)
          (ddgs_new : option exception)
          (ddgs_text : nat -> str -> str -> Z -> str -> exc (list web_result))
          (terms : list str) (max_results : Z) (region : str) (global_mix : bool)
          (retries : Z) (backends : option (list str)),
     let results :=
       search_companies_web str_lower netloc path url_ok now_iso ddgs_new ddgs_text
         terms max_results region global_mix retries backends in
     (exists docs, results = Ok docs) /\
     (ddgs_new <> None -> results = Ok []) /\
     (every_attempt_fails ddgs_text -> results = Ok [])) /\
  (forall (str_lower : str -> str) (search : nat -> list str -> Z -> exc (list article))
          (company_focus : list (str * str)) (topic : str) (terms : list str),
     company_focus <> [] ->
     exists company_articles,
       node_search_companies str_lower search company_focus true topic terms
       = Ok company_articles /\
       map fst company_articles = map fst company_focus /\
       forall i company_name description,
         company_focus !! i = Some (company_name, description) ->
         let query := company_query str_lower topic terms company_name description in
         (forall e, search i [query] 5 = Raise e ->
                    company_articles !! i = Some (company_name, [])) /\
         (forall articles, search i [query] 5 = Ok articles ->
            let kept :=
              omap (filter_company_article str_lower topic company_name) articles in
            (Forall (fun a => is_Some (title a)) kept ->
             company_articles !! i = Some (company_name, kept)) /\
            (~ Forall (fun a => is_Some (title a)) kept ->
             company_articles !! i = Some (company_name, [])))).
Proof.
  split.
  - intros. subst results. split; [apply search_companies_web_returns|]. split.
    + destruct ddgs_new as [e|] eqn:He; [|congruence]. intros _.
      eapply search_companies_web_no_client. reflexivity.
    + apply search_companies_web_all_fail.
  - intros. apply node_search_companies_entries. assumption.
Qed.

(** ** Worked examples *)

Lemma verify_loop_terminates_witness :
  exists nodes result,
    verify_loop sample_loads ascii_lower ascii_decimal ascii_int prose_chat 3 0 drafted_state
    = (nodes, Some result) /\
    Z.of_nat (count_node revise_node nodes) <= 2 /\
    Z.of_nat (count_node verify_node nodes) <= 2 + 1 /\
    (forall s, should_continue s = revise <->
               truthy (critique s) = true /\ iteration s < max_iterations s).
Proof.
  apply (verify_loop_terminates sample_loads ascii_lower ascii_decimal ascii_int
           prose_chat 3 0 drafted_state); [reflexivity|cbn; lia|cbn; lia].
Defined.

(** A verifier that never approves: two revisions, three verifications. *)
Example verify_loop_all_revise :
  fst (verify_loop sample_loads ascii_lower ascii_decimal ascii_int prose_chat 3 0
         drafted_state)
  = [verify_node; revise_node; verify_node; revise_node; verify_node].
Proof. vm_compute. reflexivity. Qed.


Example node_revise_marker :
  (used_sources <$>
   match node_revise ascii_decimal ascii_int drafted_state
           (lit "Better. USED_SOURCES: [3, 2, 7]") with
   | Ok st => Some st
   | Raise _ => None
   end)
  = Some [demo_source "http://a/3"; demo_source "http://a/2"].
Proof. vm_compute. reflexivity. Qed.

Lemma render_output_overrun_witness :
  let body := lit "hello" in
  let used := [demo_source "u"] in
  render_output body used (lit "markdown") 5 true true
  = lit "hello" ++ sources_markdown [lit "u"]
  /\ 5 < len (render_output body used (lit "markdown") 5 true true).
Proof.
  cbv zeta.
  destruct (render_output_overrun (lit "hello") [demo_source "u"] (lit "markdown") 5)
    as [_ H].
  destruct H as [Heq [_ Hlong]];
    [vm_compute; discriminate|reflexivity|vm_compute; discriminate|].
  split; [rewrite Heq; vm_compute; reflexivity|].
  apply Hlong. left. vm_compute. discriminate.
Defined.

Lemma search_failures_are_absorbed_witness :
  exists company_articles,
    node_search_companies ascii_lower flaky_search two_companies true (lit "gaming") []
    = Ok company_articles /\
    map fst company_articles = map fst two_companies /\
    forall i company_name description,
      two_companies !! i = Some (company_name, description) ->
      let query := company_query ascii_lower (lit "gaming") [] company_name description in
      (forall e, flaky_search i [query] 5 = Raise e ->
                 company_articles !! i = Some (company_name, [])) /\
      (forall articles, flaky_search i [query] 5 = Ok articles ->
         let kept :=
           omap (filter_company_article ascii_lower (lit "gaming") company_name) articles in
         (Forall (fun a => is_Some (title a)) kept ->
          company_articles !! i = Some (company_name, kept)) /\
         (~ Forall (fun a => is_Some (title a)) kept ->
          company_articles !! i = Some (company_name, []))).
Proof.
  apply (proj2 search_failures_are_absorbed ascii_lower flaky_search two_companies
           (lit "gaming") []).
  discriminate.
Defined.

(** The run goes on after the failed search: the first company gets the
    empty list, the second one its document, tagged as partly relevant. *)
Example node_search_companies_demo :
  node_search_companies ascii_lower flaky_search two_companies true (lit "gaming") []
  = Ok [(lit "Acme", []);
        (lit "Beta",
         [Article (Some (lit "Beta ships a game")) (Some (lit "http://b/1")) None None None
                  None (Some (lit "medium"))])].
Proof. vm_compute. reflexivity. Qed.

(** A document that is kept but has no title empties the entry of its
    company: the log statement of the filter loop fails on it, inside
    the [try]. *)
Example node_search_companies_untitled :
  omap (filter_company_article ascii_lower (lit "gaming") (lit "Beta")) [untitled_news]
  = [untitled_news]
  /\ node_search_companies ascii_lower untitled_search
       [(lit "Beta", lit "Cloud gaming studio")] true (lit "gaming") []
     = Ok [(lit "Beta", [])].
Proof. split; vm_compute; reflexivity. Qed.

(** * Further properties of the pipeline *)

(** ** Stripping *)

Lemma lstrip_suffix (s : str) : exists pre, s = pre ++ lstrip s.
Proof.
  induction s as [|c s [pre IH]]; [exists []; reflexivity|].
  cbn [lstrip]. destruct (is_space c).
  - exists (c :: pre). cbn. f_equal. exact IH.
  - exists []. reflexivity.
Qed.

Lemma rstrip_prefix (s : str) : exists post, s = rstrip s ++ post.
Proof.
  unfold rstrip. destruct (lstrip_suffix (rev s)) as [pre H].
  exists (rev pre). rewrite <- rev_app_distr, <- H, rev_involutive. reflexivity.
Qed.

Lemma strip_infix (s : str) : exists pre post, s = pre ++ strip s ++ post.
Proof.
  unfold strip. destruct (lstrip_suffix s) as [pre Hpre].
  destruct (rstrip_prefix (lstrip s)) as [post Hpost].
  exists pre, post. rewrite <- Hpost. exact Hpre.
Qed.

Lemma lstrip_starts_clean (s : str) : starts_clean (lstrip s).
Proof.
  induction s as [|c s IH]; [exact I|].
  cbn [lstrip]. destruct (is_space c) eqn:Hc; [exact IH|exact Hc].
Qed.

Lemma lstrip_clean (s : str) : starts_clean s -> lstrip s = s.
Proof. destruct s as [|c s]; [reflexivity|]. cbn. intros ->. reflexivity. Qed.

Lemma rstrip_starts_clean (s : str) : starts_clean s -> starts_clean (rstrip s).
Proof.
  intros Hs. destruct (rstrip_prefix s) as [post H].
  destruct (rstrip s) as [|c r]; [exact I|].
  rewrite H in Hs. exact Hs.
Qed.

Lemma rstrip_idempotent (s : str) : rstrip (rstrip s) = rstrip s.
Proof.
  unfold rstrip. rewrite rev_involutive.
  rewrite (lstrip_clean (lstrip (rev s))) by apply lstrip_starts_clean. reflexivity.
Qed.

Lemma strip_idempotent (s : str) : strip (strip s) = strip s.
Proof.
  unfold strip.
  rewrite (lstrip_clean (rstrip (lstrip s)))
    by apply rstrip_starts_clean, lstrip_starts_clean.
  apply rstrip_idempotent.
Qed.

(** ** Truncation, again *)

(** X1.  Truncation is stable for every budget, positive or not:
    truncating a truncated text to the same budget changes nothing. *)
Theorem truncate_under_idempotent (text : str) (max_chars : Z) :
  truncate_under (truncate_under text max_chars) max_chars
  = truncate_under text max_chars.
Proof.
  destruct (Z.le_gt_cases max_chars 0) as [Hle|Hpos].
  - rewrite !truncate_under_nonpositive by exact Hle. reflexivity.
  - apply truncate_under_fits. apply truncate_under_length. lia.
Qed.

(** X2.  What a cut leaves: when the text is longer than a positive
    budget, the result is a contiguous piece of the text, at most
    [max_chars - 1] characters long, with no whitespace at either end. *)
Theorem truncate_under_cut (text : str) (max_chars : Z) :
  0 < max_chars -> max_chars < len text ->
  let cut := truncate_under text max_chars in
  len cut <= max_chars - 1 /\
  strip cut = cut /\
  exists before after, text = before ++ cut ++ after.
Proof.
  intros Hpos Hlong. cbv zeta.
  split; [apply truncate_under_cut_length; assumption|].
  unfold truncate_under.
  destruct (Z.leb_spec max_chars 0); [lia|].
  destruct (Z.leb_spec (len text) max_chars); [lia|].
  cbv zeta.
  set (trimmed := firstn (Z.to_nat (max_chars - 1)) text).
  set (last_end := fold_left _ _ _).
  assert (Hpiece : forall n, exists before after,
             text = before ++ strip (firstn n trimmed) ++ after).
  { intros n. destruct (strip_infix (firstn n trimmed)) as [pre [post Hs]].
    exists pre, (post ++ skipn n trimmed ++ skipn (Z.to_nat (max_chars - 1)) text).
    rewrite <- (firstn_skipn (Z.to_nat (max_chars - 1)) text) at 1. fold trimmed.
    rewrite <- (firstn_skipn n trimmed) at 1. rewrite Hs at 1.
    rewrite <- !app_assoc. reflexivity. }
  destruct (_ && _).
  - split; [apply strip_idempotent|apply Hpiece].
  - split; [apply strip_idempotent|].
    specialize (Hpiece (length trimmed)). rewrite firstn_all in Hpiece. exact Hpiece.
Qed.

Lemma truncate_under_cut_witness :
  let cut := truncate_under (lit "  One. Two three four") 12 in
  len cut <= 12 - 1 /\
  strip cut = cut /\
  exists before after, lit "  One. Two three four" = before ++ cut ++ after.
Proof.
  apply (truncate_under_cut (lit "  One. Two three four") 12); vm_compute; reflexivity.
Defined.

(** ** Rendering with links outside the budget *)

(** X3.  With [links_in_char_limit=false] and a positive budget, the
    rendered draft is a body of at most [max_chars] characters followed
    by the whole block of source links (no block when links are not
    included, when no used source has a URL, or for an unknown format):
    the links are appended after the cut and never counted. *)
Theorem render_output_links_uncounted (body : str) (used : list article) (fmt : str)
    (max_chars : Z) (include_sources : bool) :
  0 < max_chars ->
  exists kept,
    render_output body used fmt max_chars include_sources false
    = kept ++ (if include_sources && negb (bool_decide (urls_of used = []))
                  && known_format fmt
               then sources_section fmt (urls_of used) else []) /\
    len kept <= max_chars.
Proof.
  intros Hpos.
  destruct (known_format fmt) eqn:Hk.
  2:{ rewrite render_output_unknown_format by assumption.
      rewrite andb_false_r. exists (truncate_under (strip body) max_chars).
      split; [rewrite app_nil_r; reflexivity|].
      apply truncate_under_length. exact Hpos. }
  rewrite andb_true_r.
  destruct (include_sources && negb (bool_decide (urls_of used = []))) eqn:Hs.
  - apply andb_true_iff in Hs. destruct Hs as [-> Hne].
    apply negb_true_iff, bool_decide_eq_false in Hne.
    rewrite render_output_sources by assumption.
    unfold with_sources. eexists. split; [reflexivity|].
    match goal with |- len (?f (truncate_under ?b _)) <= _ =>
      pose proof (truncate_under_length b max_chars Hpos) as Hb end.
    destruct (str_eqb fmt (lit "markdown")); [|exact Hb].
    match goal with |- len (rstrip ?x) <= _ => pose proof (rstrip_length x) end.
    unfold len in *. lia.
  - rewrite render_output_no_sources by assumption.
    eexists. split; [rewrite app_nil_r; reflexivity|].
    apply truncate_under_length. exact Hpos.
Qed.

Lemma render_output_links_uncounted_witness :
  exists kept,
    render_output (lit "One. Two. Three. Four. Five. Six.") [demo_source "http://a.b/c"]
      (lit "text") 20 true false
    = kept ++ (if true && negb (bool_decide (urls_of [demo_source "http://a.b/c"] = []))
                  && known_format (lit "text")
               then sources_section (lit "text") (urls_of [demo_source "http://a.b/c"])
               else []) /\
    len kept <= 20.
Proof.
  apply (render_output_links_uncounted _ _ _ 20 true). lia.
Defined.

(** ** HTML paragraphs *)

Lemma replace_newlines (new s : str) :
  NL ∉ new -> NL ∉ replace_from [NL] new s 0.
Proof.
  intros Hnew. induction s as [|c s IH]; [apply not_elem_of_nil|].
  cbn [replace_from starts_with]. unfold NL in *.
  destruct (N.eqb_spec 10 c) as [<-|Hc]; cbn [andb length Nat.pred].
  - intros Hin. apply elem_of_app in Hin. tauto.
  - intros Hin. apply elem_of_cons in Hin. destruct Hin as [Hin|Hin]; [congruence|tauto].
Qed.

(** X4.  The HTML body has no raw newline: inside a paragraph every
    newline has become [<br/>], and blank lines only separate
    paragraphs. *)
Theorem html_paragraphs_no_newline (body : str) : NL ∉ html_paragraphs body.
Proof.
  unfold html_paragraphs. cbv zeta.
  match goal with |- NL ∉ concat (map _ ?l) => generalize l end.
  intros parts. induction parts as [|p parts IH]; [apply not_elem_of_nil|].
  cbn [map concat]. intros Hin.
  rewrite !elem_of_app in Hin. destruct Hin as [[Hin|[Hin|Hin]]|Hin].
  - vm_compute in Hin. repeat (apply elem_of_cons in Hin; destruct Hin as [Hin|Hin];
                                [discriminate Hin|]). inversion Hin.
  - revert Hin. apply replace_newlines. vm_compute. intros Hin.
    repeat (apply elem_of_cons in Hin; destruct Hin as [Hin|Hin]; [discriminate Hin|]).
    inversion Hin.
  - vm_compute in Hin. repeat (apply elem_of_cons in Hin; destruct Hin as [Hin|Hin];
                                [discriminate Hin|]). inversion Hin.
  - apply IH. exact Hin.
Qed.

(** ** Sanitising plain text *)

Lemma sub_from_skip (pat : list atom) (repl : list str -> str) (s : str) (k : nat) :
  sub_from pat repl s k = sub_from pat repl (skipn k s) 0.
Proof.
  revert k. induction s as [|c s IH]; intros [|k]; try reflexivity.
  cbn [sub_from skipn]. apply IH.
Qed.

Lemma starts_with_app (p s t : str) :
  starts_with p s = true -> starts_with p (s ++ t) = true.
Proof.
  revert s. induction p as [|a p IH]; intros [|b s]; cbn; try discriminate; auto.
  intros H. apply andb_true_iff in H. destruct H as [-> H]. cbn. apply IH. exact H.
Qed.

Lemma contains_app_r (n a b : str) : contains n (a ++ b) = false -> contains n b = false.
Proof.
  induction a as [|c a IH]; [auto|].
  cbn [app contains]. intros H. apply orb_false_iff in H. apply IH. tauto.
Qed.

Lemma contains_app_l (n a b : str) : contains n (a ++ b) = false -> contains n a = false.
Proof.
  induction a as [|c a IH].
  - cbn [app]. intros H. destruct b as [|c b]; cbn [contains] in *.
    + exact H.
    + apply orb_false_iff in H. destruct H as [H _]. rewrite orb_false_r.
      destruct n; [discriminate H|reflexivity].
  - cbn [app contains]. intros H. apply orb_false_iff in H. destruct H as [Hs Hc].
    apply orb_false_iff. split; [|apply IH; exact Hc].
    destruct (starts_with n (c :: a)) eqn:E; [|reflexivity].
    apply (starts_with_app _ _ b) in E. cbn [app] in E. congruence.
Qed.

Lemma contains_strip (n s : str) : contains n s = false -> contains n (strip s) = false.
Proof.
  intros H. destruct (strip_infix s) as [pre [post E]]. rewrite E in H.
  apply contains_app_r in H. apply contains_app_l in H. exact H.
Qed.

Lemma match_here_blank (s : str) :
  match_here BLANK_LINES_RE s
  = if (3 <=? run_len (N.eqb NL) s)%nat
    then Some [firstn (run_len (N.eqb NL) s) s] else None.
Proof.
  unfold BLANK_LINES_RE. cbn [match_here a_min]. unfold atom_hi. cbn [a_max a_cls].
  destruct (run_len (N.eqb NL) s) as [|[|[|n]]]; reflexivity.
Qed.

Lemma run_len_bound (p : char -> bool) (s : str) : (run_len p s <= length s)%nat.
Proof. induction s as [|c s IH]; cbn; [lia|]. destruct (p c); cbn; lia. Qed.

Lemma run_len_skipn (p : char -> bool) (s : str) : run_len p (skipn (run_len p s) s) = O.
Proof.
  induction s as [|c s IH]; [reflexivity|].
  cbn [run_len]. destruct (p c) eqn:Hc; cbn [skipn run_len]; [exact IH|].
  rewrite Hc. reflexivity.
Qed.

Lemma starts_with_blank_run (s : str) :
  starts_with BLANK_RUN s = (3 <=? run_len (N.eqb NL) s)%nat.
Proof.
  unfold BLANK_RUN.
  destruct s as [|a [|b [|c s]]]; cbn [starts_with run_len];
    repeat (match goal with |- context [(NL =? ?x)%N] => destruct (NL =? x)%N end;
            cbn [andb run_len]); reflexivity.
Qed.

(** After the substitution no run of newlines is longer than two. *)
Lemma blank_lines_collapsed (n : nat) (s : str) :
  (length s <= n)%nat ->
  let out := re_sub BLANK_LINES_RE (fun _ => [NL; NL]) s in
  (run_len (N.eqb NL) out <= Nat.min 2 (run_len (N.eqb NL) s))%nat /\
  contains BLANK_RUN out = false.
Proof.
  revert s. induction n as [|n IH]; intros s Hn; cbv zeta.
  - destruct s; [|cbn in Hn; lia]. split; reflexivity.
  - destruct s as [|c s]; [split; reflexivity|].
    unfold re_sub. cbn [sub_from]. rewrite match_here_blank.
    destruct (Nat.leb_spec 3 (run_len (N.eqb NL) (c :: s))) as [Hrun|Hrun].
    + pose proof (run_len_bound (N.eqb NL) (c :: s)) as Hb.
      pose proof (run_len_skipn (N.eqb NL) (c :: s)) as Hzero.
      unfold match_len. cbn [concat]. rewrite app_nil_r, length_firstn.
      rewrite Nat.min_l by exact Hb.
      remember (run_len (N.eqb NL) (c :: s)) as r eqn:Hr.
      destruct r as [|k]; [lia|]. cbn [skipn] in Hzero.
      rewrite sub_from_skip.
      assert (Hlen : (length (skipn k s) <= n)%nat).
      { rewrite length_skipn. cbn [length] in *. lia. }
      destruct (IH (skipn k s) Hlen) as [Hlead Hnone]. unfold re_sub in *.
      rewrite Hzero in Hlead.
      assert (Hl0 : run_len (N.eqb NL)
                      (sub_from BLANK_LINES_RE (fun _ => [NL; NL]) (skipn k s) 0) = O)
        by lia.
      split.
      * cbn [app run_len]. rewrite N.eqb_refl. rewrite Hl0. lia.
      * cbn [app contains]. rewrite !starts_with_blank_run. cbn [run_len].
        rewrite N.eqb_refl, Hl0, Hnone. reflexivity.
    + assert (Hlen : (length s <= n)%nat) by (cbn in Hn; lia).
      destruct (IH s Hlen) as [Hlead Hnone]. unfold re_sub in *.
      cbn [run_len] in *. destruct (N.eqb NL c) eqn:Hc.
      * split; [lia|]. cbn [contains]. rewrite starts_with_blank_run.
        cbn [run_len]. rewrite Hc, Hnone.
        destruct (Nat.leb_spec 3 (S (run_len (N.eqb NL)
                   (sub_from BLANK_LINES_RE (fun _ => [NL; NL]) s 0)))); [lia|reflexivity].
      * split; [lia|]. cbn [contains]. rewrite starts_with_blank_run.
        cbn [run_len]. rewrite Hc, Hnone. reflexivity.
Qed.

(** X5.  Sanitised text has no whitespace at either end and never more
    than one blank line in a row. *)
Theorem sanitize_plain_tidy (text : str) :
  strip (sanitize_plain text) = sanitize_plain text /\
  contains BLANK_RUN (sanitize_plain text) = false.
Proof.
  unfold sanitize_plain. cbv zeta. split; [apply strip_idempotent|].
  apply contains_strip.
  match goal with |- contains _ (re_sub _ _ ?s) = _ =>
    apply (blank_lines_collapsed (length s) s (Nat.le_refl _)) end.
Qed.

Lemma match_here_first_fails (a : atom) (pat : list atom) (c : char) (s : str) :
  (1 <= a_min a)%nat -> a_cls a c = false -> match_here (a :: pat) (c :: s) = None.
Proof.
  intros Hmin Hc. cbn [match_here]. unfold atom_hi. cbn [run_len]. rewrite Hc.
  replace (match a_max a with Some m => Nat.min m 0 | None => O end) with O
    by (destruct (a_max a); [rewrite Nat.min_0_r|]; reflexivity).
  destruct (a_min a) as [|m]; [lia|]. reflexivity.
Qed.

Lemma sub_from_untouched (a : atom) (pat : list atom) (repl : list str -> str) (s : str) :
  (1 <= a_min a)%nat ->
  Forall (fun c => a_cls a c = false) s ->
  re_sub (a :: pat) repl s = s.
Proof.
  intros Hmin. unfold re_sub. induction 1 as [|c s Hc Hs IH]; [reflexivity|].
  cbn [sub_from]. rewrite match_here_first_fails by assumption.
  f_equal. exact IH.
Qed.

Lemma blank_lines_untouched (repl : list str -> str) (s : str) :
  contains BLANK_RUN s = false -> re_sub BLANK_LINES_RE repl s = s.
Proof.
  unfold re_sub. induction s as [|c s IH]; [reflexivity|].
  cbn [contains]. intros H. apply orb_false_iff in H. destruct H as [Hs Hc].
  cbn [sub_from]. rewrite match_here_blank.
  rewrite starts_with_blank_run in Hs. rewrite Hs. f_equal. apply IH. exact Hc.
Qed.

(** X6.  Text without markdown characters ([[], [*], [_], [`]) and
    without a run of three newlines comes out of [sanitize_plain] as it
    went in, apart from the whitespace stripped at both ends. *)
Theorem sanitize_plain_plain_text (text : str) :
  Forall (fun c => is_markup c = false) text ->
  contains BLANK_RUN text = false ->
  sanitize_plain text = strip text.
Proof.
  intros Hplain Hblank. unfold sanitize_plain. cbv zeta.
  unfold MD_LINK_RE, EMPHASIS_RE, CODE_RE.
  rewrite (sub_from_untouched _ _ md_link_url text); [|cbn; lia|].
  2:{ eapply Forall_impl; [exact Hplain|]. intros c Hc.
      unfold chr, one. cbn [a_cls]. unfold is_markup in Hc.
      rewrite !orb_false_iff in Hc. destruct Hc as [[[Hc _] _] _].
      rewrite N.eqb_sym. exact Hc. }
  rewrite (sub_from_untouched _ _ group1 text); [|cbn; lia|].
  2:{ eapply Forall_impl; [exact Hplain|]. intros c Hc.
      cbn [a_cls]. unfold is_markup, is_emph in *.
      rewrite !orb_false_iff in Hc. rewrite orb_false_iff. tauto. }
  rewrite (sub_from_untouched _ _ group1 text); [|cbn; lia|].
  2:{ eapply Forall_impl; [exact Hplain|]. intros c Hc.
      unfold chr, one. cbn [a_cls]. unfold is_markup in Hc.
      rewrite !orb_false_iff in Hc. destruct Hc as [_ Hc].
      rewrite N.eqb_sym. exact Hc. }
  rewrite blank_lines_untouched by exact Hblank. reflexivity.
Qed.

Lemma sanitize_plain_plain_text_witness :
  sanitize_plain (lit "  Markets rose. Rates fell.  ") = strip (lit "  Markets rose. Rates fell.  ").
Proof.
  apply sanitize_plain_plain_text; [|vm_compute; reflexivity].
  vm_compute. repeat constructor.
Defined.

(** ** Drafting and verifying *)

Section DraftAndVerify.
Variable json_loads : str -> option json.
Variable str_lower : str -> str.
Variable is_decimal : char -> bool.
Variable py_int : str -> option Z.

Lemma pick_all_candidates (sel : list article) :
  pick_sources sel (candidates (length sel)) sel = Ok sel.
Proof.
  unfold pick_sources, candidates.
  destruct (map Z.of_nat (seq 0 (length sel))) eqn:E.
  - reflexivity.
  - rewrite <- E. rewrite map_exc_first_candidates by lia.
    cbn [skipn]. rewrite firstn_all. reflexivity.
Qed.

(** X7.  A draft fails only with [KeyError], and exactly when the
    output format is none of [text], [markdown] and [html]: whatever
    the backend replies, no reply makes it fail.  It leaves the
    selection, the critique and the iteration count alone.  When the
    [USED_SOURCES:] marker names documents (article number [k] is the
    [k]-th selected document), they are the used sources, in the order
    of the marker; when it is absent, cannot be read or names no
    document, every selected document counts as used. *)
Theorem node_draft_used_sources (st : GraphState) (reply : str) :
  match node_draft is_decimal py_int st reply with
  | Ok st' =>
      known_format (output_format st) = true /\
      selected st' = selected st /\
      iteration st' = iteration st /\
      critique st' = critique st /\
      used_sources st'
      = match marker_documents is_decimal py_int (selected st) (strip reply) with
        | Some [] | None => selected st
        | Some docs => docs
        end
  | Raise e => e = KeyError /\ known_format (output_format st) = false
  end.
Proof.
  unfold node_draft. cbv zeta.
  destruct (known_format (output_format st)); cbn [negb]; [|split; reflexivity].
  pose proof (pick_marker_documents is_decimal py_int (candidates (length (selected st)))
                (selected st) (selected st) (strip reply)) as Hpick.
  destruct (parse_used_sources _ _ _ _ _) as [body used_indices]. cbn [snd] in Hpick.
  rewrite Hpick.
  destruct (marker_documents _ _ _ _) as [[|d docs]|]; cbn [mbind exc_bind].
  - repeat split.
  - repeat split.
  - rewrite pick_all_candidates. cbn [mbind exc_bind]. repeat split.
Qed.

Lemma node_verify_outcome (st : GraphState) (reply : str) :
  match node_verify json_loads str_lower st reply with
  | Ok st' =>
      (critique st' = None \/ truthy (critique st') = true) /\
      post st' = post st /\ used_sources st' = used_sources st /\
      selected st' = selected st /\ iteration st' = iteration st /\
      max_iterations st' = max_iterations st
  | Raise e =>
      e = AttributeError /\ forall fields, extract_json json_loads reply <> JObj fields
  end.
Proof.
  unfold node_verify. cbv zeta.
  destruct (extract_json json_loads reply) as [| | | | | |fields];
    cbn [py_get mbind exc_bind]; try (split; [reflexivity|discriminate]).
  cbn [critique post used_sources selected iteration max_iterations].
  split; [|repeat split].
  destruct (match assoc (lit "verdict") fields with
            | Some (JStr s) => str_eqb (str_lower (strip s)) (lit "approve")
            | _ => false
            end); [left; reflexivity|right].
  destruct (match assoc (lit "critique") fields with
            | Some (JStr s) => Some s
            | _ => None
            end) as [[|c s]|]; reflexivity.
Qed.

(** X8.  Verification touches nothing but the critique, and never
    leaves an empty one: afterwards the critique is [None] (approved) or
    a non-empty text (the verifier's, or the default one).  It fails only
    with [AttributeError], when the reply decodes to something that is
    not an object. *)
Theorem node_verify_critique (st : GraphState) (reply : str) :
  match node_verify json_loads str_lower st reply with
  | Ok st' =>
      (critique st' = None \/ truthy (critique st') = true) /\
      post st' = post st /\ used_sources st' = used_sources st /\
      selected st' = selected st /\ iteration st' = iteration st /\
      max_iterations st' = max_iterations st
  | Raise e =>
      e = AttributeError /\ forall fields, extract_json json_loads reply <> JObj fields
  end.
Proof. apply node_verify_outcome. Qed.
End DraftAndVerify.

(** ** The loop as a whole *)

(** Revising cannot fail in a state whose used sources are selected
    documents. *)
Lemma node_revise_total (is_decimal : char -> bool) (py_int : str -> option Z)
    (st : GraphState) (reply : str) :
  Forall (fun s => s ∈ selected st) (used_sources st) ->
  exists st', node_revise is_decimal py_int st reply = Ok st'.
Proof.
  intros Hinv. unfold node_revise. cbv zeta.
  pose proof (parse_used_sources_yield is_decimal py_int
                (previous_indices (selected st) (used_sources st))
                (length (selected st)) (strip reply)) as Hparse.
  cbv zeta in Hparse.
  destruct (parse_used_sources _ _ _ _ _) as [improved used_indices]. cbn [snd] in Hparse.
  destruct Hparse as [Hsome Hnone].
  pose proof (marker_yield_range is_decimal py_int (length (selected st)) (strip reply))
    as Hrange.
  assert (Hpick : exists used,
             pick_sources (selected st) used_indices (used_sources st) = Ok used).
  { destruct (marker_yield _ _ _ _) as [|i y].
    - destruct (Hnone eq_refl) as [->| ->]; [|eexists; reflexivity].
      unfold pick_sources. destruct (previous_indices _ _) eqn:Hp; [eexists; reflexivity|].
      rewrite <- Hp. rewrite previous_indices_pick by exact Hinv. eexists; reflexivity.
    - rewrite Hsome by discriminate.
      destruct (map_exc_py_index (selected st) (i :: y) Hrange) as [docs [Hdocs _]].
      unfold pick_sources. rewrite Hdocs. eexists; reflexivity. }
  destruct Hpick as [used ->]. cbn [mbind exc_bind]. eexists. reflexivity.
Qed.


Lemma same_run_refl (st : GraphState) : same_run st st.
Proof. repeat split. Qed.

Lemma same_run_trans (a b c : GraphState) : same_run a b -> same_run b c -> same_run a c.
Proof.
  unfold same_run. intros [? [? [? [? [? ?]]]]] [? [? [? [? [? ?]]]]].
  repeat split; congruence.
Qed.

Section LoopFacts.
Variable json_loads : str -> option json.
Variable str_lower : str -> str.
Variable is_decimal : char -> bool.
Variable py_int : str -> option Z.
Variable chat : nat -> exc str.

Lemma node_verify_same_run (st st' : GraphState) (reply : str) :
  node_verify json_loads str_lower st reply = Ok st' -> same_run st st'.
Proof.
  unfold node_verify. cbv zeta.
  destruct (py_get _ (lit "verdict")) as [v|]; [|discriminate]. cbn [mbind exc_bind].
  destruct (py_get _ (lit "critique")) as [c|]; [|discriminate]. cbn [mbind exc_bind].
  intros [= <-]. repeat split.
Qed.

Lemma node_revise_same_run (st st' : GraphState) (reply : str) :
  node_revise is_decimal py_int st reply = Ok st' -> same_run st st'.
Proof.
  unfold node_revise. cbv zeta.
  destruct (parse_used_sources _ _ _ _ _) as [improved used_indices].
  destruct (pick_sources _ _ _) as [used|]; [|discriminate]. cbn [mbind exc_bind].
  intros [= <-]. repeat split.
Qed.

(** X9.  How the loop ends.  A run that finishes does so in a state
    that [should_continue] sends to [finish]: approved (no critique), or
    with the iteration count at or past the cap, the last critique still
    attached.  Every revision was followed by a verification, the
    iteration count grew by the number of revisions, and the
    configuration and the selection are those of the start. *)
Theorem verify_loop_finish (fuel calls : nat) (st st' : GraphState) (nodes : list node) :
  verify_loop json_loads str_lower is_decimal py_int chat fuel calls st
  = (nodes, Some (Ok st')) ->
  should_continue st' = finish /\
  (critique st' = None \/
   truthy (critique st') = true /\ max_iterations st' <= iteration st') /\
  iteration st' = iteration st + Z.of_nat (count_node revise_node nodes) /\
  count_node verify_node nodes = S (count_node revise_node nodes) /\
  same_run st st'.
Proof.
  revert calls st nodes. induction fuel as [|fuel IH]; intros calls st nodes;
    cbn [verify_loop]; [discriminate|].
  destruct (chat calls) as [reply|e]; cbn [mbind exc_bind]; [|discriminate].
  pose proof (node_verify_outcome json_loads str_lower st reply) as Hv.
  destruct (node_verify _ _ st reply) as [st1|e] eqn:Hv1; [|discriminate].
  destruct Hv as [Hcrit [_ [_ [_ [Hit _]]]]].
  pose proof (node_verify_same_run _ _ _ Hv1) as Hsame1.
  destruct (should_continue st1) eqn:Hc.
  - destruct (chat (S calls)) as [reply2|e]; cbn [mbind exc_bind]; [|discriminate].
    destruct (node_revise _ _ st1 reply2) as [st2|e] eqn:Hr; [|discriminate].
    destruct (node_revise_counters _ _ _ _ _ Hr) as [Hit2 _].
    pose proof (node_revise_same_run _ _ _ Hr) as Hsame2.
    specialize (IH (S (S calls)) st2).
    destruct (verify_loop _ _ _ _ _ fuel (S (S calls)) st2) as [nodes' result].
    intros [= <- ->]. destruct (IH nodes' eq_refl) as [Hfin [Hc' [Hcount [Hv' Hsame]]]].
    rewrite !count_node_cons. repeat case_decide; try congruence.
    split; [exact Hfin|]. split; [exact Hc'|]. split; [lia|]. split; [lia|].
    eapply same_run_trans; [exact Hsame1|]. eapply same_run_trans; eassumption.
  - intros [= <- <-]. rewrite !count_node_cons, !count_node_nil.
    repeat case_decide; try congruence.
    split; [exact Hc|]. split.
    + destruct Hcrit as [Hnone|Htruthy]; [left; exact Hnone|right].
      split; [exact Htruthy|].
      unfold should_continue in Hc. rewrite Htruthy in Hc. cbn [andb] in Hc.
      destruct (Z.ltb_spec (iteration st1) (max_iterations st1)); [discriminate|lia].
    + split; [lia|]. split; [reflexivity|exact Hsame1].
Qed.

(** X10.  In a state whose used sources are among the selected
    documents, revising never fails: a run ends in a state with the same
    property, or with an error raised by the chat backend itself, or
    with the [AttributeError] of a verification whose reply is not an
    object. *)
Theorem verify_loop_failures (fuel calls : nat) (st : GraphState) :
  Forall (fun s => s ∈ selected st) (used_sources st) ->
  match snd (verify_loop json_loads str_lower is_decimal py_int chat fuel calls st) with
  | Some (Ok st') => Forall (fun s => s ∈ selected st') (used_sources st')
  | Some (Raise e) => e = AttributeError \/ exists n, chat n = Raise e
  | None => True
  end.
Proof.
  revert calls st. induction fuel as [|fuel IH]; intros calls st Hinv;
    cbn [verify_loop]; [exact I|].
  destruct (chat calls) as [reply|e] eqn:Hchat; cbn [mbind exc_bind];
    [|cbn [snd]; right; exists calls; exact Hchat].
  pose proof (node_verify_outcome json_loads str_lower st reply) as Hv.
  destruct (node_verify _ _ st reply) as [st1|e];
    [|cbn [snd]; left; apply Hv].
  destruct Hv as [_ [_ [Hused [Hsel _]]]].
  assert (Hinv1 : Forall (fun s => s ∈ selected st1) (used_sources st1))
    by (rewrite Hused, Hsel; exact Hinv).
  destruct (should_continue st1); [|exact Hinv1].
  destruct (chat (S calls)) as [reply2|e] eqn:Hchat2; cbn [mbind exc_bind];
    [|cbn [snd]; right; exists (S calls); exact Hchat2].
  destruct (node_revise_total is_decimal py_int st1 reply2 Hinv1) as [st2 Hr].
  rewrite Hr.
  destruct (node_revise_used_among_selected _ _ _ _ _ Hinv1 Hr) as [_ Hinv2].
  specialize (IH (S (S calls)) st2 Hinv2).
  destruct (verify_loop _ _ _ _ _ fuel (S (S calls)) st2) as [nodes' result].
  exact IH.
Qed.
End LoopFacts.

Lemma verify_loop_finish_witness :
  exists nodes st',
    verify_loop sample_loads ascii_lower ascii_decimal ascii_int prose_chat 3 0 drafted_state
    = (nodes, Some (Ok st')) /\
    should_continue st' = finish /\
    (critique st' = None \/
     truthy (critique st') = true /\ max_iterations st' <= iteration st') /\
    iteration st' = iteration drafted_state + Z.of_nat (count_node revise_node nodes) /\
    count_node verify_node nodes = S (count_node revise_node nodes) /\
    same_run drafted_state st'.
Proof.
  eexists. eexists.
  assert (H : forall x y,
             verify_loop sample_loads ascii_lower ascii_decimal ascii_int prose_chat 3 0
               drafted_state = (x, Some (Ok y)) ->
             verify_loop sample_loads ascii_lower ascii_decimal ascii_int prose_chat 3 0
               drafted_state = (x, Some (Ok y)) /\
             should_continue y = finish /\
             (critique y = None \/
              truthy (critique y) = true /\ max_iterations y <= iteration y) /\
             iteration y = iteration drafted_state + Z.of_nat (count_node revise_node x) /\
             count_node verify_node x = S (count_node revise_node x) /\
             same_run drafted_state y).
  { intros x y E. split; [exact E|].
    exact (verify_loop_finish sample_loads ascii_lower ascii_decimal ascii_int prose_chat
             3 0 drafted_state y x E). }
  apply H. vm_compute. reflexivity.
Defined.

Lemma verify_loop_failures_witness :
  match snd (verify_loop sample_loads ascii_lower ascii_decimal ascii_int prose_chat 3 0
               drafted_state) with
  | Some (Ok st') => Forall (fun s => s ∈ selected st') (used_sources st')
  | Some (Raise e) => e = AttributeError \/ exists n, prose_chat n = Raise e
  | None => True
  end.
Proof.
  apply (verify_loop_failures sample_loads ascii_lower ascii_decimal ascii_int prose_chat
           3 0 drafted_state).
  vm_compute. repeat constructor.
Defined.

(** ** Deduplication, again *)

Section KeepFirstMore.
Context {A : Type} (key : A -> option str).

Lemma keep_first_sublist (seen : gset str) (l : list A) :
  keep_first key seen l `sublist_of` l.
Proof.
  revert seen. induction l as [|x l IH]; intros seen; cbn [keep_first];
    [apply sublist_nil_l|].
  destruct (key x) as [k|]; [|apply sublist_cons, IH].
  case_bool_decide; [apply sublist_cons, IH|apply sublist_skip, IH].
Qed.

Lemma keep_first_complete (seen : gset str) (l : list A) (x : A) (k : str) :
  x ∈ l -> key x = Some k ->
  k ∈ seen \/ k ∈ omap key (keep_first key seen l).
Proof.
  revert seen. induction l as [|y l IH]; intros seen Hx Hk; [inversion Hx|].
  cbn [keep_first]. apply elem_of_cons in Hx. destruct Hx as [->|Hx].
  - rewrite Hk. case_bool_decide as Hin; [left; exact Hin|right].
    cbn [omap list_omap]. rewrite Hk. left.
  - destruct (key y) as [k'|] eqn:Hy; [|apply IH; assumption].
    case_bool_decide as Hin; [apply IH; assumption|].
    destruct (IH ({[k']} ∪ seen) Hx Hk) as [Hs|Hr].
    + apply elem_of_union in Hs. destruct Hs as [Hs|Hs]; [|left; exact Hs].
      apply elem_of_singleton in Hs. subst k'. right.
      cbn [omap list_omap]. rewrite Hy. left.
    + right. cbn [omap list_omap]. rewrite Hy. right. exact Hr.
Qed.

Lemma fresh_keys_NoDup (seen : gset str) (l : list A) :
  fresh_keys key seen l ->
  NoDup (omap key l) /\ Forall (fun k => k ∉ seen) (omap key l) /\
  length (omap key l) = length l.
Proof.
  revert seen. induction l as [|x l IH]; intros seen; cbn [fresh_keys].
  - intros _. split; [constructor|]. split; [constructor|reflexivity].
  - destruct (key x) as [k|] eqn:Hk; [|contradiction].
    intros [Hout Hl]. destruct (IH _ Hl) as [Hnd [Hfresh Hlen]].
    cbn [omap list_omap]. rewrite Hk. cbn [length].
    rewrite Forall_forall in Hfresh.
    split; [|split; [|f_equal; exact Hlen]].
    + constructor; [|exact Hnd]. intros Hin. apply (Hfresh k Hin).
      apply elem_of_union. left. apply elem_of_singleton. reflexivity.
    + constructor; [exact Hout|]. apply Forall_forall. intros k' Hk' Hs.
      apply (Hfresh k' Hk'). apply elem_of_union. right. exact Hs.
Qed.

Lemma fresh_keys_app (seen : gset str) (l1 l2 : list A) :
  fresh_keys key seen l1 ->
  fresh_keys key (list_to_set (omap key l1) ∪ seen) l2 ->
  fresh_keys key seen (l1 ++ l2).
Proof.
  revert seen. induction l1 as [|x l1 IH]; intros seen; cbn [fresh_keys app].
  - intros _ H. eapply fresh_keys_mono; [|exact H]. apply union_subseteq_r.
  - destruct (key x) as [k|] eqn:Hk; [|contradiction].
    intros [Hout Hl1] Hl2. split; [exact Hout|]. apply IH; [exact Hl1|].
    eapply fresh_keys_mono; [|exact Hl2].
    cbn [omap list_omap]. rewrite Hk. rewrite list_to_set_cons.
    intros z Hz. rewrite !elem_of_union in Hz. rewrite !elem_of_union. tauto.
Qed.
End KeepFirstMore.

Lemma url_key_some (a : article) (u : str) :
  url_key a = Some u -> url a = Some u /\ truthy (url a) = true.
Proof.
  unfold url_key. destruct (truthy (url a)) eqn:Ht; [|discriminate].
  intros Hu. split; [exact Hu|reflexivity].
Qed.

Lemma fresh_url_keys (seen : gset str) (l : list article) :
  fresh_keys url_key seen l ->
  map url l = map Some (omap url_key l) /\ Forall (fun a => truthy (url a) = true) l.
Proof.
  revert seen. induction l as [|a l IH]; intros seen; cbn [fresh_keys];
    [intros _; split; [reflexivity|constructor]|].
  cbn [map omap list_omap].
  destruct (url_key a) as [u|] eqn:Hk; [|contradiction].
  destruct (url_key_some a u Hk) as [Hu Ht].
  intros [_ Hl]. destruct (IH _ Hl) as [Hmap Hall].
  cbn [map]. rewrite Hmap, Hu. split; [reflexivity|].
  constructor; [exact Ht|exact Hall].
Qed.

(** X11.  What [unique_by_url] keeps: a sub-list of the documents, in
    their order, each with a non-empty URL, no two with the same URL;
    and no URL is lost: every non-empty URL of the input is the URL of a
    document kept. *)
Theorem unique_by_url_distinct (items : list article) :
  let kept := unique_by_url items in
  kept `sublist_of` items /\
  Forall (fun a => truthy (url a) = true) kept /\
  NoDup (map url kept) /\
  forall a, a ∈ items -> truthy (url a) = true -> url a ∈ map url kept.
Proof.
  cbv zeta. rewrite unique_by_url_keep_first.
  pose proof (keep_first_fresh url_key ∅ items) as Hfresh.
  destruct (fresh_url_keys _ _ Hfresh) as [Hmap Htruthy].
  destruct (fresh_keys_NoDup url_key _ _ Hfresh) as [Hnd _].
  split; [apply keep_first_sublist|]. split; [exact Htruthy|]. split.
  - rewrite Hmap. apply (NoDup_fmap_2 Some). exact Hnd.
  - intros a Ha Ht. rewrite Hmap.
    destruct (url a) as [u|] eqn:Hu; [|discriminate].
    assert (Hk : url_key a = Some u) by (unfold url_key; rewrite Hu, Ht; reflexivity).
    destruct (keep_first_complete url_key ∅ items a u Ha Hk) as [Hs|Hr];
      [apply not_elem_of_empty in Hs; contradiction|].
    apply list_elem_of_In, in_map, list_elem_of_In. exact Hr.
Qed.

(** ** The candidate pool of the selector *)

Lemma add_company_articles_added (company_name : str) (comp_arts all_articles : list article) :
  exists added,
    add_company_articles company_name comp_arts all_articles = all_articles ++ added /\
    Forall (fun a => exists art, art ∈ comp_arts /\ a = tagged company_name art /\
                     truthy (url a) = true /\ url a ∉ map url all_articles) added /\
    NoDup (map url added) /\
    (length added <= length comp_arts)%nat.
Proof.
  revert all_articles.
  induction comp_arts as [|art rest IH]; intros all_articles; cbn [add_company_articles].
  - exists []. rewrite app_nil_r. repeat split; constructor.
  - fold (tagged company_name art).
    destruct (truthy (url art)) eqn:Ht; cbn [andb].
    2:{ destruct (IH all_articles) as [added [Heq [Hall [Hnd Hlen]]]].
        exists added. split; [exact Heq|]. split; [|split; [exact Hnd|simpl; lia]].
        eapply Forall_impl; [exact Hall|]. intros a [art' [Hin Ha]].
        exists art'. split; [right; exact Hin|exact Ha]. }
    case_bool_decide as Hin; cbn [negb].
    + destruct (IH all_articles) as [added [Heq [Hall [Hnd Hlen]]]].
      exists added. split; [exact Heq|]. split; [|split; [exact Hnd|simpl; lia]].
      eapply Forall_impl; [exact Hall|]. intros a [art' [Hin' Ha]].
      exists art'. split; [right; exact Hin'|exact Ha].
    + destruct (IH (all_articles ++ [tagged company_name art]))
        as [added [Heq [Hall [Hnd Hlen]]]].
      exists (tagged company_name art :: added).
      split; [rewrite Heq, <- app_assoc; reflexivity|].
      assert (Hnew : Forall (fun a => (url a ∉ map url all_articles) /\ url a <> url art) added).
      { eapply Forall_impl; [exact Hall|]. intros a [_ [_ [_ [_ Hout]]]].
        rewrite map_app in Hout. cbn [map tagged url] in Hout.
        split; intros Hbad; apply Hout; apply elem_of_app;
          [left; exact Hbad|right; rewrite Hbad; left]. }
      split; [|split; [|simpl; lia]].
      * constructor.
        -- exists art. split; [left|]. split; [reflexivity|]. split; [exact Ht|exact Hin].
        -- rewrite Forall_forall in Hall, Hnew. apply Forall_forall. intros a Ha.
           destruct (Hall a Ha) as [art' [Hin' [Heq' [Ht' _]]]].
           exists art'. split; [right; exact Hin'|]. split; [exact Heq'|].
           split; [exact Ht'|apply (Hnew a Ha)].
      * cbn [map tagged url]. constructor; [|exact Hnd].
        intros Hbad. apply list_elem_of_In, in_map_iff in Hbad.
        destruct Hbad as [a [Hurl Ha]]. apply list_elem_of_In in Ha.
        rewrite Forall_forall in Hnew. destruct (Hnew a Ha) as [_ Hne]. congruence.
Qed.

(** X12.  The pool [node_rank] ranks is the main documents, in place,
    followed by documents of the company searches: each of them one of
    the first two documents of a company, tagged with that company, with
    a non-empty URL that no main document has; no two of them share a
    URL, and there are at most two per company. *)
Theorem candidate_pool_added (articles : list article)
    (company_articles : list (str * list article)) :
  exists added,
    candidate_pool articles company_articles = articles ++ added /\
    Forall (fun a => truthy (url a) = true /\ (url a ∉ map url articles) /\
                     exists company_name comp_arts art,
                       (company_name, comp_arts) ∈ company_articles /\
                       art ∈ firstn 2 comp_arts /\ a = tagged company_name art) added /\
    NoDup (map url added) /\
    (length added <= 2 * length company_articles)%nat.
Proof.
  unfold candidate_pool. revert articles.
  induction company_articles as [|[company_name comp_arts] rest IH]; intros articles;
    cbn [fold_left fst snd].
  - exists []. rewrite app_nil_r. repeat split; constructor.
  - destruct (add_company_articles_added company_name (firstn 2 comp_arts) articles)
      as [first [Heq1 [Hall1 [Hnd1 Hlen1]]]].
    rewrite Heq1.
    destruct (IH (articles ++ first)) as [more [Heq2 [Hall2 [Hnd2 Hlen2]]]].
    exists (first ++ more). split; [rewrite Heq2, <- app_assoc; reflexivity|].
    rewrite Forall_forall in Hall1, Hall2.
    split; [|split].
    + apply Forall_forall. intros a Ha. apply elem_of_app in Ha.
      destruct Ha as [Ha|Ha].
      * destruct (Hall1 a Ha) as [art [Hin [Htag [Ht Hout]]]].
        split; [exact Ht|]. split; [exact Hout|].
        exists company_name, comp_arts, art. split; [left|]. split; assumption.
      * destruct (Hall2 a Ha) as [Ht [Hout [name [arts [art [Hin [Hart Htag]]]]]]].
        split; [exact Ht|]. split.
        -- intros Hbad. apply Hout. rewrite map_app. apply elem_of_app. left. exact Hbad.
        -- exists name, arts, art. split; [right; exact Hin|]. split; assumption.
    + rewrite map_app. apply NoDup_app. split; [exact Hnd1|]. split; [|exact Hnd2].
      intros u Hu1 Hu2. apply list_elem_of_In, in_map_iff in Hu2.
      destruct Hu2 as [a [Hurl Ha]]. apply list_elem_of_In in Ha.
      destruct (Hall2 a Ha) as [_ [Hout _]]. apply Hout.
      rewrite map_app. apply elem_of_app. right. rewrite Hurl. exact Hu1.
    + rewrite length_app. rewrite length_take in Hlen1. simpl length. lia.
Qed.

(** ** What the selector returns *)

Section SelectionOutcome.
Variable json_loads : str -> option json.
Variable str_isdigit : str -> bool.
Variable py_int : str -> option Z.

Lemma to_int_raises (i : json) (e : exception) :
  to_int py_int i = Raise e -> e = ValueError.
Proof.
  destruct i as [|b|n|f|s|items|fields]; cbn [to_int]; try congruence.
  destruct (py_int s); congruence.
Qed.

Lemma picked_indices_raises (n : nat) (raw : str) (e : exception) :
  picked_indices json_loads str_isdigit py_int n raw = Raise e ->
  (e = AttributeError /\ forall fields, extract_json json_loads raw <> JObj fields) \/
  e = ValueError.
Proof.
  unfold picked_indices. cbv zeta.
  destruct (extract_json json_loads raw) as [|b|z|f|s|items|fields];
    cbn [py_get mbind exc_bind];
    try (intros [= <-]; left; split; [reflexivity|discriminate]).
  destruct (map_exc _ _) as [l|e'] eqn:Hl; cbn [mbind exc_bind]; [discriminate|].
  intros [= ->]. right.
  destruct (map_exc_raise _ _ _ Hl) as [i [_ Hi]]. eapply to_int_raises. exact Hi.
Qed.

Lemma repair_indices_range (n : nat) (top_k : Z) (idxs : list Z) :
  Forall (fun i => 0 <= i < Z.of_nat n) idxs ->
  Forall (fun i => 0 <= i < Z.of_nat n) (repair_indices n top_k idxs).
Proof.
  intros Hrange. unfold repair_indices, slice_to.
  destruct (len idxs <? top_k).
  - apply Forall_app. split; [exact Hrange|].
    apply Forall_take, Forall_forall. intros i Hi.
    apply list_elem_of_filter in Hi. destruct Hi as [_ Hi].
    apply candidates_range. exact Hi.
  - destruct (0 <=? top_k); apply Forall_take; exact Hrange.
Qed.

(** X13.  [node_rank] selects documents of its pool only, at the
    indices it settled on, never out of range: a negative or oversized
    [top_k] raises no [IndexError].  It selects exactly [top_k]
    documents when the pool has that many.  It raises [RuntimeError]
    exactly when there is no main document; otherwise only the
    [AttributeError] of a reply that is not an object and the
    [ValueError] of a digit string [int] rejects.  The documents of the
    pool are taken to have a title: the last statement of the function
    logs the first sixty characters of the title of every selected
    document, which is an error for a title that is [None]. *)
Theorem node_rank_selection (articles : list article)
    (company_articles : list (str * list article)) (top_k : Z) (raw : str) :
  let pool := candidate_pool articles company_articles in
  Forall (fun a => is_Some (title a)) pool ->
  match node_rank json_loads str_isdigit py_int articles company_articles top_k raw with
  | Ok selected =>
      articles <> [] /\
      (exists idxs,
         rank_indices json_loads str_isdigit py_int (length pool) top_k raw = Ok idxs /\
         Forall2 (fun i a => 0 <= i < len pool /\ nth_error pool (Z.to_nat i) = Some a)
                 idxs selected) /\
      Forall (fun a => a ∈ pool) selected /\
      (0 <= top_k <= len pool -> len selected = top_k)
  | Raise e =>
      (articles = [] /\ e = RuntimeError (lit "No articles found for the given filters.")) \/
      (articles <> [] /\
       ((e = AttributeError /\ forall fields, extract_json json_loads raw <> JObj fields) \/
        e = ValueError))
  end.
Proof.
  cbv zeta. intros Htitles.
  destruct articles as [|a0 articles]; [left; split; reflexivity|].
  unfold node_rank. set (pool := candidate_pool (a0 :: articles) company_articles) in *.
  unfold rank_indices.
  destruct (picked_indices json_loads str_isdigit py_int (length pool) raw)
    as [picked|e] eqn:Hp; cbn [mbind exc_bind].
  2:{ right. split; [discriminate|]. eapply picked_indices_raises. exact Hp. }
  pose proof (picked_indices_range _ _ _ _ _ _ Hp) as Hrange.
  pose proof (repair_indices_range (length pool) top_k picked Hrange) as Hrep.
  destruct (map_exc_py_index pool _ Hrep) as [docs [Hdocs Hall]].
  rewrite Hdocs. cbn [mbind exc_bind].
  pose proof (map_exc_py_index_elem _ _ _ Hdocs) as Hmembers.
  destruct (map_exc_log_title docs) as [ts Hts].
  { eapply Forall_impl; [exact Hmembers|]. intros a Ha.
    rewrite Forall_forall in Htitles. apply Htitles. exact Ha. }
  rewrite Hts. cbn [mbind exc_bind].
  split; [discriminate|]. split; [|split].
  - eexists. split; [reflexivity|exact Hall].
  - eapply map_exc_py_index_elem. exact Hdocs.
  - intros Hk. unfold len. rewrite (map_exc_length _ _ _ Hdocs).
    rewrite repair_indices_split by lia. apply padding_length. exact Hk.
Qed.
End SelectionOutcome.

Lemma node_rank_selection_witness :
  let pool := candidate_pool titled_articles [] in
  match node_rank sample_loads ascii_isdigit ascii_int titled_articles [] 2 reply_prose with
  | Ok selected =>
      titled_articles <> [] /\
      (exists idxs,
         rank_indices sample_loads ascii_isdigit ascii_int (length pool) 2 reply_prose
         = Ok idxs /\
         Forall2 (fun i a => 0 <= i < len pool /\ nth_error pool (Z.to_nat i) = Some a)
                 idxs selected) /\
      Forall (fun a => a ∈ pool) selected /\
      (0 <= 2 <= len pool -> len selected = 2)
  | Raise e =>
      (titled_articles = [] /\
       e = RuntimeError (lit "No articles found for the given filters.")) \/
      (titled_articles <> [] /\
       ((e = AttributeError /\
         forall fields, extract_json sample_loads reply_prose <> JObj fields) \/
        e = ValueError))
  end.
Proof.
  apply (node_rank_selection sample_loads ascii_isdigit ascii_int titled_articles [] 2
           reply_prose).
  repeat constructor; eexists; reflexivity.
Defined.

(** ** The round-robin merge *)

Lemma merge_round_column (i : nat) (buckets : list (list article)) (results : list article)
    (advanced : bool) (max_results : Z) :
  merge_round i buckets results advanced max_results
  = (results ++ take (Z.to_nat (Z.max 1 (max_results - len results))) (column i buckets),
     advanced || negb (bool_decide (column i buckets = []))).
Proof.
  revert results advanced.
  induction buckets as [|b rest IH]; intros results advanced;
    cbn [merge_round column omap list_omap].
  - rewrite take_nil, app_nil_r, orb_false_r. reflexivity.
  - fold (column i rest). destruct (nth_error b i) as [x|]; [|apply IH].
    cbv zeta.
    assert (Hlen : len (results ++ [x]) = len results + 1)
      by (unfold len; rewrite length_app; simpl; lia).
    rewrite bool_decide_eq_false_2 by discriminate. cbn [negb]. rewrite orb_true_r.
    destruct (Z.leb_spec max_results (len (results ++ [x]))) as [Hfull|Hmore].
    + replace (Z.to_nat (Z.max 1 (max_results - len results))) with 1%nat by lia.
      simpl. rewrite take_0. reflexivity.
    + rewrite IH, Hlen. cbn [orb].
      replace (Z.to_nat (Z.max 1 (max_results - len results)))
        with (S (Z.to_nat (Z.max 1 (max_results - (len results + 1))))) by lia.
      simpl. rewrite <- app_assoc. reflexivity.
Qed.

Lemma column_all_empty {A} (buckets : list (list A)) (j : nat) :
  any_nonempty buckets = false -> column j buckets = [].
Proof.
  unfold any_nonempty, column. induction buckets as [|b rest IH]; [reflexivity|].
  cbn [existsb omap list_omap]. case_bool_decide as Hb; cbn [negb orb]; [|discriminate].
  subst b. intros Hrest. destruct j; cbn [nth_error]; apply IH; exact Hrest.
Qed.

Lemma column_past_end {A} (buckets : list (list A)) (i j : nat) :
  column i buckets = [] -> (i <= j)%nat -> column j buckets = [].
Proof.
  unfold column. intros Hi Hij. induction buckets as [|b rest IH]; [reflexivity|].
  cbn [omap list_omap] in *.
  destruct (nth_error b i) as [x|] eqn:Hx; [discriminate|].
  apply nth_error_None in Hx.
  assert (Hj : nth_error b j = None) by (apply nth_error_None; lia).
  rewrite Hj. apply IH. exact Hi.
Qed.

Lemma column_beyond {A} (buckets : list (list A)) (n : nat) :
  Forall (fun b => (length b <= n)%nat) buckets -> column n buckets = [].
Proof.
  unfold column. induction 1 as [|b rest Hb Hrest IH]; [reflexivity|].
  cbn [omap list_omap].
  assert (Hn : nth_error b n = None) by (apply nth_error_None; lia).
  rewrite Hn. exact IH.
Qed.

Lemma columns_empty {A} (buckets : list (list A)) (l : list nat) :
  (forall j, j ∈ l -> column j buckets = []) ->
  concat (map (fun j => column j buckets) l) = [].
Proof.
  induction l as [|j l IH]; intros Hl; [reflexivity|].
  cbn [map concat]. rewrite (Hl j) by left. apply IH.
  intros j' Hj'. apply Hl. right. exact Hj'.
Qed.

Lemma merge_rounds_columns (fuel i : nat) (buckets : list (list article))
    (results : list article) (max_results : Z) :
  merge_rounds fuel i buckets results max_results
  = results ++ take (Z.to_nat (max_results - len results))
                 (concat (map (fun j => column j buckets) (seq i fuel))).
Proof.
  revert i results. induction fuel as [|fuel IH]; intros i results;
    cbn [merge_rounds seq map concat].
  - rewrite take_nil, app_nil_r. reflexivity.
  - destruct (Z.ltb_spec (len results) max_results) as [Hroom|Hfull]; cbn [andb].
    2:{ replace (Z.to_nat (max_results - len results)) with O by lia.
        rewrite take_0, app_nil_r. reflexivity. }
    destruct (any_nonempty buckets) eqn:Hany.
    2:{ rewrite (column_all_empty buckets i Hany).
        rewrite columns_empty by (intros j _; apply column_all_empty; exact Hany).
        cbn [app]. rewrite take_nil, app_nil_r. reflexivity. }
    rewrite merge_round_column. cbn [orb].
    replace (Z.max 1 (max_results - len results)) with (max_results - len results) by lia.
    case_bool_decide as Hcol; cbn [negb].
    + rewrite Hcol, take_nil, app_nil_r. cbn [app].
      rewrite columns_empty; [rewrite take_nil, app_nil_r; reflexivity|].
      intros j Hj. apply list_elem_of_In, in_seq in Hj.
      apply (column_past_end buckets i j Hcol). lia.
    + rewrite IH, <- app_assoc. f_equal.
      rewrite take_app. f_equal. f_equal.
      unfold len. rewrite length_app, length_take. lia.
Qed.

Lemma lengths_below_max {A} (buckets : list (list A)) :
  Forall (fun b => (length b <= list_max (map (@length A) buckets))%nat) buckets.
Proof.
  pose proof (proj1 (list_max_le (map (@length A) buckets) _) (Nat.le_refl _)) as H.
  apply Forall_map in H. exact H.
Qed.

Lemma take_S_nth_error {A} (l : list A) (n : nat) (x : A) :
  nth_error l n = Some x -> take (S n) l = take n l ++ [x].
Proof.
  revert n. induction l as [|a l IH]; intros [|n]; cbn [nth_error]; try discriminate.
  - intros [= ->]. reflexivity.
  - intros Hx. cbn [take app]. simpl. f_equal. apply IH. exact Hx.
Qed.

Lemma take_columns {A} (b : list A) (n : nat) :
  concat (map (fun i => option_list (nth_error b i)) (seq 0 n)) = take n b.
Proof.
  induction n as [|n IH]; [reflexivity|].
  rewrite seq_S, map_app, concat_app, IH. cbn [map concat Nat.add]. rewrite app_nil_r.
  destruct (nth_error b n) as [x|] eqn:Hx; cbn [option_list].
  - symmetry. apply take_S_nth_error. exact Hx.
  - apply nth_error_None in Hx. rewrite app_nil_r, !take_ge by lia. reflexivity.
Qed.

Lemma concat_map_app {A B} (f g : A -> list B) (l : list A) :
  concat (map (fun i => f i ++ g i) l) ≡ₚ concat (map f l) ++ concat (map g l).
Proof.
  induction l as [|a l IH]; [reflexivity|].
  cbn [map concat]. rewrite IH. rewrite <- !app_assoc.
  apply Permutation_app_head. rewrite !app_assoc.
  apply Permutation_app_tail. apply Permutation_app_comm.
Qed.

Lemma columns_permutation {A} (buckets : list (list A)) (n : nat) :
  Forall (fun b => (length b <= n)%nat) buckets ->
  concat (map (fun i => column i buckets) (seq 0 n)) ≡ₚ concat buckets.
Proof.
  induction 1 as [|b rest Hb Hrest IH].
  - rewrite columns_empty by reflexivity. reflexivity.
  - assert (Heq : map (fun i => column i (b :: rest)) (seq 0 n)
                  = map (fun i => option_list (nth_error b i) ++ column i rest) (seq 0 n)).
    { apply map_ext. intros i. unfold column. cbn [omap list_omap].
      destruct (nth_error b i); reflexivity. }
    rewrite Heq, concat_map_app, take_columns, take_ge, IH by lia. reflexivity.
Qed.

Lemma round_robin_take (buckets : list (list article)) (max_results : Z) :
  round_robin buckets max_results = take (Z.to_nat max_results) (interleave buckets).
Proof.
  unfold round_robin, interleave. rewrite merge_rounds_columns. cbn [app].
  rewrite seq_S, map_app, concat_app. cbn [map concat Nat.add].
  rewrite (column_beyond buckets _ (lengths_below_max buckets)), !app_nil_r.
  f_equal. unfold len. simpl. lia.
Qed.

Lemma interleave_permutation {A} (buckets : list (list A)) :
  interleave buckets ≡ₚ concat buckets.
Proof. apply columns_permutation, lengths_below_max. Qed.

(** X14.  The round-robin merge returns the first [max_results] items
    of the buckets read column by column: the first item of every
    bucket, then the second of every bucket that has one, and so on.
    Read in full, the columns hold every item of every bucket once. *)
Theorem round_robin_interleave (buckets : list (list article)) (max_results : Z) :
  round_robin buckets max_results = take (Z.to_nat max_results) (interleave buckets) /\
  interleave buckets ≡ₚ concat buckets.
Proof. split; [apply round_robin_take|apply interleave_permutation]. Qed.

(** ** The web search returns no page twice *)

Lemma fresh_keys_all_some {A} (key : A -> option str) (seen : gset str) (l : list A) :
  fresh_keys key seen l -> map key l = map Some (omap key l).
Proof.
  revert seen. induction l as [|x l IH]; intros seen; cbn [fresh_keys]; [reflexivity|].
  cbn [map omap list_omap]. destruct (key x) as [k|]; [|contradiction].
  intros [_ Hl]. cbn [map]. f_equal. eapply IH. exact Hl.
Qed.

Lemma fresh_keys_is_some {A} (key : A -> option str) (seen : gset str) (l : list A) :
  fresh_keys key seen l -> Forall (fun x => is_Some (key x)) l.
Proof.
  revert seen. induction l as [|x l IH]; intros seen; cbn [fresh_keys]; [constructor|].
  destruct (key x) as [k|] eqn:Hk; [|contradiction].
  intros [_ Hl]. constructor; [exists k; exact Hk|eapply IH; exact Hl].
Qed.

Section WebSearchDistinct.
Variable str_lower : str -> str.
Variable netloc : str -> str.
Variable path : str -> str.
Variable url_ok : str -> bool.
Variable now_iso : str.
Variable ddgs_new : option exception.
Variable ddgs_text : nat -> str -> str -> Z -> str -> exc (list web_result).

Lemma fetch_block_loop_fresh (target : Z) (rs : list web_result) (seen : gset str)
    (block : list article) :
  exists result seen',
    fetch_block_loop str_lower netloc path url_ok now_iso target rs seen block
    = (result, seen') /\
    seen ⊆ seen' /\
    match result with
    | Ok block' =>
        exists added,
          block' = block ++ added /\
          fresh_keys (doc_key str_lower netloc path) seen added /\
          list_to_set (omap (doc_key str_lower netloc path) added) ∪ seen ⊆ seen'
    | Raise _ => True
    end.
Proof.
  revert seen block. induction rs as [|r rs IH]; intros seen block; cbn [fetch_block_loop].
  - exists (Ok block), seen. split; [reflexivity|]. split; [reflexivity|].
    exists []. rewrite app_nil_r. split; [reflexivity|]. split; [exact I|].
    cbn [omap list_omap]. rewrite list_to_set_nil.
    apply union_least; [apply empty_subseteq|reflexivity].
  - destruct (href r) as [u|] eqn:Hu; [|apply IH].
    destruct (truthy (Some u)) eqn:Ht; cbn [negb]; [|apply IH].
    destruct (url_ok u); cbn [negb].
    2:{ exists (Raise ValueError), seen. split; [reflexivity|]. split; [reflexivity|exact I]. }
    cbv zeta. case_bool_decide as Hin; [apply IH|].
    set (a := Article _ _ _ _ _ _ _).
    assert (Ha : doc_key str_lower netloc path a = Some (norm str_lower netloc path u)).
    { unfold doc_key, a. cbn [url]. rewrite Ht. reflexivity. }
    destruct (target <=? len (block ++ [a])).
    + exists (Ok (block ++ [a])), ({[norm str_lower netloc path u]} ∪ seen).
      split; [reflexivity|]. split; [apply union_subseteq_r|].
      exists [a]. split; [reflexivity|]. cbn [fresh_keys omap list_omap]. rewrite Ha.
      split; [split; [exact Hin|exact I]|].
      rewrite list_to_set_cons, list_to_set_nil.
      intros z Hz. rewrite !elem_of_union in Hz. rewrite elem_of_union.
      rewrite elem_of_empty in Hz. tauto.
    + destruct (IH ({[norm str_lower netloc path u]} ∪ seen) (block ++ [a]))
        as [result [seen' [Heq [Hsub Hres]]]].
      exists result, seen'. split; [exact Heq|].
      split; [etransitivity; [apply union_subseteq_r|exact Hsub]|].
      destruct result as [block'|e]; [|exact I].
      destruct Hres as [added [Hblock [Hfresh Hkeys]]].
      exists (a :: added). rewrite Hblock, <- app_assoc.
      split; [reflexivity|]. cbn [fresh_keys omap list_omap]. rewrite Ha.
      split; [split; [exact Hin|exact Hfresh]|].
      rewrite list_to_set_cons. intros z Hz. apply Hkeys.
      rewrite !elem_of_union in Hz. rewrite !elem_of_union. tauto.
Qed.

Lemma gathered_more (seen seen' : gset str) (docs : list article) :
  seen ⊆ seen' -> gathered str_lower netloc path seen docs -> gathered str_lower netloc path seen' docs.
Proof. intros Hsub [Hfresh Hkeys]. split; [exact Hfresh|]. etransitivity; eassumption. Qed.

Lemma gathered_app (seen seen' : gset str) (docs added : list article) :
  gathered str_lower netloc path seen docs ->
  fresh_keys (doc_key str_lower netloc path) seen added ->
  list_to_set (omap (doc_key str_lower netloc path) added) ∪ seen ⊆ seen' ->
  gathered str_lower netloc path seen' (docs ++ added).
Proof.
  intros [Hfresh Hkeys] Hadded Hsub. split.
  - apply fresh_keys_app; [exact Hfresh|].
    eapply fresh_keys_mono; [|exact Hadded].
    apply union_least; [exact Hkeys|apply empty_subseteq].
  - rewrite omap_app, list_to_set_app. apply union_least.
    + etransitivity; [exact Hkeys|]. etransitivity; [|exact Hsub]. apply union_subseteq_r.
    + etransitivity; [|exact Hsub]. apply union_subseteq_l.
Qed.

Lemma fetch_block_gathered (query reg backend : str) (want : Z) (s : search_state)
    (docs : list article) :
  gathered str_lower netloc path (fst s) docs ->
  match fetch_block str_lower netloc path url_ok now_iso ddgs_text query reg backend want s with
  | (Ok block, s') => gathered str_lower netloc path (fst s') (docs ++ block)
  | (Raise _, s') => gathered str_lower netloc path (fst s') docs
  end.
Proof.
  intros Hdocs. unfold fetch_block. cbv zeta.
  destruct (ddgs_text _ _ _ _ _) as [rs|e]; [|exact Hdocs].
  destruct (fetch_block_loop_fresh (Z.max (want * 3) 15) rs (fst s) [])
    as [result [seen' [Heq [Hsub Hres]]]].
  rewrite Heq. cbn [fst snd]. destruct result as [block|e].
  - destruct Hres as [added [Hblock [Hfresh Hkeys]]]. rewrite app_nil_l in Hblock.
    subst block. eapply gathered_app; eassumption.
  - eapply gathered_more; eassumption.
Qed.

Lemma retry_backend_gathered (left : nat) (attempt retries max_results : Z)
    (query reg backend : str) (got : list article) (s : search_state)
    (prev : list article) :
  gathered str_lower netloc path (fst s) (prev ++ got) ->
  let r := retry_backend str_lower netloc path url_ok now_iso ddgs_text left attempt retries
             max_results query reg backend got s in
  gathered str_lower netloc path (fst (snd r)) (prev ++ fst r).
Proof.
  cbv zeta. revert attempt got s.
  induction left as [|left IH]; intros attempt got s Hgot; cbn [retry_backend];
    [exact Hgot|].
  destruct ((attempt <=? retries) && (len got <? max_results * 2)); [|exact Hgot].
  pose proof (fetch_block_gathered query reg backend max_results s _ Hgot) as Hf.
  destruct (fetch_block _ _ _ _ _ _ _ _ _ _ _) as [[[|a chunk]|e] s'].
  - apply IH. rewrite app_nil_r in Hf. exact Hf.
  - cbn [fst snd]. rewrite app_assoc. exact Hf.
  - apply IH. exact Hf.
Qed.

Lemma search_region_gathered (backends : list str) (retries max_results : Z)
    (query reg : str) (got : list article) (s : search_state) (prev : list article) :
  gathered str_lower netloc path (fst s) (prev ++ got) ->
  let r := search_region str_lower netloc path url_ok now_iso ddgs_text backends retries
             max_results query reg got s in
  gathered str_lower netloc path (fst (snd r)) (prev ++ fst r).
Proof.
  cbv zeta. revert got s.
  induction backends as [|backend rest IH]; intros got s Hgot; cbn [search_region];
    [exact Hgot|].
  pose proof (retry_backend_gathered (Z.to_nat (retries + 1)) 0 retries max_results
                query reg backend got s prev Hgot) as Hr.
  cbv zeta in Hr. destruct (retry_backend _ _ _ _ _ _ _ _ _ _ _ _ _ _ _) as [got' s'].
  apply IH. exact Hr.
Qed.

Lemma search_regions_gathered (regions backends : list str) (retries max_results : Z)
    (query : str) (buckets : list (list article)) (s : search_state) :
  gathered str_lower netloc path (fst s) (concat buckets) ->
  fresh_keys (doc_key str_lower netloc path) ∅
    (concat (search_regions str_lower netloc path url_ok now_iso ddgs_text regions backends
               retries max_results query buckets s)).
Proof.
  revert buckets s.
  induction regions as [|reg rest IH]; intros buckets s Hb; cbn [search_regions];
    [exact (proj1 Hb)|].
  pose proof (search_region_gathered backends retries max_results query reg [] s
                (concat buckets)) as Hr.
  cbv zeta in Hr. rewrite app_nil_r in Hr. specialize (Hr Hb).
  destruct (search_region _ _ _ _ _ _ _ _ _ _ _ _ _) as [got s'].
  apply IH. rewrite concat_app. cbn [concat]. rewrite app_nil_r. exact Hr.
Qed.

Lemma slice_to_sublist {A} (l : list A) (k : Z) : slice_to l k `sublist_of` l.
Proof. unfold slice_to. destruct (0 <=? k); apply sublist_take. Qed.

Lemma slice_to_length {A} (l : list A) (k : Z) :
  len l <= Z.max 0 k -> len (slice_to l k) <= Z.max 0 k.
Proof.
  unfold slice_to, len. destruct (Z.leb_spec 0 k); rewrite length_take; lia.
Qed.

(** X15.  [search_companies_web] returns at most [max_results]
    documents (none for a negative [max_results]), each with a
    non-empty URL, and no two of them with the same normalised URL
    (lower-cased host without a leading [www.], path without trailing
    slashes): the set of keys is shared by every region, backend and
    attempt of the search. *)
Theorem search_companies_web_distinct (terms : list str) (max_results : Z) (region : str)
    (global_mix : bool) (retries : Z) (backends : option (list str)) :
  exists docs,
    search_companies_web str_lower netloc path url_ok now_iso ddgs_new ddgs_text
      terms max_results region global_mix retries backends = Ok docs /\
    len docs <= Z.max 0 max_results /\
    Forall (fun a => truthy (url a) = true) docs /\
    NoDup (map (fun a => norm str_lower netloc path <$> url a) docs).
Proof.
  unfold search_companies_web. cbv zeta. eexists. split; [reflexivity|].
  destruct ddgs_new as [e|]; cbn [try_except].
  { rewrite slice_to_nil. split; [unfold len; simpl; lia|]. split; constructor. }
  set (buckets := search_regions _ _ _ _ _ _ _ _ _ _ _ _ _).
  assert (Hfresh : fresh_keys (doc_key str_lower netloc path) ∅ (concat buckets)).
  { apply search_regions_gathered. split; [exact I|]. cbn [concat omap list_omap].
    rewrite list_to_set_nil. reflexivity. }
  rewrite round_robin_take.
  pose proof (interleave_permutation buckets) as Hperm.
  set (docs := slice_to _ _).
  assert (Hsub : docs `sublist_of` interleave buckets).
  { unfold docs. etransitivity; [apply slice_to_sublist|apply sublist_take]. }
  assert (Hsome : Forall (fun a => is_Some (doc_key str_lower netloc path a)) docs).
  { apply Forall_forall. intros a Ha.
    pose proof (fresh_keys_is_some _ _ _ Hfresh) as Hall. rewrite Forall_forall in Hall.
    apply Hall. rewrite <- Hperm. eapply elem_of_sublist; eassumption. }
  assert (Hurl : Forall (fun a => truthy (url a) = true /\
                         doc_key str_lower netloc path a
                         = (norm str_lower netloc path <$> url a)) docs).
  { eapply Forall_impl; [exact Hsome|]. intros a [k Hk]. unfold doc_key in *.
    destruct (truthy (url a)); [split; reflexivity|discriminate]. }
  split; [|split].
  - apply sublist_length in Hsub. unfold docs, len in *.
    pose proof (sublist_length _ _ (slice_to_sublist
                  (take (Z.to_nat max_results) (interleave buckets)) max_results)) as Hl.
    rewrite length_take in Hl. lia.
  - eapply Forall_impl; [exact Hurl|]. intros a [Ha _]. exact Ha.
  - assert (Hmap : map (doc_key str_lower netloc path) docs
                   = map (fun a => norm str_lower netloc path <$> url a) docs).
    { apply Forall_fmap_ext_1. eapply Forall_impl; [exact Hurl|].
      intros a [_ Ha]. exact Ha. }
    rewrite <- Hmap.
    eapply sublist_NoDup; [|apply fmap_sublist; exact Hsub].
    rewrite Hperm. change (NoDup (map (doc_key str_lower netloc path) (concat buckets))).
    rewrite (fresh_keys_all_some _ _ _ Hfresh).
    apply (NoDup_fmap_2 Some). apply (fresh_keys_NoDup _ _ _ Hfresh).
Qed.
End WebSearchDistinct.

(** ** The budget along the pipeline *)

Lemma render_output_without_links (body : str) (used : list article) (fmt : str)
    (max_chars : Z) (lim : bool) :
  0 < max_chars -> len (render_output body used fmt max_chars false lim) <= max_chars.
Proof.
  intros Hpos. rewrite render_output_no_sources by reflexivity.
  apply truncate_under_length. exact Hpos.
Qed.

Section PipelineBudget.
Variable json_loads : str -> option json.
Variable str_lower : str -> str.
Variable is_decimal : char -> bool.
Variable py_int : str -> option Z.
Variable chat : nat -> exc str.

Lemma node_draft_post_fits (st st' : GraphState) (reply : str) :
  include_links st = false -> 0 < max_chars st ->
  node_draft is_decimal py_int st reply = Ok st' ->
  len (post st') <= max_chars st /\ same_run st st'.
Proof.
  intros Hinc Hpos. unfold node_draft. cbv zeta.
  destruct (known_format (output_format st)); cbn [negb]; [|discriminate].
  destruct (parse_used_sources _ _ _ _ _) as [body used_indices].
  destruct (pick_sources _ _ _) as [used|]; [|discriminate]. cbn [mbind exc_bind].
  intros [= <-]. split.
  - cbn [post]. rewrite Hinc. apply render_output_without_links. exact Hpos.
  - unfold same_run. cbn. repeat split.
Qed.

Lemma node_revise_post_fits (st st' : GraphState) (reply : str) :
  include_links st = false -> 0 < max_chars st ->
  node_revise is_decimal py_int st reply = Ok st' ->
  len (post st') <= max_chars st.
Proof.
  intros Hinc Hpos. unfold node_revise. cbv zeta.
  destruct (parse_used_sources _ _ _ _ _) as [body used_indices].
  destruct (pick_sources _ _ _) as [used|]; [|discriminate]. cbn [mbind exc_bind].
  intros [= <-]. cbn [post]. rewrite Hinc.
  apply render_output_without_links. exact Hpos.
Qed.

Lemma verify_loop_post_fits (fuel calls : nat) (st st' : GraphState) (nodes : list node) :
  include_links st = false -> 0 < max_chars st ->
  len (post st) <= max_chars st ->
  verify_loop json_loads str_lower is_decimal py_int chat fuel calls st
  = (nodes, Some (Ok st')) ->
  len (post st') <= max_chars st.
Proof.
  revert calls st nodes. induction fuel as [|fuel IH]; intros calls st nodes Hinc Hpos Hfit;
    cbn [verify_loop]; [discriminate|].
  destruct (chat calls) as [reply|e]; cbn [mbind exc_bind]; [|discriminate].
  pose proof (node_verify_outcome json_loads str_lower st reply) as Hv.
  destruct (node_verify _ _ st reply) as [st1|e] eqn:Hv1; [|discriminate].
  destruct Hv as [_ [Hpost _]].
  destruct (node_verify_same_run _ _ _ _ _ Hv1) as [_ [Hmax1 [Hinc1 _]]].
  destruct (should_continue st1).
  - destruct (chat (S calls)) as [reply2|e]; cbn [mbind exc_bind]; [|discriminate].
    destruct (node_revise _ _ st1 reply2) as [st2|e] eqn:Hr; [|discriminate].
    pose proof (node_revise_post_fits st1 st2 reply2) as Hfit2.
    destruct (node_revise_same_run _ _ _ _ _ Hr) as [_ [Hmax2 [Hinc2 _]]].
    specialize (IH (S (S calls)) st2).
    destruct (verify_loop _ _ _ _ _ fuel (S (S calls)) st2) as [nodes' result].
    intros [= <- ->]. rewrite <- Hmax1, <- Hmax2.
    eapply IH; [congruence|lia| |reflexivity].
    rewrite Hmax2. apply Hfit2; [congruence|lia|exact Hr].
  - intros [= <- <-]. rewrite Hpost. exact Hfit.
Qed.

(** X16.  With source links switched off and a positive budget, the
    post never exceeds the budget along the pipeline: not the draft,
    and not the post a run of the verify and revise cycle finishes
    with, whatever the backend replies and however many revisions are
    made. *)
Theorem pipeline_post_fits (fuel calls : nat) (st0 st st' : GraphState) (reply : str)
    (nodes : list node) :
  include_links st0 = false -> 0 < max_chars st0 ->
  node_draft is_decimal py_int st0 reply = Ok st ->
  verify_loop json_loads str_lower is_decimal py_int chat fuel calls st
  = (nodes, Some (Ok st')) ->
  len (post st) <= max_chars st0 /\ len (post st') <= max_chars st0.
Proof.
  intros Hinc Hpos Hdraft Hloop.
  destruct (node_draft_post_fits st0 st reply Hinc Hpos Hdraft)
    as [Hfit [_ [Hmax [Hinc' _]]]].
  split; [exact Hfit|]. rewrite <- Hmax.
  eapply verify_loop_post_fits; [congruence|lia|lia|exact Hloop].
Qed.
End PipelineBudget.

Lemma pipeline_post_fits_witness :
  exists st st' nodes,
    node_draft ascii_decimal ascii_int plain_state long_reply = Ok st /\
    verify_loop sample_loads ascii_lower ascii_decimal ascii_int prose_chat 3 1 st
    = (nodes, Some (Ok st')) /\
    len (post st) <= 12 /\ len (post st') <= 12.
Proof.
  eexists. eexists. eexists.
  assert (H : forall x y z,
             node_draft ascii_decimal ascii_int plain_state long_reply = Ok x ->
             verify_loop sample_loads ascii_lower ascii_decimal ascii_int prose_chat 3 1 x
             = (z, Some (Ok y)) ->
             node_draft ascii_decimal ascii_int plain_state long_reply = Ok x /\
             verify_loop sample_loads ascii_lower ascii_decimal ascii_int prose_chat 3 1 x
             = (z, Some (Ok y)) /\
             len (post x) <= 12 /\ len (post y) <= 12).
  { intros x y z E1 E2. split; [exact E1|]. split; [exact E2|].
    apply (pipeline_post_fits sample_loads ascii_lower ascii_decimal ascii_int prose_chat
             3 1 plain_state x y long_reply z); [reflexivity|reflexivity|exact E1|exact E2]. }
  apply H; vm_compute; reflexivity.
Defined.

(** ** Content types, again *)

Section ContentTypesAgain.
Variable str_lower : str -> str.

Lemma normalise_types_kept (types : option (list (option str))) :
  normalise_types str_lower types
  = match filter (fun t => t ∈ VALID_TYPES)
            (map (canonical_type str_lower) (default [] types)) with
    | [] => [lit "news"]
    | kept => kept
    end.
Proof.
  destruct types as [[|t types]|]; [reflexivity| |reflexivity].
  unfold normalise_types. rewrite normalise_loop, app_nil_l. cbn [default].
  destruct (filter _ _); reflexivity.
Qed.

Lemma valid_type_cases (t : str) :
  t ∈ VALID_TYPES <-> t = lit "news" \/ t = lit "blog" \/ t = lit "pr".
Proof.
  unfold VALID_TYPES. rewrite !elem_of_union, !elem_of_singleton. tauto.
Qed.

Hypothesis lower_news : str_lower (lit "news") = lit "news".
Hypothesis lower_blog : str_lower (lit "blog") = lit "blog".
Hypothesis lower_pr : str_lower (lit "pr") = lit "pr".

Lemma canonical_type_valid (t : str) :
  t ∈ VALID_TYPES -> canonical_type str_lower (Some t) = t.
Proof.
  intros Ht. apply valid_type_cases in Ht. unfold canonical_type. cbn [default from_option id].
  destruct Ht as [Ht | [Ht | Ht]]; subst t.
  - replace (strip (lit "news")) with (lit "news") by (vm_compute; reflexivity).
    rewrite lower_news. reflexivity.
  - replace (strip (lit "blog")) with (lit "blog") by (vm_compute; reflexivity).
    rewrite lower_blog. reflexivity.
  - replace (strip (lit "pr")) with (lit "pr") by (vm_compute; reflexivity).
    rewrite lower_pr. reflexivity.
Qed.

Lemma canonical_valid_list (l : list str) :
  Forall (fun t => t ∈ VALID_TYPES) l ->
  filter (fun t => t ∈ VALID_TYPES) (map (canonical_type str_lower) (map Some l)) = l.
Proof.
  induction 1 as [|t l Ht Hl IH]; [reflexivity|].
  cbn [map]. rewrite filter_cons, (canonical_type_valid t Ht).
  rewrite decide_True by exact Ht. f_equal. exact IH.
Qed.

(** X17.  Normalising content types is idempotent: the normalised
    list, given back to [normalise_types], is returned as it is.  This
    holds for a [str.lower] that leaves the three valid names alone. *)
Theorem normalise_types_idempotent (types : option (list (option str))) :
  normalise_types str_lower (Some (map Some (normalise_types str_lower types)))
  = normalise_types str_lower types.
Proof.
  assert (Hvalid : Forall (fun t => t ∈ VALID_TYPES) (normalise_types str_lower types)).
  { rewrite normalise_types_kept.
    destruct (filter _ _) as [|k kept] eqn:Hk.
    - constructor; [|constructor]. apply valid_type_cases. left. reflexivity.
    - rewrite <- Hk. apply Forall_forall. intros x Hx.
      apply list_elem_of_filter in Hx. tauto. }
  rewrite (normalise_types_kept (Some (map Some (normalise_types str_lower types)))).
  cbn [default from_option id]. rewrite (canonical_valid_list _ Hvalid).
  destruct (normalise_types str_lower types) as [|k kept] eqn:Hn; [|reflexivity].
  rewrite normalise_types_kept in Hn. destruct (filter _ _); discriminate.
Qed.
End ContentTypesAgain.

Lemma normalise_types_idempotent_witness :
  normalise_types ascii_lower
    (Some (map Some (normalise_types ascii_lower
                       (Some [Some (lit " Blogs "); None; Some (lit "PR")]))))
  = normalise_types ascii_lower (Some [Some (lit " Blogs "); None; Some (lit "PR")]).
Proof.
  apply (normalise_types_idempotent ascii_lower); vm_compute; reflexivity.
Defined.

(** ** What [extract_json] returns *)

Lemma find_char_split (c : char) (s : str) :
  find_char c s = -1 \/
  exists pre post, s = pre ++ c :: post /\ find_char c s = len pre.
Proof.
  induction s as [|a s IH]; [left; reflexivity|]. cbn [find_char].
  destruct (N.eqb_spec a c) as [->|Hne].
  - right. exists [], s. split; reflexivity.
  - destruct IH as [Hnone|[pre [post [Hs Hfound]]]].
    + left. rewrite Hnone. reflexivity.
    + right. exists (a :: pre), post. split; [rewrite Hs; reflexivity|].
      rewrite Hfound. unfold len. cbn [length].
      destruct (length pre) as [|n]; [reflexivity|].
      rewrite !Nat2Z.inj_succ.
      destruct (Z.of_nat n) as [|p|p] eqn:Hn; try lia; reflexivity.
Qed.

Lemma slice_from_found {A} (pre post : list A) (c : A) (b : Z) :
  len pre < b ->
  exists rest, slice (pre ++ c :: post) (len pre) b = c :: rest.
Proof.
  intros Hb. unfold slice, len in *. rewrite Nat2Z.id.
  rewrite drop_app_length.
  destruct (Z.to_nat (b - Z.of_nat (length pre))) as [|n] eqn:Hn; [lia|].
  eexists. reflexivity.
Qed.

Section ExtractJson.
Variable json_loads : str -> option json.

(** A JSON text that starts with a brace is an object. *)
Hypothesis brace_is_object :
  forall (s : str) (v : json),
    json_loads s = Some v -> starts_with (lit "{") s = true ->
    exists fields, v = JObj fields.

(** X18.  [extract_json] returns a dictionary whenever the text as a
    whole does not decode: the fragment it tries next starts with a
    brace, so what it decodes to is an object, and every other path
    returns the empty dictionary.  The only value of another type it
    can return is the one the whole text decodes to. *)
Theorem extract_json_object (text : str) :
  json_loads text = None ->
  exists fields, extract_json json_loads text = JObj fields.
Proof.
  intros Hnone. unfold extract_json. rewrite Hnone. cbv zeta.
  destruct (negb (find_char 123 text =? -1) && negb (rfind_char 125 text =? -1)
            && (find_char 123 text <? rfind_char 125 text)) eqn:Hcond;
    [|exists []; reflexivity].
  destruct (json_loads (slice text _ _)) as [v|] eqn:Hv; [|exists []; reflexivity].
  apply andb_prop in Hcond. destruct Hcond as [Hcond Hlt].
  apply andb_prop in Hcond. destruct Hcond as [Hstart _].
  apply Z.ltb_lt in Hlt. apply negb_true_iff, Z.eqb_neq in Hstart.
  destruct (find_char_split 123%N text) as [Hno|[pre [post [Htext Hfound]]]];
    [contradiction|].
  apply (brace_is_object _ v Hv).
  pose proof (slice_from_found pre post 123%N (rfind_char 125 text + 1)) as Hslice.
  rewrite <- Htext, <- Hfound in Hslice.
  destruct Hslice as [rest Hrest]; [lia|].
  rewrite Hrest. reflexivity.
Qed.
End ExtractJson.

Lemma extract_json_object_witness :
  exists fields, extract_json sample_loads reply_wrapped = JObj fields.
Proof.
  apply (extract_json_object sample_loads); [|vm_compute; reflexivity].
  intros s v. unfold sample_loads.
  destruct (str_eqb s reply_repeated); [intros [= <-] _; eexists; reflexivity|].
  destruct (str_eqb s reply_array) eqn:Hs; [|discriminate].
  unfold str_eqb in Hs. apply bool_decide_eq_true in Hs. subst s. intros _ Hbrace.
  vm_compute in Hbrace. discriminate.
Defined.

(** ** The query of the company verifier *)

Lemma join_cons (sep p : str) (ps : list str) :
  join sep (p :: ps) = p ++ match ps with
                            | [] => []
                            | _ => sep ++ join sep ps
                            end.
Proof. destruct ps; cbn [join]; [rewrite app_nil_r|]; reflexivity. Qed.

Section CompanyQuery.
Variable str_lower : str -> str.

(** X19.  The query sent for a company starts with the name of the
    company, alone or followed by a space and the rest of the query.
    It is at most 100 characters long, unless the short form that
    replaces a longer query (name, topic and the first relevant term) is
    itself longer. *)
Theorem company_query_shape (topic : str) (terms : list str)
    (company_name description : str) :
  let query := company_query str_lower topic terms company_name description in
  (query = company_name \/ exists rest, query = company_name ++ lit " " ++ rest) /\
  (len query <= 100 \/
   query = company_name ++ lit " " ++ topic ++
           match relevant_terms str_lower terms company_name with
           | term :: _ => lit " " ++ term
           | [] => []
           end).
Proof.
  cbv zeta. unfold company_query. cbv zeta.
  set (parts0 := match topic with [] => [company_name] | _ => [company_name] ++ [topic] end).
  set (parts1 := parts0 ++ firstn 2 (relevant_terms str_lower terms company_name)).
  set (parts := match description, topic with
                | _ :: _, _ :: _ =>
                    match description_phrase str_lower topic description with
                    | Some phrase => parts1 ++ [phrase]
                    | None => parts1
                    end
                | _, _ => parts1
                end).
  assert (Hparts : exists more, parts = company_name :: more).
  { assert (H0 : exists more, parts0 = company_name :: more)
      by (subst parts0; destruct topic; eexists; reflexivity).
    destruct H0 as [more0 H0].
    assert (H1 : exists more, parts1 = company_name :: more)
      by (subst parts1; rewrite H0; eexists; reflexivity).
    destruct H1 as [more1 H1]. subst parts.
    destruct description; [eexists; exact H1|].
    destruct topic; [eexists; exact H1|].
    destruct (description_phrase _ _ _); [|eexists; exact H1].
    rewrite H1. eexists. reflexivity. }
  destruct Hparts as [more Hparts]. rewrite Hparts.
  destruct (Z.ltb_spec 100 (len (join (lit " ") (company_name :: more)))) as [Hlong|Hfit].
  - split.
    + right. destruct (relevant_terms str_lower terms company_name);
        eexists; rewrite <- ?app_assoc; reflexivity.
    + right. destruct (relevant_terms str_lower terms company_name);
        rewrite <- ?app_assoc, ?app_nil_r; reflexivity.
  - split; [|left; exact Hfit].
    rewrite join_cons. destruct more; [left; apply app_nil_r|right; eexists; reflexivity].
Qed.
End CompanyQuery.

(** ** The news provider *)

Lemma str_ltb_asym (a b : str) : str_ltb a b = true -> str_ltb b a = false.
Proof.
  revert b. induction a as [|x a IH]; intros [|y b]; cbn [str_ltb]; try congruence.
  destruct (N.ltb_spec x y), (N.ltb_spec y x), (N.eqb_spec x y), (N.eqb_spec y x);
    cbn [orb andb]; try lia; try congruence.
  apply IH.
Qed.

Lemma str_geb_trans (a b c : str) :
  str_ltb a b = false -> str_ltb b c = false -> str_ltb a c = false.
Proof.
  revert b c. induction a as [|x a IH]; intros [|y b] [|z c]; cbn [str_ltb];
    try congruence.
  destruct (N.ltb_spec x y), (N.ltb_spec y z), (N.ltb_spec x z),
    (N.eqb_spec x y), (N.eqb_spec y z), (N.eqb_spec x z);
    cbn [orb andb]; try lia; try congruence.
  apply IH.
Qed.

Lemma insert_newest_permutation (x : article) (l : list article) :
  insert_newest x l ≡ₚ x :: l.
Proof.
  induction l as [|y l IH]; cbn [insert_newest]; [reflexivity|].
  destruct (str_ltb (published x) (published y)); [|reflexivity].
  rewrite IH. apply Permutation_swap.
Qed.

Lemma sort_newest_first_permutation (l : list article) : sort_newest_first l ≡ₚ l.
Proof.
  induction l as [|x l IH]; [reflexivity|].
  cbn [sort_newest_first fold_right]. fold (sort_newest_first l).
  rewrite insert_newest_permutation, IH. reflexivity.
Qed.

Lemma insert_newest_sorted (x : article) (l : list article) :
  newest_first l -> newest_first (insert_newest x l).
Proof.
  unfold newest_first. induction l as [|y l IH]; intros Hl; cbn [insert_newest].
  - repeat constructor.
  - apply StronglySorted_inv in Hl. destruct Hl as [Hl Hy].
    destruct (str_ltb (published x) (published y)) eqn:Hxy.
    + apply SSorted_cons; [apply IH; exact Hl|].
      rewrite insert_newest_permutation. constructor; [|exact Hy].
      apply str_ltb_asym. exact Hxy.
    + apply SSorted_cons; [apply SSorted_cons; assumption|].
      constructor; [exact Hxy|].
      eapply Forall_impl; [exact Hy|]. intros z Hz.
      eapply str_geb_trans; eassumption.
Qed.

Lemma sort_newest_first_sorted (l : list article) : newest_first (sort_newest_first l).
Proof.
  induction l as [|x l IH]; [constructor|].
  cbn [sort_newest_first fold_right]. apply insert_newest_sorted. exact IH.
Qed.

Lemma newest_first_take (n : nat) (l : list article) :
  newest_first l -> newest_first (take n l).
Proof.
  unfold newest_first. revert n. induction l as [|x l IH]; intros [|n] Hl;
    cbn [take]; try constructor.
  - apply IH. apply StronglySorted_inv in Hl. tauto.
  - apply Forall_take. apply StronglySorted_inv in Hl. tauto.
Qed.

Lemma unique_by_url_NoDup (items : list article) : NoDup (map url (unique_by_url items)).
Proof.
  rewrite unique_by_url_keep_first.
  pose proof (keep_first_fresh url_key ∅ items) as Hfresh.
  destruct (fresh_url_keys _ _ Hfresh) as [Hmap _].
  rewrite Hmap. apply (NoDup_fmap_2 Some). apply (fresh_keys_NoDup _ _ _ Hfresh).
Qed.

Lemma er_item_facts (art : er_article) (a : article) :
  er_item art = Some a ->
  truthy (url a) = true /\ truthy (published_at a) = true /\
  url a = er_url art /\ title a = er_title art /\
  company_related a = None /\ relevance_score a = None /\
  forall d, description a = Some d -> d <> [] /\ len d <= 280.
Proof.
  unfold er_item. cbv zeta.
  destruct (truthy (py_or (dateTimePub art) (dateTime art))) eqn:Hp; cbn [negb];
    [|discriminate].
  cbn [url]. destruct (truthy (er_url art)) eqn:Hu; cbn [negb]; [|discriminate].
  intros [= <-]. cbn [url published_at title company_related relevance_score description].
  repeat (split; [first [assumption|reflexivity]|]).
  intros d. set (body := take 280 (strip (or_empty (er_body art)))).
  assert (Hlen : (length body <= 280)%nat) by (subst body; rewrite length_take; lia).
  destruct body as [|c body]; [discriminate|].
  intros [= <-]. split; [discriminate|]. unfold len. lia.
Qed.

Section ProviderFacts.
Variable getenv : str -> option str.
Variable within_range : str -> bool.

(** X20.  What [search_articles] returns: documents made of articles
    of the query, each with a non-empty URL and a publication time
    within range, and a description that is absent or has between 1 and
    280 characters; no two documents with the same URL; no document
    older than one that comes after it; and at most [max_results] of
    them.  It raises [RuntimeError] itself (library or key missing), or
    passes on the exception of the query. *)
Theorem search_articles_result (installed : bool) (terms : list str) (max_results : Z)
    (raw : exc (list er_article)) :
  match search_articles getenv within_range installed terms max_results raw with
  | Ok docs =>
      Forall (fun a => truthy (url a) = true /\ truthy (published_at a) = true /\
                       within_range (published a) = true /\
                       (forall d, description a = Some d -> d <> [] /\ len d <= 280) /\
                       (exists arts art,
                          raw = Ok arts /\ art ∈ arts /\ er_item art = Some a)) docs /\
      NoDup (map url docs) /\
      newest_first docs /\
      (0 <= max_results -> len docs <= max_results)
  | Raise e => (exists msg, e = RuntimeError msg) \/ raw = Raise e
  end.
Proof.
  unfold search_articles. cbv zeta.
  destruct installed; cbn [negb]; [|left; eexists; reflexivity].
  destruct (truthy (py_or _ _)); cbn [negb]; [|left; eexists; reflexivity].
  destruct (map strip _) as [|t ts].
  { split; [constructor|]. split; [constructor|]. split; [constructor|].
    intros Hm. unfold len. simpl. lia. }
  destruct raw as [arts|e]; cbn [mbind exc_bind]; [|right; reflexivity].
  set (items := filter _ (omap er_item arts)).
  set (sorted := sort_newest_first (unique_by_url items)).
  assert (Hsub : slice_to sorted max_results `sublist_of` sorted)
    by apply slice_to_sublist.
  assert (Hperm : sorted ≡ₚ unique_by_url items) by apply sort_newest_first_permutation.
  split; [|split; [|split]].
  - apply Forall_forall. intros a Ha.
    assert (Hin : a ∈ items).
    { eapply elem_of_sublist in Ha; [|exact Hsub]. rewrite Hperm in Ha.
      rewrite unique_by_url_keep_first in Ha.
      eapply elem_of_sublist; [exact Ha|apply keep_first_sublist]. }
    apply list_elem_of_filter in Hin. destruct Hin as [Hrange Hin].
    apply list_elem_of_omap in Hin. destruct Hin as [art [Hart Hitem]].
    destruct (er_item_facts art a Hitem) as [Hu [Hp [_ [_ [_ [_ Hd]]]]]].
    split; [exact Hu|]. split; [exact Hp|]. split; [exact Hrange|]. split; [exact Hd|].
    exists arts, art. split; [reflexivity|]. split; assumption.
  - eapply sublist_NoDup; [|apply fmap_sublist; exact Hsub].
    rewrite Hperm. apply unique_by_url_NoDup.
  - unfold slice_to. destruct (0 <=? max_results); apply newest_first_take;
      apply sort_newest_first_sorted.
  - intros Hm. unfold slice_to, len. destruct (Z.leb_spec 0 max_results); [|lia].
    rewrite length_take. lia.
Qed.
End ProviderFacts.
